(** * Priority Level Replay: the serial orchestration loop

    A shallow embedding of [ding/entry/serial_entry_plr.py]: the level pool
    generator [generate_seeds] and the body of [serial_pipeline_plr] from the
    seeding of the environments (line 63) to [return policy] (line 125).
    Lines 48-62 read and compile the configuration and build the two
    environment managers; the model starts from the compiled [cfg].

    The pipeline drives objects whose classes live in other packages
    (learner, collector, evaluator, commander, level sampler, environment
    manager).  Every method call on one of them is a _collaborator call_: it
    may change the shared world, may return a value and may raise.  The
    model runs the pipeline in a monad that threads the world, records every
    call with its result, and stops at the first exception, as Python does
    in a function that has no [try] block.  The two properties the loop
    reads, [learner.train_iter] and [collector.envstep], are functions of
    the world.  [while True] gets a budget of passes: a run that uses it
    up ends as [OutOfFuel], which stands for "still running".

    The statements are about the trace of a run, the list of its calls in
    order, for arbitrary collaborators.

    Two smaller parts follow the pipeline: the slices that
    [ding/policy/r2d2_gtrxl.py] takes along the time axis of a training
    sequence, and the [RocketEnv] class of
    [dizoo/rocket/envs/rocket_env.py], an environment of the kind the
    pipeline seeds and resets. *)

From Stdlib Require Import String List Finite ZArith Bool Arith Lia
  DecimalString.
Import ListNotations.

Set Implicit Arguments.

(* ================================================================= *)
(** ** The level pool generator *)

(** Python's [range(n)] for an integer [n]: empty when [n <= 0]. *)
Definition range (n : Z) : list Z := map Z.of_nat (seq 0 (Z.to_nat n)).

(** [def generate_seeds(num_seeds=500, base_seed=0):
        return [base_seed + i for i in range(num_seeds)]] *)
Definition generate_seeds (num_seeds base_seed : Z) : list Z :=
  map (fun i => (base_seed + i)%Z) (range num_seeds).

(** The default arguments of [generate_seeds]. *)
Definition default_num_seeds : Z := 500.
Definition default_base_seed : Z := 0.

Arguments generate_seeds : simpl never.

(* ================================================================= *)
(** ** Data exchanged with the collaborators *)

(** The pipeline only moves these values around; their contents belong to
    the collaborators. *)
Class DataTypes : Type := {
  policy : Type;       (* the object returned by [create_policy] *)
  kwargs : Type;       (* what [commander.step()] returns *)
  rollout : Type;      (* what [collector.collect] returns ([new_data]) *)
  stacked : Type;      (* what [default_preprocess_learn] returns *)
  reward : Type;       (* second component of [evaluator.eval]'s result *)
  tensor : Type;       (* [torch.Tensor] *)
  shape : Type;        (* [cfg.policy.model.obs_shape], [action_shape] *)
  replay_cfg : Type;   (* [cfg.level_replay] *)
  exn : Type           (* Python exceptions *)
}.

(** The compiled configuration, as far as the pipeline reads it.
    [collector_env_num] counts environments, so it is a natural number. *)
Record Config {DT : DataTypes} : Type := {
  collector_env_num : nat;       (* cfg.env.collector_env_num *)
  seed : Z;                      (* cfg.seed *)
  cuda : bool;                   (* cfg.policy.cuda *)
  obs_shape : shape;             (* cfg.policy.model.obs_shape *)
  action_shape : shape;          (* cfg.policy.model.action_shape *)
  level_replay : replay_cfg;     (* cfg.level_replay *)
  ignore_done : bool             (* cfg.policy.learn.ignore_done *)
}.

Section Events.
Context {DT : DataTypes}.

(** A call either returns a value or raises. *)
Definition result (A : Type) : Type := (exn + A)%type.

(** The collaborator calls of [serial_pipeline_plr], indexed by the type of
    the value they return, with the source line of each. *)
Inductive plrE : Type -> Type :=
| CollectorEnvSeedCfg (seed : Z) : plrE unit                    (* 63 *)
| EvaluatorEnvSeedCfg (seed : Z) : plrE unit                    (* 64 *)
| LevelSamplerInit (seeds : list Z) (obs act : shape)
    (num_actors : nat) (lr : replay_cfg) : plrE unit            (* 66-68 *)
| SetPkgSeed (seed : Z) (use_cuda : bool) : plrE unit           (* 69 *)
| CreatePolicy : plrE policy                                    (* 70 *)
| CreateWorkers : plrE unit                                     (* 73-87 *)
| CallHook (name : string) : plrE unit                          (* 93, 124 *)
| Sample (strategy : option string) : plrE Z                    (* 95, 117 *)
| EnvSeed (seeds : list Z) : plrE unit                          (* 99, 119 *)
| EnvReset : plrE unit                                          (* 100, 120 *)
| CommanderStep : plrE kwargs                                   (* 103 *)
| ShouldEval (train_iter : Z) : plrE bool                       (* 105 *)
| Eval (train_iter envstep : Z) : plrE (bool * reward)          (* 106 *)
| Collect (train_iter : Z) (level_seeds : tensor)
    (policy_kwargs : kwargs) : plrE rollout                     (* 110 *)
| Train (new_data : rollout) (envstep : Z) : plrE unit          (* 114 *)
| PreprocessLearn (new_data : rollout) (ignore_done : bool)
    : plrE stacked                                              (* 115 *)
| UpdateWithRollouts (stacked_data : stacked) (n : nat)
    : plrE unit.                                                (* 116 *)

(** One entry of the trace: a call together with what it answered. *)
Inductive event : Type :=
| EvCollectorEnvSeedCfg (seed : Z) (r : result unit)
| EvEvaluatorEnvSeedCfg (seed : Z) (r : result unit)
| EvLevelSamplerInit (seeds : list Z) (obs act : shape)
    (num_actors : nat) (lr : replay_cfg) (r : result unit)
| EvSetPkgSeed (seed : Z) (use_cuda : bool) (r : result unit)
| EvCreatePolicy (r : result policy)
| EvCreateWorkers (r : result unit)
| EvCallHook (name : string) (r : result unit)
| EvSample (strategy : option string) (r : result Z)
| EvEnvSeed (seeds : list Z) (r : result unit)
| EvEnvReset (r : result unit)
| EvCommanderStep (r : result kwargs)
| EvShouldEval (train_iter : Z) (r : result bool)
| EvEval (train_iter envstep : Z) (r : result (bool * reward))
| EvCollect (train_iter : Z) (level_seeds : tensor)
    (policy_kwargs : kwargs) (r : result rollout)
| EvTrain (new_data : rollout) (envstep : Z) (r : result unit)
| EvPreprocessLearn (new_data : rollout) (ignore_done : bool)
    (r : result stacked)
| EvUpdateWithRollouts (stacked_data : stacked) (n : nat) (r : result unit).

Definition log {A : Type} (c : plrE A) : result A -> event :=
  match c in plrE T return result T -> event with
  | CollectorEnvSeedCfg s => EvCollectorEnvSeedCfg s
  | EvaluatorEnvSeedCfg s => EvEvaluatorEnvSeedCfg s
  | LevelSamplerInit l o a n lr => EvLevelSamplerInit l o a n lr
  | SetPkgSeed s c => EvSetPkgSeed s c
  | CreatePolicy => EvCreatePolicy
  | CreateWorkers => EvCreateWorkers
  | CallHook h => EvCallHook h
  | Sample s => EvSample s
  | EnvSeed l => EvEnvSeed l
  | EnvReset => EvEnvReset
  | CommanderStep => EvCommanderStep
  | ShouldEval ti => EvShouldEval ti
  | Eval ti es => EvEval ti es
  | Collect ti ls k => EvCollect ti ls k
  | Train d es => EvTrain d es
  | PreprocessLearn d b => EvPreprocessLearn d b
  | UpdateWithRollouts sd n => EvUpdateWithRollouts sd n
  end.

(** The exception an entry carries, if its call raised. *)
Definition failure (ev : event) : option exn :=
  let err {A} (r : result A) : option exn :=
    match r with inl e => Some e | inr _ => None end in
  match ev with
  | EvCollectorEnvSeedCfg _ r | EvEvaluatorEnvSeedCfg _ r
  | EvLevelSamplerInit _ _ _ _ _ r | EvSetPkgSeed _ _ r
  | EvCreateWorkers r | EvCallHook _ r | EvEnvSeed _ r | EvEnvReset r
  | EvTrain _ _ r | EvUpdateWithRollouts _ _ r => err r
  | EvCreatePolicy r => err r
  | EvSample _ r => err r
  | EvCommanderStep r => err r
  | EvShouldEval _ r => err r
  | EvEval _ _ r => err r
  | EvCollect _ _ _ r => err r
  | EvPreprocessLearn _ _ r => err r
  end.

End Events.

(** The collaborators: a shared world, the behaviour of every call on it,
    the two counters the loop reads as properties, and [torch.Tensor]. *)
Class Collaborators (DT : DataTypes) : Type := {
  world : Type;
  handle : forall A : Type, plrE A -> world -> result A * world;
  train_iter : world -> Z;       (* learner.train_iter *)
  envstep : world -> Z;          (* collector.envstep *)
  torch_Tensor : list Z -> tensor
}.

(* ================================================================= *)
(** ** The pipeline monad *)

Section Pipeline.
Context {DT : DataTypes} {C : Collaborators DT}.

(** How a computation ends: with a value, with an exception that nothing
    caught, or (for [while True]) with the iteration budget used up. *)
Inductive outcome (A : Type) : Type :=
| Done (a : A)
| Raised (e : exn)
| OutOfFuel.
Arguments Raised {A} e.
Arguments OutOfFuel {A}.

(** A computation maps the world to the calls it made, in order, how it
    ended, and the world it left. *)
Definition M (A : Type) : Type := world -> list event * outcome A * world.

Definition ret {A : Type} (a : A) : M A := fun w => ([], Done a, w).

Definition bind {A B : Type} (m : M A) (f : A -> M B) : M B :=
  fun w =>
    match m w with
    | (t1, Done a, w1) =>
        match f a w1 with (t2, o, w2) => (t1 ++ t2, o, w2) end
    | (t1, Raised e, w1) => (t1, Raised e, w1)
    | (t1, OutOfFuel, w1) => (t1, OutOfFuel, w1)
    end.

(** A collaborator call: one trace entry; an exception ends the run. *)
Definition call {A : Type} (c : plrE A) : M A :=
  fun w =>
    match handle c w with
    | (inr a, w1) => ([log c (inr a)], Done a, w1)
    | (inl e, w1) => ([log c (inl e)], Raised e, w1)
    end.

(** Reading a property ([learner.train_iter], [collector.envstep]). *)
Definition get (f : world -> Z) : M Z := fun w => ([], Done (f w), w).

Definition out_of_fuel {A : Type} : M A := fun w => ([], OutOfFuel, w).

Definition trace_of {A : Type} (r : list event * outcome A * world) : list event :=
  fst (fst r).
Definition outcome_of {A : Type} (r : list event * outcome A * world) : outcome A :=
  snd (fst r).
Definition world_of {A : Type} (r : list event * outcome A * world) : world :=
  snd r.

Declare Scope plr_scope.
Delimit Scope plr_scope with plr.
Notation "x <- m ;; k" := (bind m (fun x => k))
  (at level 61, m at next level, right associativity) : plr_scope.
Notation "m ;;; k" := (bind m (fun _ => k))
  (at level 61, right associativity) : plr_scope.
Local Open Scope plr_scope.

(* ================================================================= *)
(** ** [serial_pipeline_plr] *)

(** [[int(level_sampler.sample(strategy)) for _ in range(n)]]; [None] is
    the call without argument, [sample()]. *)
Fixpoint sample_round (strategy : option string) (n : nat) : M (list Z) :=
  match n with
  | O => ret []
  | S n' =>
      z <- call (Sample strategy) ;;
      zs <- sample_round strategy n' ;;
      ret (z :: zs)
  end.

(** Lines 63-100: seeding, the level sampler, the policy and the workers,
    the [before_run] hook and the first assignment round. *)
Definition prologue (cfg : Config) : M (policy * tensor) :=
  call (CollectorEnvSeedCfg (seed cfg)) ;;;
  call (EvaluatorEnvSeedCfg (seed cfg)) ;;;
  let train_seeds := generate_seeds default_num_seeds default_base_seed in
  call (LevelSamplerInit train_seeds (obs_shape cfg) (action_shape cfg)
          (collector_env_num cfg) (level_replay cfg)) ;;;
  call (SetPkgSeed (seed cfg) (cuda cfg)) ;;;
  pol <- call CreatePolicy ;;
  call CreateWorkers ;;;
  call (CallHook "before_run") ;;;
  seeds <- sample_round (Some "sequential"%string) (collector_env_num cfg) ;;
  let level_seeds := torch_Tensor seeds in
  call (EnvSeed seeds) ;;;
  call EnvReset ;;;
  ret (pol, level_seeds).

(** How one pass through the body of [while True] ends: at a [break], or at
    the end of the body with the [level_seeds] of the next pass. *)
Inductive flow : Type :=
| Break
| Continue (level_seeds : tensor).

(** Lines 103-122: the body of the loop.  [default_preprocess_learn] is
    always called with [use_nstep=False]; the constant is not recorded. *)
Definition cycle (cfg : Config) (max_train_iter max_env_step : Z)
    (level_seeds : tensor) : M flow :=
  collect_kwargs <- call CommanderStep ;;
  ti <- get train_iter ;;
  fire <- call (ShouldEval ti) ;;
  stop <- (if fire : bool then
             ti <- get train_iter ;;
             es <- get envstep ;;
             sr <- call (Eval ti es) ;;
             ret (fst sr)
           else ret false) ;;
  if stop : bool then ret Break else
  ti <- get train_iter ;;
  new_data <- call (Collect ti level_seeds collect_kwargs) ;;
  es <- get envstep ;;
  call (Train new_data es) ;;;
  stacked_data <- call (PreprocessLearn new_data (ignore_done cfg)) ;;
  call (UpdateWithRollouts stacked_data (collector_env_num cfg)) ;;;
  seeds <- sample_round None (collector_env_num cfg) ;;
  let level_seeds := torch_Tensor seeds in
  call (EnvSeed seeds) ;;;
  call EnvReset ;;;
  es <- get envstep ;;
  ti <- get train_iter ;;
  if (max_env_step <=? es)%Z || (max_train_iter <=? ti)%Z
  then ret Break
  else ret (Continue level_seeds).

(** Lines 102-122: [while True], with a budget of passes. *)
Fixpoint main_loop (cfg : Config) (max_train_iter max_env_step : Z)
    (fuel : nat) (level_seeds : tensor) : M unit :=
  match fuel with
  | O => out_of_fuel
  | S fuel' =>
      f <- cycle cfg max_train_iter max_env_step level_seeds ;;
      match f with
      | Break => ret tt
      | Continue level_seeds' =>
          main_loop cfg max_train_iter max_env_step fuel' level_seeds'
      end
  end.

(** Lines 63-125. *)
Definition serial_pipeline_plr (cfg : Config) (max_train_iter max_env_step : Z)
    (fuel : nat) : M policy :=
  ps <- prologue cfg ;;
  main_loop cfg max_train_iter max_env_step fuel (snd ps) ;;;
  call (CallHook "after_run") ;;;
  ret (fst ps).

End Pipeline.

Arguments Done {DT A} a.
Arguments Raised {DT A} e.
Arguments OutOfFuel {DT A}.
Arguments Break {DT}.
Arguments Continue {DT} level_seeds.

(* ================================================================= *)
(** ** Reading traces *)

Section Traces.
Context {DT : DataTypes} {C : Collaborators DT}.

(** The entries of a round of sampler calls that returned [zs]. *)
Definition samples (strategy : option string) (zs : list Z) : list event :=
  map (fun z => EvSample strategy (inr z)) zs.

Definition sequential : option string := Some "sequential"%string.

(** An [evaluator.eval] that answered [stop = True]. *)
Definition is_stop_eval (ev : event) : bool :=
  match ev with
  | EvEval _ _ (inr (true, _)) => true
  | _ => false
  end.

Definition is_collect (ev : event) : bool :=
  match ev with EvCollect _ _ _ _ => true | _ => false end.

Definition is_train (ev : event) : bool :=
  match ev with EvTrain _ _ _ => true | _ => false end.

Definition is_update (ev : event) : bool :=
  match ev with EvUpdateWithRollouts _ _ _ => true | _ => false end.

(** [level_sampler.sample()], the weighted draw. *)
Definition is_weighted_sample (ev : event) : bool :=
  match ev with EvSample None _ => true | _ => false end.

(** The level a successful [level_sampler.sample('sequential')] returned. *)
Definition sequential_level (ev : event) : option Z :=
  match ev with
  | EvSample (Some s) (inr z) =>
      if String.eqb s "sequential" then Some z else None
  | _ => None
  end.

(** The levels drawn sequentially in a trace, in order. *)
Fixpoint sequential_levels (t : list event) : list Z :=
  match t with
  | [] => []
  | ev :: t' =>
      match sequential_level ev with
      | Some z => z :: sequential_levels t'
      | None => sequential_levels t'
      end
  end.

Definition is_raised {A : Type} (o : outcome A) : bool :=
  match o with Raised _ => true | _ => false end.

(** *** The traces the pipeline can leave

    One constructor per way out of each part of the pipeline; [Done] and
    [Raised] say how that part ended. *)

(** The calls of lines 63-93 when none raises. *)
Definition setup_events (cfg : Config) (pol : policy) : list event :=
  [ EvCollectorEnvSeedCfg (seed cfg) (inr tt);
    EvEvaluatorEnvSeedCfg (seed cfg) (inr tt);
    EvLevelSamplerInit (generate_seeds default_num_seeds default_base_seed)
      (obs_shape cfg) (action_shape cfg) (collector_env_num cfg)
      (level_replay cfg) (inr tt);
    EvSetPkgSeed (seed cfg) (cuda cfg) (inr tt);
    EvCreatePolicy (inr pol);
    EvCreateWorkers (inr tt);
    EvCallHook "before_run" (inr tt) ].

(** An assignment round that went through: the draws, then the
    environments seeded with them and reset. *)
Definition assignment (strategy : option string) (zs : list Z) : list event :=
  samples strategy zs ++ [EvEnvSeed zs (inr tt); EvEnvReset (inr tt)].

(** An assignment round cut short by an exception. *)
Inductive assignment_raises (n : nat) (strategy : option string) (e : exn)
  : list event -> Prop :=
| ar_sample zs :
    length zs < n ->
    assignment_raises n strategy e (samples strategy zs ++ [EvSample strategy (inl e)])
| ar_seed zs :
    length zs = n ->
    assignment_raises n strategy e (samples strategy zs ++ [EvEnvSeed zs (inl e)])
| ar_reset zs :
    length zs = n ->
    assignment_raises n strategy e
      (samples strategy zs ++ [EvEnvSeed zs (inr tt); EvEnvReset (inl e)]).

(** The setup calls cut short by an exception. *)
Inductive setup_raises (cfg : Config) (e : exn) : list event -> Prop :=
| sr_collector_seed :
    setup_raises cfg e [EvCollectorEnvSeedCfg (seed cfg) (inl e)]
| sr_evaluator_seed :
    setup_raises cfg e
      [EvCollectorEnvSeedCfg (seed cfg) (inr tt);
       EvEvaluatorEnvSeedCfg (seed cfg) (inl e)]
| sr_sampler_init :
    setup_raises cfg e
      [EvCollectorEnvSeedCfg (seed cfg) (inr tt);
       EvEvaluatorEnvSeedCfg (seed cfg) (inr tt);
       EvLevelSamplerInit (generate_seeds default_num_seeds default_base_seed)
         (obs_shape cfg) (action_shape cfg) (collector_env_num cfg)
         (level_replay cfg) (inl e)]
| sr_pkg_seed :
    setup_raises cfg e
      [EvCollectorEnvSeedCfg (seed cfg) (inr tt);
       EvEvaluatorEnvSeedCfg (seed cfg) (inr tt);
       EvLevelSamplerInit (generate_seeds default_num_seeds default_base_seed)
         (obs_shape cfg) (action_shape cfg) (collector_env_num cfg)
         (level_replay cfg) (inr tt);
       EvSetPkgSeed (seed cfg) (cuda cfg) (inl e)]
| sr_policy :
    setup_raises cfg e
      [EvCollectorEnvSeedCfg (seed cfg) (inr tt);
       EvEvaluatorEnvSeedCfg (seed cfg) (inr tt);
       EvLevelSamplerInit (generate_seeds default_num_seeds default_base_seed)
         (obs_shape cfg) (action_shape cfg) (collector_env_num cfg)
         (level_replay cfg) (inr tt);
       EvSetPkgSeed (seed cfg) (cuda cfg) (inr tt);
       EvCreatePolicy (inl e)]
| sr_workers pol :
    setup_raises cfg e
      (firstn 5 (setup_events cfg pol) ++ [EvCreateWorkers (inl e)])
| sr_before_run pol :
    setup_raises cfg e
      (firstn 6 (setup_events cfg pol) ++ [EvCallHook "before_run" (inl e)]).

Inductive prologue_shape (cfg : Config)
  : list event -> outcome (policy * tensor) -> Prop :=
| ps_setup_raises e t :
    setup_raises cfg e t ->
    prologue_shape cfg t (Raised e)
| ps_assignment_raises pol e t :
    assignment_raises (collector_env_num cfg) sequential e t ->
    prologue_shape cfg (setup_events cfg pol ++ t) (Raised e)
| ps_done pol zs :
    length zs = collector_env_num cfg ->
    prologue_shape cfg (setup_events cfg pol ++ assignment sequential zs)
      (Done (pol, torch_Tensor zs)).

(** The start of a pass that goes on to collect: [commander.step], then
    either no evaluation or one that does not ask to stop. *)
Inductive cycle_head (collect_kwargs : kwargs) : list event -> Prop :=
| ch_no_eval ti :
    cycle_head collect_kwargs
      [EvCommanderStep (inr collect_kwargs); EvShouldEval ti (inr false)]
| ch_eval ti ti' es rw :
    cycle_head collect_kwargs
      [EvCommanderStep (inr collect_kwargs); EvShouldEval ti (inr true);
       EvEval ti' es (inr (false, rw))].

(** Collect and Learn when nothing raises. *)
Definition learn_events (cfg : Config) (level_seeds : tensor)
    (collect_kwargs : kwargs) (ti es : Z) (new_data : rollout)
    (stacked_data : stacked) : list event :=
  [ EvCollect ti level_seeds collect_kwargs (inr new_data);
    EvTrain new_data es (inr tt);
    EvPreprocessLearn new_data (ignore_done cfg) (inr stacked_data);
    EvUpdateWithRollouts stacked_data (collector_env_num cfg) (inr tt) ].

(** Collect and Learn cut short by an exception. *)
Inductive learn_raises (cfg : Config) (level_seeds : tensor)
    (collect_kwargs : kwargs) (e : exn) : list event -> Prop :=
| lr_collect ti :
    learn_raises cfg level_seeds collect_kwargs e
      [EvCollect ti level_seeds collect_kwargs (inl e)]
| lr_train ti d es :
    learn_raises cfg level_seeds collect_kwargs e
      [EvCollect ti level_seeds collect_kwargs (inr d); EvTrain d es (inl e)]
| lr_preprocess ti d es :
    learn_raises cfg level_seeds collect_kwargs e
      [EvCollect ti level_seeds collect_kwargs (inr d); EvTrain d es (inr tt);
       EvPreprocessLearn d (ignore_done cfg) (inl e)]
| lr_update ti d es sd :
    learn_raises cfg level_seeds collect_kwargs e
      [EvCollect ti level_seeds collect_kwargs (inr d); EvTrain d es (inr tt);
       EvPreprocessLearn d (ignore_done cfg) (inr sd);
       EvUpdateWithRollouts sd (collector_env_num cfg) (inl e)].

Inductive cycle_shape (cfg : Config) (level_seeds : tensor)
  : list event -> outcome flow -> Prop :=
| cs_step_raises e :
    cycle_shape cfg level_seeds [EvCommanderStep (inl e)] (Raised e)
| cs_should_eval_raises k ti e :
    cycle_shape cfg level_seeds
      [EvCommanderStep (inr k); EvShouldEval ti (inl e)] (Raised e)
| cs_eval_raises k ti ti' es e :
    cycle_shape cfg level_seeds
      [EvCommanderStep (inr k); EvShouldEval ti (inr true);
       EvEval ti' es (inl e)] (Raised e)
| cs_eval_stops k ti ti' es rw :
    cycle_shape cfg level_seeds
      [EvCommanderStep (inr k); EvShouldEval ti (inr true);
       EvEval ti' es (inr (true, rw))] (Done Break)
| cs_learn_raises k hd e t :
    cycle_head k hd ->
    learn_raises cfg level_seeds k e t ->
    cycle_shape cfg level_seeds (hd ++ t) (Raised e)
| cs_reseed_raises k hd ti es d sd e t :
    cycle_head k hd ->
    assignment_raises (collector_env_num cfg) None e t ->
    cycle_shape cfg level_seeds
      (hd ++ learn_events cfg level_seeds k ti es d sd ++ t) (Raised e)
| cs_limit k hd ti es d sd zs :
    cycle_head k hd ->
    length zs = collector_env_num cfg ->
    cycle_shape cfg level_seeds
      (hd ++ learn_events cfg level_seeds k ti es d sd ++ assignment None zs)
      (Done Break)
| cs_continue k hd ti es d sd zs :
    cycle_head k hd ->
    length zs = collector_env_num cfg ->
    cycle_shape cfg level_seeds
      (hd ++ learn_events cfg level_seeds k ti es d sd ++ assignment None zs)
      (Done (Continue (torch_Tensor zs))).

(** The passes of the loop, one after the other. *)
Inductive loop_shape (cfg : Config) : tensor -> list event -> outcome unit -> Prop :=
| ls_out_of_fuel ls :
    loop_shape cfg ls [] OutOfFuel
| ls_break ls t :
    cycle_shape cfg ls t (Done Break) ->
    loop_shape cfg ls t (Done tt)
| ls_raises ls t e :
    cycle_shape cfg ls t (Raised e) ->
    loop_shape cfg ls t (Raised e)
| ls_next ls ls' t t' o :
    cycle_shape cfg ls t (Done (Continue ls')) ->
    loop_shape cfg ls' t' o ->
    loop_shape cfg ls (t ++ t') o.

(** The whole run. *)
Inductive run_shape (cfg : Config) : list event -> outcome policy -> Prop :=
| rs_prologue_raises t e :
    prologue_shape cfg t (Raised e) ->
    run_shape cfg t (Raised e)
| rs_loop_raises pol ls t t' e :
    prologue_shape cfg t (Done (pol, ls)) ->
    loop_shape cfg ls t' (Raised e) ->
    run_shape cfg (t ++ t') (Raised e)
| rs_out_of_fuel pol ls t t' :
    prologue_shape cfg t (Done (pol, ls)) ->
    loop_shape cfg ls t' OutOfFuel ->
    run_shape cfg (t ++ t') OutOfFuel
| rs_after_run_raises pol ls t t' e :
    prologue_shape cfg t (Done (pol, ls)) ->
    loop_shape cfg ls t' (Done tt) ->
    run_shape cfg (t ++ t' ++ [EvCallHook "after_run" (inl e)]) (Raised e)
| rs_done pol ls t t' :
    prologue_shape cfg t (Done (pol, ls)) ->
    loop_shape cfg ls t' (Done tt) ->
    run_shape cfg (t ++ t' ++ [EvCallHook "after_run" (inr tt)]) (Done pol).

(** What the pipeline passes to its collaborators: the arguments that do
    not depend on earlier answers. *)
Definition emitted (cfg : Config) (ev : event) : Prop :=
  match ev with
  | EvCollectorEnvSeedCfg s _ | EvEvaluatorEnvSeedCfg s _ => s = seed cfg
  | EvLevelSamplerInit seeds obs act n lr _ =>
      seeds = generate_seeds default_num_seeds default_base_seed /\
      obs = obs_shape cfg /\ act = action_shape cfg /\
      n = collector_env_num cfg /\ lr = level_replay cfg
  | EvSetPkgSeed s c _ => s = seed cfg /\ c = cuda cfg
  | EvCallHook name _ => name = "before_run"%string \/ name = "after_run"%string
  | EvSample strategy _ => strategy = sequential \/ strategy = None
  | EvEnvSeed seeds _ => length seeds = collector_env_num cfg
  | EvPreprocessLearn _ b _ => b = ignore_done cfg
  | EvUpdateWithRollouts _ n _ => n = collector_env_num cfg
  | _ => True
  end.

(** Whether the call of an entry raised. *)
Definition raised_in (ev : event) : bool :=
  match failure ev with Some _ => true | None => false end.

(** A trace whose last call raised [e], all earlier calls having returned. *)
Definition fails_last (e : exn) (t : list event) : Prop :=
  exists pre x, t = pre ++ [x] /\ failure x = Some e /\
                Forall (fun ev => raised_in ev = false) pre.

(** How a part of the run ended, read off its trace. *)
Definition ends_as {A : Type} (t : list event) (o : outcome A) : Prop :=
  match o with
  | Raised e => fails_last e t
  | _ => Forall (fun ev => raised_in ev = false) t
  end.

(** The pass in which the evaluator asked to stop. *)
Definition stopping_pass (t : list event) : Prop :=
  exists k ti ti' es rw,
    t = [EvCommanderStep (inr k); EvShouldEval ti (inr true);
         EvEval ti' es (inr (true, rw))].

Definition no_stop (t : list event) : Prop :=
  Forall (fun ev => is_stop_eval ev = false) t.

(** *** What surrounds each call

    [ctx Q h t b] says that every entry [x] of [t] satisfies [Q] with, on
    its left, [h] and the entries of [t] before [x] and, on its right, the
    entries of [t] after [x] and [b]. *)
Fixpoint ctx (Q : list event -> event -> list event -> Prop)
    (h t b : list event) : Prop :=
  match t with
  | [] => True
  | x :: t' => Q h x (t' ++ b) /\ ctx Q (h ++ [x]) t' b
  end.

(** The history ends with a finished assignment round; [level_seeds] is
    the tensor of the levels it assigned. *)
Definition assigned (h : list event) (level_seeds : tensor) : Prop :=
  exists h' seeds,
    h = h' ++ [EvEnvSeed seeds (inr tt); EvEnvReset (inr tt)] /\
    level_seeds = torch_Tensor seeds.

(** The history ends with a finished Collect and Learn. *)
Definition learned (cfg : Config) (h : list event) : Prop :=
  exists h' ls k ti es d sd, h = h' ++ learn_events cfg ls k ti es d sd.

(** Where the calls of the loop stand in a trace: [pre] is what happened
    before the call [x], [post] what happened after it. *)
Definition context_ok (cfg : Config) (pre : list event) (x : event)
    (post : list event) : Prop :=
  match x with
  | EvEval _ _ _ =>
      (* an evaluation opens its pass: only [commander.step] and the
         [should_eval] that fired come before it *)
      exists pre' k ti,
        pre = pre' ++ [EvCommanderStep (inr k); EvShouldEval ti (inr true)]
  | EvCollect _ level_seeds k _ =>
      (* a collect follows the head of its pass, which follows the last
         assignment round; it gets the tensor of that round *)
      exists pre' seeds hd,
        pre = pre' ++ [EvEnvSeed seeds (inr tt); EvEnvReset (inr tt)] ++ hd /\
        cycle_head k hd /\ level_seeds = torch_Tensor seeds
  | EvSample None _ =>
      (* a weighted draw follows the Collect and Learn of its pass and the
         earlier draws of its round *)
      exists pre' ls k ti es d sd zs,
        pre = pre' ++ learn_events cfg ls k ti es d sd ++ samples None zs
  | EvEnvSeed seeds r =>
      (* the environments are seeded with the levels just drawn, one per
         environment, and then reset *)
      length seeds = collector_env_num cfg /\
      (exists strategy pre', pre = pre' ++ samples strategy seeds) /\
      (r = inr tt -> exists r' post', post = EvEnvReset r' :: post')
  | _ => True
  end.

Definition no_weighted (t : list event) : Prop :=
  Forall (fun ev => is_weighted_sample ev = false) t.

(** The trace up to the first weighted draw, when that draw is made in the
    first pass of the loop, after its Collect and Learn. *)
Definition first_pass_learned (cfg : Config) (pre : list event)
    (zs : list Z) : Prop :=
  exists pol k hd ti es d sd,
    cycle_head k hd /\
    pre = setup_events cfg pol ++ assignment sequential zs ++ hd
          ++ learn_events cfg (torch_Tensor zs) k ti es d sd.

(** The shape of a pass up to its first weighted draw. *)
Definition draws_after_learn (cfg : Config) (ls : tensor) (t : list event)
  : Prop :=
  exists k hd ti es d sd x rest,
    cycle_head k hd /\ is_weighted_sample x = true /\
    t = (hd ++ learn_events cfg ls k ti es d sd) ++ x :: rest.

(** C1 as the specification words it: when the first weighted draw is
    made, every level of the pool has been drawn sequentially. *)
Definition cold_start_coverage (t : list event) : Prop :=
  forall pre x post,
    t = pre ++ x :: post ->
    is_weighted_sample x = true ->
    existsb is_weighted_sample pre = false ->
    forall lvl,
      In lvl (generate_seeds default_num_seeds default_base_seed) ->
      In lvl (sequential_levels pre).

(** Modelled from the spec: [BaseLearner] (the [ding.worker] classes are
    not among the sources).  The spec gives the learner a "train_iter:
    monotonically increasing integer counter" and lets [train] run "one or
    more optimization steps": the counter starts at 0 or more, no call
    makes it go down, and every [train] that returns makes it go up. *)
Definition counts_train_iterations (w : world) : Prop :=
  (0 <= train_iter w)%Z /\
  (forall (A : Type) (c : plrE A) (w0 : world),
      (train_iter w0 <= train_iter (snd (handle c w0)))%Z) /\
  (forall d es (w0 w1 : world),
      handle (Train d es) w0 = (inr tt, w1) ->
      (train_iter w0 < train_iter w1)%Z).

End Traces.

(* ================================================================= *)
(** ** A small world to run the pipeline in

    Concrete collaborators, used to run the pipeline on examples: a learner
    that counts its [train] calls, a collector that counts environment
    steps and can crash, an evaluator that fires on even iterations and
    asks to stop from a given iteration on, and a level sampler. *)

Module Toy.

Definition types : DataTypes := {|
  policy := unit;
  kwargs := unit;
  rollout := list (Z * Z);      (* (level, error) per environment *)
  stacked := list (Z * Z);
  reward := Z;
  tensor := list Z;
  shape := unit;
  replay_cfg := unit;
  exn := string
|}.

(** Modelled from the spec: [LevelSampler]
    ([ding/data/level_replay/level_sampler.py] is not among the sources).
    A level carries its id, its score ("initialized to a sentinel unseen
    value", here [None]) and its visit count.  Staleness and the weights of
    the weighted draw are left out: nothing below reads them. *)
Record level : Type := {
  level_id : Z;
  score : option Z;
  visit_count : nat
}.

Definition fresh_level (id : Z) : level :=
  {| level_id := id; score := None; visit_count := 0 |}.

Definition visit (l : level) : level :=
  {| level_id := level_id l; score := score l;
     visit_count := S (visit_count l) |}.

(** Modelled from the spec: [sample('sequential')] "returns the next
    never-yet-visited level in pool order" and "increments visit_count";
    [None] stands for [ExhaustedPoolError], raised "if invoked after all
    levels have been visited at least once". *)
Fixpoint sample_sequential (pool : list level) : option (Z * list level) :=
  match pool with
  | [] => None
  | l :: pool' =>
      if Nat.eqb (visit_count l) 0
      then Some (level_id l, visit l :: pool')
      else match sample_sequential pool' with
           | Some (id, pool'') => Some (id, l :: pool'')
           | None => None
           end
  end.

(** Modelled from the spec: the weighted [sample()] "returns one level
    drawn from the full pool" and "increments visit_count".  The random
    draw is replaced by the position [i] in the pool. *)
Fixpoint sample_at (i : nat) (pool : list level) : option (Z * list level) :=
  match pool, i with
  | [], _ => None
  | l :: pool', O => Some (level_id l, visit l :: pool')
  | l :: pool', S i' =>
      match sample_at i' pool' with
      | Some (id, pool'') => Some (id, l :: pool'')
      | None => None
      end
  end.

(** Modelled from the spec: [update_with_rollouts] assigns the error of a
    trajectory "as the new score for that trajectory's Level.id,
    overwriting the previous score", and is a "no-op for any trajectory
    whose level-id is not a worker-currently-active assignment". *)
Definition set_score (id err : Z) (l : level) : level :=
  if Z.eqb (level_id l) id
  then {| level_id := level_id l; score := Some err;
          visit_count := visit_count l |}
  else l.

Fixpoint update_with_rollouts (active : list Z) (batch : list (Z * Z))
    (pool : list level) : list level :=
  match batch with
  | [] => pool
  | (id, err) :: batch' =>
      let pool' :=
        if existsb (Z.eqb id) active then map (set_score id err) pool else pool in
      update_with_rollouts active batch' pool'
  end.

(** The shared world. *)
Record state : Type := {
  pool : list level;            (* the sampler's levels *)
  assigned_levels : list Z;     (* the sampler's draws, latest first *)
  draws : nat;                  (* weighted draws made so far *)
  at_first_draw : option (list level);
                                (* the pool as the first weighted draw found it *)
  env_seeds : list Z;           (* what the collector environments run *)
  iter : Z;                     (* learner.train_iter *)
  steps : Z;                    (* collector.envstep *)
  stop_at : Z;                  (* the evaluator asks to stop from this iteration on *)
  crash_at : Z                  (* the environments crash from this step on *)
}.

Definition with_sampler (s : state) (p : list level) (a : list Z) (n : nat)
    (f : option (list level)) : state :=
  {| pool := p; assigned_levels := a; draws := n; at_first_draw := f;
     env_seeds := env_seeds s; iter := iter s; steps := steps s;
     stop_at := stop_at s; crash_at := crash_at s |}.

Definition with_env_seeds (s : state) (l : list Z) : state :=
  {| pool := pool s; assigned_levels := assigned_levels s; draws := draws s;
     at_first_draw := at_first_draw s;
     env_seeds := l; iter := iter s; steps := steps s;
     stop_at := stop_at s; crash_at := crash_at s |}.

Definition with_counters (s : state) (i st : Z) : state :=
  {| pool := pool s; assigned_levels := assigned_levels s; draws := draws s;
     at_first_draw := at_first_draw s;
     env_seeds := env_seeds s; iter := i; steps := st;
     stop_at := stop_at s; crash_at := crash_at s |}.

Definition sample (strategy : option string) (s : state)
  : @result types Z * state :=
  match strategy with
  | Some name =>
      if String.eqb name "sequential" then
        match sample_sequential (pool s) with
        | Some (id, p) =>
            (inr id, with_sampler s p (id :: assigned_levels s) (draws s)
                       (at_first_draw s))
        | None => (inl "ExhaustedPoolError"%string, s)
        end
      else (inl "ValueError"%string, s)
  | None =>
      let seen := match at_first_draw s with
                  | Some p => Some p
                  | None => Some (pool s)
                  end in
      match sample_at (Nat.modulo (draws s) (length (pool s))) (pool s) with
      | Some (id, p) =>
          (inr id, with_sampler s p (id :: assigned_levels s) (S (draws s)) seen)
      | None =>
          (inl "ValueError"%string,
           with_sampler s (pool s) (assigned_levels s) (draws s) seen)
      end
  end.

Definition respond (A : Type) (c : @plrE types A) (s : state)
  : @result types A * state :=
  match c in plrE T return @result types T * state with
  | CollectorEnvSeedCfg _ => (inr tt, s)
  | EvaluatorEnvSeedCfg _ => (inr tt, s)
  | LevelSamplerInit seeds _ _ _ _ =>
      (inr tt, with_sampler s (map fresh_level seeds) [] 0 None)
  | SetPkgSeed _ _ => (inr tt, s)
  | CreatePolicy => (inr tt, s)
  | CreateWorkers => (inr tt, s)
  | CallHook _ => (inr tt, s)
  | Sample strategy => sample strategy s
  | EnvSeed seeds => (inr tt, with_env_seeds s seeds)
  | EnvReset => (inr tt, s)
  | CommanderStep => (inr tt, s)
  | ShouldEval ti => (inr (Z.even ti), s)
  | Eval ti es => (inr (Z.leb (stop_at s) ti, es), s)
  | Collect ti level_seeds _ =>
      if Z.leb (crash_at s) (steps s)
      then (inl "EnvCrash"%string, s)
      else (inr (map (fun id => (id, ti)) level_seeds),
            with_counters s (iter s) (steps s + Z.of_nat (length level_seeds)))
  | Train _ _ => (inr tt, with_counters s (iter s + 1) (steps s))
  | PreprocessLearn d _ => (inr d, s)
  | UpdateWithRollouts batch n =>
      (inr tt,
       with_sampler s
         (update_with_rollouts (firstn n (assigned_levels s)) batch (pool s))
         (assigned_levels s) (draws s) (at_first_draw s))
  end.

Definition collaborators : Collaborators types := {|
  world := state;
  handle := respond;
  train_iter := iter;
  envstep := steps;
  torch_Tensor := fun seeds => seeds
|}.

(** A configuration with two collector environments. *)
Definition cfg2 : @Config types :=
  @Build_Config types 2 0 false tt tt tt false.

(** Before the pipeline starts: nothing trained, nothing collected. *)
Definition start (stop crash : Z) : state := {|
  pool := []; assigned_levels := []; draws := 0; at_first_draw := None;
  env_seeds := []; iter := 0; steps := 0;
  stop_at := stop; crash_at := crash
|}.

End Toy.

(* ================================================================= *)
(** ** What flows through a run *)

Section Flows.
Context {DT : DataTypes} {C : Collaborators DT}.

(** The values [f] finds in the entries of a trace, in order. *)
Fixpoint pick {A : Type} (f : event -> option A) (t : list event) : list A :=
  match t with
  | [] => []
  | ev :: t' =>
      match f ev with
      | Some a => a :: pick f t'
      | None => pick f t'
      end
  end.

(** The batch a [collector.collect] returned. *)
Definition collected_batch (ev : event) : option rollout :=
  match ev with EvCollect _ _ _ (inr d) => Some d | _ => None end.

(** The batch given to [learner.train]. *)
Definition trained_batch (ev : event) : option rollout :=
  match ev with EvTrain d _ _ => Some d | _ => None end.

(** The batch of a [learner.train] that returned. *)
Definition learnt_batch (ev : event) : option rollout :=
  match ev with EvTrain d _ (inr _) => Some d | _ => None end.

(** The batch given to [default_preprocess_learn]. *)
Definition preprocessed_batch (ev : event) : option rollout :=
  match ev with EvPreprocessLearn d _ _ => Some d | _ => None end.

(** What [default_preprocess_learn] returned. *)
Definition stacked_batch (ev : event) : option stacked :=
  match ev with EvPreprocessLearn _ _ (inr sd) => Some sd | _ => None end.

(** What [level_sampler.update_with_rollouts] was given. *)
Definition scored_batch (ev : event) : option stacked :=
  match ev with EvUpdateWithRollouts sd _ _ => Some sd | _ => None end.

(** The level a sampler call returned, whatever the strategy. *)
Definition drawn_level (ev : event) : option Z :=
  match ev with EvSample _ (inr z) => Some z | _ => None end.

(** The levels given to [collector_env.seed]. *)
Definition seeded_levels (ev : event) : option (list Z) :=
  match ev with EvEnvSeed seeds _ => Some seeds | _ => None end.

(** The name of a learner hook that was called. *)
Definition hook_name (ev : event) : option string :=
  match ev with EvCallHook name _ => Some name | _ => None end.

Definition is_commander_step (ev : event) : bool :=
  match ev with EvCommanderStep _ => true | _ => false end.

Definition is_sequential_sample (ev : event) : bool :=
  match ev with EvSample (Some _) _ => true | _ => false end.

(** The policy a [create_policy] returned. *)
Definition created_policy (ev : event) : option policy :=
  match ev with EvCreatePolicy (inr pol) => Some pol | _ => None end.

(** Every level drawn in [t] was handed to the environments, in the order
    of the draws, except the [rest] of a round cut short. *)
Definition levels_assigned {A : Type} (cfg : Config) (t : list event)
    (o : outcome A) : Prop :=
  exists rest,
    pick drawn_level t = concat (pick seeded_levels t) ++ rest /\
    (rest = [] \/ (length rest < collector_env_num cfg /\ is_raised o = true)).

End Flows.

(* ================================================================= *)
(** ** The time axis of a training sequence

    [GTrXLR2D2Policy._data_preprocess_learn] ([ding/policy/r2d2_gtrxl.py])
    ends by cutting the collated batch along its first axis, time, and
    [_forward_learn] then walks the steps between the burn-in and the
    last [nstep].  A tensor is modelled by the list of its entries along
    the first axis; slices and indices of that axis follow Python's rules
    for sequences. *)

Module R2D2.

Section Sequences.
Variable A : Type.

(** A bound of a slice over [len] entries, as Python adjusts it: a
    negative bound counts from the end, and both ends are clamped. *)
Definition adjust_index (len i : Z) : Z :=
  if (i <? 0)%Z then Z.max 0 (i + len) else Z.min i len.

(** [l[start:stop]]; [None] is a bound left out. *)
Definition slice (l : list A) (start stop : option Z) : list A :=
  let len := Z.of_nat (length l) in
  let lo := match start with Some i => adjust_index len i | None => 0%Z end in
  let hi := match stop with Some j => adjust_index len j | None => len end in
  firstn (Z.to_nat (hi - lo)) (skipn (Z.to_nat lo) l).

(** [l[t]]; [None] stands for [IndexError]. *)
Definition index (l : list A) (t : Z) : option A :=
  let len := Z.of_nat (length l) in
  if (t <? 0)%Z
  then if (t + len <? 0)%Z then None else nth_error l (Z.to_nat (t + len))
  else nth_error l (Z.to_nat t).

End Sequences.

(** Python's [range(start, stop)]. *)
Definition range2 (start stop : Z) : list Z :=
  map (fun i => (start + i)%Z) (range (stop - start)).

(** The four entries [_data_preprocess_learn] writes last. *)
Record data (A R O : Type) : Type := {
  action : list A;
  reward : list R;
  main_obs : list O;
  target_obs : list O
}.

(** The end of [_data_preprocess_learn] (lines 242-247), on the entries
    ['action'], ['reward'] and ['obs'] of the collated batch:
[[
    data['action'] = data['action'][:-self._nstep]
    data['reward'] = data['reward'][:-self._nstep]
    data['main_obs'] = data['obs'][:-self._nstep]
    data['target_obs'] = data['obs'][self._nstep:]
]] *)
Definition _data_preprocess_learn (A R O : Type) (_nstep : Z)
    (action : list A) (reward : list R) (obs : list O) : data A R O :=
  {| action := slice action None (Some (- _nstep)%Z);
     reward := slice reward None (Some (- _nstep)%Z);
     main_obs := slice obs None (Some (- _nstep)%Z);
     target_obs := slice obs (Some _nstep) None |}.

(** The steps of the loop of [_forward_learn] (line 293):
    [for t in range(self._burnin_step, self._unroll_len - self._nstep)]. *)
Definition td_steps (_burnin_step _unroll_len _nstep : Z) : list Z :=
  range2 _burnin_step (_unroll_len - _nstep).

End R2D2.

(* ================================================================= *)
(** ** The rocket environment

    [RocketEnv] ([dizoo/rocket/envs/rocket_env.py]) puts a [Rocket]
    simulator behind the environment interface of DI-engine.  The object
    is a record of its attributes; an attribute that a method creates on
    its first assignment is an [option], absent until then, and reading
    it while absent raises [AttributeError].  The simulator, numpy's
    random generator, the action space, the file system and [imageio]
    are outside: every call to one of them is recorded with its result
    and may raise.  A method runs in a monad that threads the object and
    the outside world and stops at the first exception; the object keeps
    what was assigned before it. *)

Module RocketEnv.

Declare Scope rocket_scope.
Delimit Scope rocket_scope with rocket.

Class Types : Type := {
  Rocket : Type;
  Action : Type;
  Observation : Type;
  Reward : Type;
  Frame : Type;
  Info : Type;
  (** The exceptions of the libraries. *)
  Foreign : Type;
  (** The [0] that [reset] stores, and [+=] on rewards. *)
  zero : Reward;
  add : Reward -> Reward -> Reward;
  (** Lines 62-63: an array of shape [(1,)] becomes a 0-dim array. *)
  squeeze : Action -> Action;
  (** [to_ndarray(obs)]. *)
  to_ndarray : Observation -> Observation;
  (** [to_ndarray([rew]).astype(np.float32)]. *)
  to_float32 : Reward -> Reward;
  (** [to_ndarray([random_action], dtype=np.int64)]. *)
  of_sample : Z -> Action
}.

(** The configuration, as far as the class reads it: the attributes
    [task] and [max_steps].  [__init__] takes any [cfg], by default [{}];
    an attribute is [None] when the [cfg] does not have it, and reading
    it raises [AttributeError]. *)
Record Cfg : Type := {
  task : option string;
  max_steps : option Z
}.

Section Calls.
Context {T : Types}.

(** The calls that leave the object. *)
Inductive call : Type -> Type :=
| ActionSpaceSeed (seed : Z) : call unit
| ActionSpaceSample : call Z
| NewRocket (task : string) (max_steps : Z) : call Rocket
| RocketSeed (env : Rocket) (seed : Z) : call unit
| RocketReset (env : Rocket) : call Observation
| RocketStep (env : Rocket) (a : Action)
    : call (Observation * Reward * bool * Info)
| RocketRender (env : Rocket) : call (list Frame)
| RocketClose (env : Rocket) : call unit
| NpRandomSeed (seed : Z) : call unit
| NpRandomRandint (low high : Z) : call Z
| PathExists (path : string) : call bool
| Makedirs (path : string) : call unit
| Mimsave (path : string) (frames : list Frame) (fps : Z) : call unit.

(** An entry of a trace: a call and what it returned or raised. *)
Inductive entry : Type :=
| Called (A : Type) (c : call A) (r : Foreign + A).

Inductive error : Type :=
| AttributeError (name : string)
| ForeignError (e : Foreign).

Inductive answer (A : Type) : Type :=
| Returned (a : A)
| Threw (e : error).

(** The attributes of a [RocketEnv]. *)
Record self : Type := {
  _cfg : Cfg;
  _init_flag : bool;
  _save_replay : bool;
  _env : option Rocket;
  _seed : option Z;
  _dynamic_seed : option bool;
  _final_eval_reward : option Reward;
  _frames : option (list Frame);
  _replay_path : option string;
  _save_replay_count : option Z
}.

(** [BaseEnvTimestep(obs, rew, done, info)]; [final_eval_reward] is the
    entry of that name in [info], absent unless [step] wrote it. *)
Record timestep : Type := {
  obs : Observation;
  reward : Reward;
  done : bool;
  info : Info;
  final_eval_reward : option Reward
}.

End Calls.

Arguments Called {T A} c r.
Arguments Returned {T A} a.
Arguments Threw {T A} e.

(** The outside world answers every call. *)
Class Outside (T : Types) : Type := {
  world : Type;
  respond : forall A : Type, call A -> world -> (Foreign + A) * world
}.

Section Methods.
Context {T : Types} {W : Outside T}.

Definition M (A : Type) : Type :=
  self -> world -> list entry * answer A * self * world.

Definition ret {A : Type} (a : A) : M A :=
  fun s w => ([], Returned a, s, w).

Definition bind {A B : Type} (m : M A) (k : A -> M B) : M B :=
  fun s w =>
    match m s w with
    | (t, Returned a, s1, w1) =>
        match k a s1 w1 with
        | (t', r, s2, w2) => (t ++ t', r, s2, w2)
        end
    | (t, Threw e, s1, w1) => (t, Threw e, s1, w1)
    end.

Definition outside {A : Type} (c : call A) : M A :=
  fun s w =>
    match respond c w with
    | (inr a, w1) => ([Called c (inr a)], Returned a, s, w1)
    | (inl e, w1) => ([Called c (inl e)], Threw (ForeignError e), s, w1)
    end.

(** [self.<name>] or [self._cfg.<name>], read. *)
Definition attr {A : Type} (name : string) (field : self -> option A) : M A :=
  fun s w =>
    match field s with
    | Some a => ([], Returned a, s, w)
    | None => ([], Threw (AttributeError name), s, w)
    end.

Definition get : M self := fun s w => ([], Returned s, s, w).

(** [self.<name> = ...]. *)
Definition assign (f : self -> self) : M unit :=
  fun s w => ([], Returned tt, f s, w).

Definition trace_of {A : Type} (r : list entry * answer A * self * world)
  : list entry := fst (fst (fst r)).
Definition answer_of {A : Type} (r : list entry * answer A * self * world)
  : answer A := snd (fst (fst r)).
Definition self_of {A : Type} (r : list entry * answer A * self * world)
  : self := snd (fst r).
Definition world_of {A : Type} (r : list entry * answer A * self * world)
  : world := snd r.

Notation "x <- m ;; k" := (bind m (fun x => k))
  (at level 61, m at next level, right associativity) : rocket_scope.
Notation "m ;; k" := (bind m (fun _ => k))
  (at level 61, right associativity) : rocket_scope.
Local Open Scope rocket_scope.

Definition set_init_flag (v : bool) (s : self) : self :=
  {| _cfg := _cfg s; _init_flag := v; _save_replay := _save_replay s;
     _env := _env s; _seed := _seed s; _dynamic_seed := _dynamic_seed s;
     _final_eval_reward := _final_eval_reward s; _frames := _frames s;
     _replay_path := _replay_path s;
     _save_replay_count := _save_replay_count s |}.

Definition set_save_replay (v : bool) (s : self) : self :=
  {| _cfg := _cfg s; _init_flag := _init_flag s; _save_replay := v;
     _env := _env s; _seed := _seed s; _dynamic_seed := _dynamic_seed s;
     _final_eval_reward := _final_eval_reward s; _frames := _frames s;
     _replay_path := _replay_path s;
     _save_replay_count := _save_replay_count s |}.

Definition set_env (v : Rocket) (s : self) : self :=
  {| _cfg := _cfg s; _init_flag := _init_flag s;
     _save_replay := _save_replay s;
     _env := Some v; _seed := _seed s; _dynamic_seed := _dynamic_seed s;
     _final_eval_reward := _final_eval_reward s; _frames := _frames s;
     _replay_path := _replay_path s;
     _save_replay_count := _save_replay_count s |}.

Definition set_seed (v : Z) (s : self) : self :=
  {| _cfg := _cfg s; _init_flag := _init_flag s;
     _save_replay := _save_replay s;
     _env := _env s; _seed := Some v; _dynamic_seed := _dynamic_seed s;
     _final_eval_reward := _final_eval_reward s; _frames := _frames s;
     _replay_path := _replay_path s;
     _save_replay_count := _save_replay_count s |}.

Definition set_dynamic_seed (v : bool) (s : self) : self :=
  {| _cfg := _cfg s; _init_flag := _init_flag s;
     _save_replay := _save_replay s;
     _env := _env s; _seed := _seed s; _dynamic_seed := Some v;
     _final_eval_reward := _final_eval_reward s; _frames := _frames s;
     _replay_path := _replay_path s;
     _save_replay_count := _save_replay_count s |}.

Definition set_final_eval_reward (v : Reward) (s : self) : self :=
  {| _cfg := _cfg s; _init_flag := _init_flag s;
     _save_replay := _save_replay s;
     _env := _env s; _seed := _seed s; _dynamic_seed := _dynamic_seed s;
     _final_eval_reward := Some v; _frames := _frames s;
     _replay_path := _replay_path s;
     _save_replay_count := _save_replay_count s |}.

Definition set_frames (v : list Frame) (s : self) : self :=
  {| _cfg := _cfg s; _init_flag := _init_flag s;
     _save_replay := _save_replay s;
     _env := _env s; _seed := _seed s; _dynamic_seed := _dynamic_seed s;
     _final_eval_reward := _final_eval_reward s; _frames := Some v;
     _replay_path := _replay_path s;
     _save_replay_count := _save_replay_count s |}.

Definition set_replay_path (v : string) (s : self) : self :=
  {| _cfg := _cfg s; _init_flag := _init_flag s;
     _save_replay := _save_replay s;
     _env := _env s; _seed := _seed s; _dynamic_seed := _dynamic_seed s;
     _final_eval_reward := _final_eval_reward s; _frames := _frames s;
     _replay_path := Some v;
     _save_replay_count := _save_replay_count s |}.

Definition set_save_replay_count (v : Z) (s : self) : self :=
  {| _cfg := _cfg s; _init_flag := _init_flag s;
     _save_replay := _save_replay s;
     _env := _env s; _seed := _seed s; _dynamic_seed := _dynamic_seed s;
     _final_eval_reward := _final_eval_reward s; _frames := _frames s;
     _replay_path := _replay_path s;
     _save_replay_count := Some v |}.

(** [__init__] (lines 19-31): the three attributes, then the default
    seed of the action space.  The spaces themselves are constants. *)
Definition __init__ (cfg : Cfg) (w : world)
  : list entry * answer unit * self * world :=
  outside (ActionSpaceSeed 0)
    {| _cfg := cfg; _init_flag := false; _save_replay := false;
       _env := None; _seed := None; _dynamic_seed := None;
       _final_eval_reward := None; _frames := None;
       _replay_path := None; _save_replay_count := None |} w.

(** [reset] (lines 33-49).  The arguments of [Rocket(...)] are read
    from the [cfg] in the order they are written. *)
Definition reset : M Observation :=
  s <- get;;
  (if negb (_init_flag s)
   then tk <- attr "task" (fun s => task (_cfg s));;
        ms <- attr "max_steps" (fun s => max_steps (_cfg s));;
        env <- outside (NewRocket tk ms);;
        assign (set_env env);;
        assign (set_init_flag true)
   else ret tt);;
  s <- get;;
  match _seed s, _dynamic_seed s with
  | Some sd, Some true =>
      k <- outside (NpRandomRandint 1 1000);;
      let np_seed := (100 * k)%Z in
      env <- attr "_env" _env;;
      outside (RocketSeed env (sd + np_seed));;
      outside (ActionSpaceSeed (sd + np_seed))
  | Some sd, _ =>
      env <- attr "_env" _env;;
      outside (RocketSeed env sd);;
      outside (ActionSpaceSeed sd)
  | None, _ => ret tt
  end;;
  assign (set_final_eval_reward zero);;
  env <- attr "_env" _env;;
  o <- outside (RocketReset env);;
  s <- get;;
  (if _save_replay s then assign (set_frames []) else ret tt);;
  ret (to_ndarray o).

(** [close] (lines 51-54). *)
Definition close : M unit :=
  s <- get;;
  (if _init_flag s
   then env <- attr "_env" _env;; outside (RocketClose env)
   else ret tt);;
  assign (set_init_flag false).

(** [seed] (lines 56-59). *)
Definition seed (seed : Z) (dynamic_seed : bool) : M unit :=
  assign (set_seed seed);;
  assign (set_dynamic_seed dynamic_seed);;
  sd <- attr "_seed" _seed;;
  outside (NpRandomSeed sd).

(** [os.path.join(a, b)] on a POSIX system. *)
Fixpoint ends_with_slash (a : string) : bool :=
  match a with
  | EmptyString => false
  | String _ EmptyString => String.eqb a "/"
  | String _ rest => ends_with_slash rest
  end.

Definition path_join (a b : string) : string :=
  if String.prefix "/" b then b
  else if String.eqb a "" || ends_with_slash a then a ++ b
  else a ++ "/" ++ b.

(** ['{}_episode.gif'.format(n)] for an integer [n]. *)
Definition episode_gif (n : Z) : string :=
  NilZero.string_of_int (Z.to_int n) ++ "_episode.gif".

(** [step] (lines 61-82).  [self._frames.extend(self._env.render())]
    looks [self._frames] up before it renders. *)
Definition step (a : Action) : M timestep :=
  let a := squeeze a in
  env <- attr "_env" _env;;
  r <- outside (RocketStep env a);;
  let '(o, rew, dn, inf) := r in
  env <- attr "_env" _env;;
  outside (RocketRender env);;
  total <- attr "_final_eval_reward" _final_eval_reward;;
  assign (set_final_eval_reward (add total rew));;
  s <- get;;
  (if _save_replay s
   then frames <- attr "_frames" _frames;;
        env <- attr "_env" _env;;
        more <- outside (RocketRender env);;
        assign (set_frames (frames ++ more))
   else ret tt);;
  final <- (if dn
            then total <- attr "_final_eval_reward" _final_eval_reward;;
                 s <- get;;
                 (if _save_replay s
                  then dir <- attr "_replay_path" _replay_path;;
                       n <- attr "_save_replay_count" _save_replay_count;;
                       frames <- attr "_frames" _frames;;
                       outside (Mimsave (path_join dir (episode_gif n))
                                  frames 20);;
                       n <- attr "_save_replay_count" _save_replay_count;;
                       assign (set_save_replay_count (n + 1))
                  else ret tt);;
                 ret (Some total)
            else ret None);;
  ret {| obs := to_ndarray o; reward := to_float32 rew; done := dn;
         info := inf; final_eval_reward := final |}.

(** [enable_save_replay] (lines 84-91). *)
Definition enable_save_replay (replay_path : option string) : M unit :=
  let replay_path :=
    match replay_path with None => "./video"%string | Some p => p end in
  assign (set_save_replay true);;
  found <- outside (PathExists replay_path);;
  (if negb found then outside (Makedirs replay_path) else ret tt);;
  assign (set_replay_path replay_path);;
  assign (set_save_replay_count 0).

(** [random_action] (lines 93-96). *)
Definition random_action : M Action :=
  a <- outside ActionSpaceSample;;
  ret (of_sample a).

(** The inner loop of [test_rocket_env.py]: one [step] per action. *)
Fixpoint steps (acts : list Action) : M (list timestep) :=
  match acts with
  | [] => ret []
  | a :: rest =>
      ts <- step a;;
      tss <- steps rest;;
      ret (ts :: tss)
  end.

(** The test's episode: [reset], then the steps. *)
Definition episode (acts : list Action) : M (Observation * list timestep) :=
  o <- reset;;
  tss <- steps acts;;
  ret (o, tss).

(** *** Users of the object *)

(** A call of one of the methods. *)
Inductive method : Type :=
| Reset
| Close
| Seed (seed : Z) (dynamic_seed : bool)
| Step (a : Action)
| EnableSaveReplay (replay_path : option string)
| RandomAction.

(** The object and the world after a call, whether it returned or
    raised. *)
Definition after (m : method) (s : self) (w : world) : self * world :=
  match m with
  | Reset => let r := reset s w in (self_of r, world_of r)
  | Close => let r := close s w in (self_of r, world_of r)
  | Seed z d => let r := seed z d s w in (self_of r, world_of r)
  | Step a => let r := step a s w in (self_of r, world_of r)
  | EnableSaveReplay p =>
      let r := enable_save_replay p s w in (self_of r, world_of r)
  | RandomAction => let r := random_action s w in (self_of r, world_of r)
  end.

(** The objects a program can hold: built by [__init__], then used
    through the methods only, in any order, in any world, going on after
    an exception or not. *)
Inductive reachable : self -> Prop :=
| reach_init : forall cfg w,
    answer_of (__init__ cfg w) = Returned tt ->
    reachable (self_of (__init__ cfg w))
| reach_call : forall m s w,
    reachable s -> reachable (fst (after m s w)).

(** What holds of the attributes of every such object. *)
Definition consistent (s : self) : Prop :=
  (_init_flag s = true -> _env s <> None) /\
  (_seed s = None <-> _dynamic_seed s = None) /\
  (_frames s <> None -> _save_replay s = true) /\
  (_replay_path s <> None -> _save_replay s = true) /\
  (_replay_path s = None <-> _save_replay_count s = None).

(** *** Reading traces *)

Fixpoint pick {B : Type} (f : entry -> option B) (t : list entry) : list B :=
  match t with
  | [] => []
  | e :: t' =>
      match f e with
      | Some b => b :: pick f t'
      | None => pick f t'
      end
  end.

(** The simulator a [Rocket(...)] returned. *)
Definition built_rocket (e : entry) : option Rocket :=
  match e with
  | Called c (inr v) =>
      match c in call A return A -> option Rocket with
      | NewRocket _ _ => fun env => Some env
      | _ => fun _ => None
      end v
  | _ => None
  end.

(** The simulator given to [reset], [close] and [seed], and the seed. *)
Definition reset_rocket (e : entry) : option Rocket :=
  match e with
  | Called c _ => match c with RocketReset env => Some env | _ => None end
  end.

Definition closed_rocket (e : entry) : option Rocket :=
  match e with
  | Called c _ => match c with RocketClose env => Some env | _ => None end
  end.

Definition rocket_seed (e : entry) : option Z :=
  match e with
  | Called c _ => match c with RocketSeed _ z => Some z | _ => None end
  end.

(** The seed given to the action space. *)
Definition space_seed (e : entry) : option Z :=
  match e with
  | Called c _ => match c with ActionSpaceSeed z => Some z | _ => None end
  end.

(** The bounds given to [np.random.randint] and what it returned. *)
Definition randint (e : entry) : option (Z * Z * Z) :=
  match e with
  | Called c (inr v) =>
      match c in call A return A -> option (Z * Z * Z) with
      | NpRandomRandint lo hi => fun k => Some (lo, hi, k)
      | _ => fun _ => None
      end v
  | _ => None
  end.

(** The reward a [Rocket.step] returned. *)
Definition step_reward (e : entry) : option Reward :=
  match e with
  | Called c (inr v) =>
      match c in call A return A -> option Reward with
      | RocketStep _ _ => fun r => Some (snd (fst (fst r)))
      | _ => fun _ => None
      end v
  | _ => None
  end.

(** The path given to [imageio.mimsave]. *)
Definition saved_gif (e : entry) : option string :=
  match e with
  | Called c _ => match c with Mimsave path _ _ => Some path | _ => None end
  end.

End Methods.

Arguments M {T W} A.

Notation "x <- m ;; k" := (bind m (fun x => k))
  (at level 61, m at next level, right associativity) : rocket_scope.
Notation "m ;; k" := (bind m (fun _ => k))
  (at level 61, right associativity) : rocket_scope.

End RocketEnv.

(* ================================================================= *)
(** ** A small world for the rocket environment

    The simulator is a height that every action changes; the reward of a
    step is its action, and an episode is done after [max_steps] steps.
    Nothing raises except a step of a simulator that was closed. *)

Module ToyRocket.

#[local] Instance types : RocketEnv.Types := {|
  RocketEnv.Rocket := nat;
  RocketEnv.Action := Z;
  RocketEnv.Observation := Z;
  RocketEnv.Reward := Z;
  RocketEnv.Frame := Z;
  RocketEnv.Info := unit;
  RocketEnv.Foreign := string;
  RocketEnv.zero := 0%Z;
  RocketEnv.add := Z.add;
  RocketEnv.squeeze := fun a => a;
  RocketEnv.to_ndarray := fun o => o;
  RocketEnv.to_float32 := fun r => r;
  RocketEnv.of_sample := fun a => a
|}.

Record state : Type := {
  built : nat;
  closed : list nat;
  limit : Z;
  height : Z;
  ticks : Z;
  dirs : list string
}.

Definition respond (A : Type) (c : RocketEnv.call A) (w : state)
  : (string + A) * state :=
  match c in RocketEnv.call A return (string + A) * state with
  | RocketEnv.ActionSpaceSeed _ => (inr tt, w)
  | RocketEnv.ActionSpaceSample => (inr 4%Z, w)
  | RocketEnv.NewRocket _ n =>
      (inr (built w),
       {| built := S (built w); closed := closed w; limit := n;
          height := 0; ticks := 0; dirs := dirs w |})
  | RocketEnv.RocketSeed _ _ => (inr tt, w)
  | RocketEnv.RocketReset _ =>
      (inr 0%Z,
       {| built := built w; closed := closed w; limit := limit w;
          height := 0; ticks := 0; dirs := dirs w |})
  | RocketEnv.RocketStep env a =>
      if existsb (Nat.eqb env) (closed w)
      then (inl "closed"%string, w)
      else (inr ((height w + a)%Z, a, (limit w <=? ticks w + 1)%Z, tt),
            {| built := built w; closed := closed w; limit := limit w;
               height := height w + a; ticks := ticks w + 1;
               dirs := dirs w |})
  | RocketEnv.RocketRender _ => (inr [height w], w)
  | RocketEnv.RocketClose env =>
      (inr tt,
       {| built := built w; closed := env :: closed w; limit := limit w;
          height := height w; ticks := ticks w; dirs := dirs w |})
  | RocketEnv.NpRandomSeed _ => (inr tt, w)
  | RocketEnv.NpRandomRandint low _ => (inr (low + 6)%Z, w)
  | RocketEnv.PathExists p => (inr (existsb (String.eqb p) (dirs w)), w)
  | RocketEnv.Makedirs p =>
      (inr tt,
       {| built := built w; closed := closed w; limit := limit w;
          height := height w; ticks := ticks w; dirs := p :: dirs w |})
  | RocketEnv.Mimsave _ _ _ => (inr tt, w)
  end.

#[local] Instance outside : RocketEnv.Outside types := {|
  RocketEnv.world := state;
  RocketEnv.respond := respond
|}.

(** Nothing built yet. *)
Definition start : state :=
  {| built := 0; closed := []; limit := 0; height := 0; ticks := 0;
     dirs := [] |}.

(** [{'task': 'hover', 'max_steps': 3}]. *)
Definition hover : RocketEnv.Cfg :=
  {| RocketEnv.task := Some "hover"%string; RocketEnv.max_steps := Some 3%Z |}.

(** The default [cfg = {}]. *)
Definition bare : RocketEnv.Cfg :=
  {| RocketEnv.task := None; RocketEnv.max_steps := None |}.

(** The object [RocketEnv(hover)]. *)
Definition fresh : RocketEnv.self :=
  RocketEnv.self_of (RocketEnv.__init__ hover start).

End ToyRocket.

(* ================================================================= *)
(** ** Every run leaves a trace of one of these shapes *)

Section Facts.
Context {DT : DataTypes} {C : Collaborators DT}.

Lemma sample_round_cases (s : option string) (n : nat) (w : world) :
  (exists zs w', length zs = n /\
     sample_round s n w = (samples s zs, Done zs, w')) \/
  (exists zs e w', length zs < n /\
     sample_round s n w = (samples s zs ++ [EvSample s (inl e)], Raised e, w')).
Proof.
  revert w. induction n as [|n IH]; intros w.
  - left. exists [], w. split; reflexivity.
  - cbn [sample_round]. unfold bind, call.
    destruct (handle (Sample s) w) as [[e|z] w1].
    + right. exists [], e, w1. split; [cbn; lia | reflexivity].
    + destruct (IH w1) as [(zs & w' & Hlen & Heq) | (zs & e & w' & Hlen & Heq)];
        rewrite Heq.
      * left. exists (z :: zs), w'. split; [cbn; lia | ].
        unfold ret. cbn. rewrite app_nil_r. reflexivity.
      * right. exists (z :: zs), e, w'. split; [cbn; lia | reflexivity].
Qed.

(** Symbolic execution: split on the answer of the next collaborator call. *)
Ltac next_call :=
  match goal with
  | |- context [handle ?c ?w] =>
      let e := fresh "e" in
      let a := fresh "a" in
      let w' := fresh "w" in
      destruct (handle c w) as [[e|a] w']; cbn [fst snd]
  end.

Ltac next_round :=
  match goal with
  | |- context [sample_round ?s ?n ?w] =>
      let zs := fresh "zs" in
      let e := fresh "e" in
      let w' := fresh "w" in
      let Hlen := fresh "Hlen" in
      let Heq := fresh "Heq" in
      destruct (sample_round_cases s n w)
        as [(zs & w' & Hlen & Heq) | (zs & e & w' & Hlen & Heq)];
      rewrite Heq; cbn [fst snd]
  end.

Ltac unit_results :=
  repeat match goal with a : unit |- _ => destruct a end.

Lemma prologue_shape_ok (cfg : Config) (w : world) :
  prologue_shape cfg (trace_of (prologue cfg w)) (outcome_of (prologue cfg w)).
Proof.
  unfold prologue, trace_of, outcome_of, bind, call, ret.
  next_call; [apply ps_setup_raises; constructor|].
  next_call; unit_results; [apply ps_setup_raises; constructor|].
  next_call; unit_results; [apply ps_setup_raises; constructor|].
  next_call; unit_results; [apply ps_setup_raises; constructor|].
  next_call; unit_results; [apply ps_setup_raises; constructor|].
  next_call; unit_results; [apply ps_setup_raises; apply (sr_workers cfg e a)|].
  next_call; unit_results; [apply ps_setup_raises; apply (sr_before_run cfg e a)|].
  next_round.
  2:{ apply (ps_assignment_raises cfg a). now apply ar_sample. }
  next_call; unit_results.
  { apply (ps_assignment_raises cfg a). now apply ar_seed. }
  next_call; unit_results.
  { apply (ps_assignment_raises cfg a). now apply ar_reset. }
  cbn [app]. rewrite ?app_nil_r. now apply (ps_done cfg a zs).
Qed.

(** From the collect call to the end of the pass, after the head [H]. *)
Ltac rest_of_cycle H :=
  next_call; [eapply (cs_learn_raises H); constructor|];
  next_call; unit_results; [eapply (cs_learn_raises H); constructor|];
  next_call; [eapply (cs_learn_raises H); constructor|];
  next_call; unit_results; [eapply (cs_learn_raises H); constructor|];
  next_round;
  [|eapply (cs_reseed_raises _ _ _ _ _ _ H); now apply ar_sample];
  next_call; unit_results;
  [eapply (cs_reseed_raises _ _ _ _ _ _ H); now apply ar_seed|];
  next_call; unit_results;
  [eapply (cs_reseed_raises _ _ _ _ _ _ H); now apply ar_reset|];
  match goal with
  | |- context [if ?b then _ else _] => destruct b
  end; cbn [fst snd app]; rewrite ?app_nil_r;
  [now eapply (cs_limit _ _ _ _ _ _ _ H) | now eapply (cs_continue _ _ _ _ _ _ _ H)].

Lemma cycle_shape_ok (cfg : Config) (mti mes : Z) (ls : tensor) (w : world) :
  cycle_shape cfg ls (trace_of (cycle cfg mti mes ls w))
    (outcome_of (cycle cfg mti mes ls w)).
Proof.
  unfold cycle, trace_of, outcome_of, bind, call, ret, get.
  next_call; [apply cs_step_raises|]. rename a into k.
  next_call; [apply cs_should_eval_raises|].
  destruct a.
  - next_call; [apply cs_eval_raises|].
    destruct a as [[|] rw]; cbn [fst snd app].
    + apply cs_eval_stops.
    + pose proof (ch_eval k (train_iter w0) (train_iter w1) (envstep w1) rw) as H.
      rest_of_cycle H.
  - cbn [fst snd app].
    pose proof (ch_no_eval k (train_iter w0)) as H.
    rest_of_cycle H.
Qed.

Lemma loop_shape_ok (cfg : Config) (mti mes : Z) (fuel : nat) (ls : tensor)
    (w : world) :
  loop_shape cfg ls (trace_of (main_loop cfg mti mes fuel ls w))
    (outcome_of (main_loop cfg mti mes fuel ls w)).
Proof.
  revert ls w. induction fuel as [|fuel IH]; intros ls w.
  - apply ls_out_of_fuel.
  - cbn [main_loop]. unfold bind.
    pose proof (cycle_shape_ok cfg mti mes ls w) as Hc.
    destruct (cycle cfg mti mes ls w) as [[t o] w1].
    unfold trace_of, outcome_of in *. cbn [fst snd] in Hc.
    destruct o as [[|ls']|e|].
    + unfold ret. cbn [fst snd]. rewrite app_nil_r. now apply ls_break.
    + specialize (IH ls' w1).
      destruct (main_loop cfg mti mes fuel ls' w1) as [[t2 o2] w2].
      cbn [fst snd] in *. now apply ls_next with (ls' := ls').
    + cbn [fst snd]. now apply ls_raises.
    + inversion Hc.
Qed.

Lemma run_shape_ok (cfg : Config) (mti mes : Z) (fuel : nat) (w : world) :
  run_shape cfg (trace_of (serial_pipeline_plr cfg mti mes fuel w))
    (outcome_of (serial_pipeline_plr cfg mti mes fuel w)).
Proof.
  unfold serial_pipeline_plr, bind.
  pose proof (prologue_shape_ok cfg w) as Hp.
  destruct (prologue cfg w) as [[t o] w1].
  unfold trace_of, outcome_of in *. cbn [fst snd] in Hp.
  destruct o as [[pol ls]|e|]; cbn [fst snd].
  - pose proof (loop_shape_ok cfg mti mes fuel ls w1) as Hl.
    destruct (main_loop cfg mti mes fuel ls w1) as [[t2 o2] w2].
    unfold trace_of, outcome_of in *. cbn [fst snd] in Hl.
    destruct o2 as [[]|e|]; cbn [fst snd].
    + unfold call, ret.
      destruct (handle (CallHook "after_run") w2) as [[e|[]] w3]; cbn [fst snd].
      * now apply rs_after_run_raises with (pol := pol) (ls := ls).
      * rewrite app_nil_r. now apply rs_done with (ls := ls).
    + now apply rs_loop_raises with (pol := pol) (ls := ls).
    + now apply rs_out_of_fuel with (pol := pol) (ls := ls).
  - now apply rs_prologue_raises.
  - inversion Hp.
Qed.

(* ----------------------------------------------------------------- *)
(** *** Properties of every entry of a trace *)

Lemma Forall_samples (P : event -> Prop) (s : option string) (zs : list Z) :
  (forall z, P (EvSample s (inr z))) -> Forall P (samples s zs).
Proof.
  intros H. unfold samples. apply Forall_forall. intros x Hx.
  apply in_map_iff in Hx. destruct Hx as (z & <- & _). apply H.
Qed.

(** Breaks [Forall P t] into one goal per entry of [t]. *)
Ltac each_event :=
  cbn [setup_events learn_events assignment firstn app];
  repeat first
    [ apply Forall_nil
    | apply Forall_cons
    | apply Forall_app; split
    | apply Forall_samples; intros ].

Lemma assignment_raises_Forall (P : event -> Prop) n s e t :
  assignment_raises n s e t ->
  (forall z, P (EvSample s (inr z))) ->
  P (EvSample s (inl e)) ->
  (forall zs r, length zs = n -> P (EvEnvSeed zs r)) ->
  P (EvEnvReset (inl e)) ->
  Forall P t.
Proof.
  intros H Hs He Hseed Hreset. destruct H; each_event; auto.
Qed.

Lemma prologue_emitted cfg t o :
  prologue_shape cfg t o -> Forall (emitted cfg) t.
Proof.
  intros H. destruct H as [e t H|pol e t H|pol zs Hlen].
  - destruct H; each_event; cbn; auto.
  - apply Forall_app; split.
    + each_event; cbn; auto.
    + apply (assignment_raises_Forall (emitted cfg) H); cbn; auto.
  - each_event; cbn; auto.
Qed.

Lemma cycle_emitted cfg ls t o :
  cycle_shape cfg ls t o -> Forall (emitted cfg) t.
Proof.
  intros H.
  destruct H as [ | | | |k hd e t [|] Hl|k hd ti es d sd e t [|] Ha
                 |k hd ti es d sd zs [|] Hlen|k hd ti es d sd zs [|] Hlen];
    try (each_event; cbn; now auto);
    try (destruct Hl; each_event; cbn; now auto);
    try (each_event; cbn; auto;
         apply (assignment_raises_Forall (emitted cfg) Ha); cbn; now auto).
Qed.

Lemma loop_emitted cfg ls t o :
  loop_shape cfg ls t o -> Forall (emitted cfg) t.
Proof.
  induction 1; try apply Forall_app; eauto using cycle_emitted.
Qed.

Lemma run_emitted cfg t o :
  run_shape cfg t o -> Forall (emitted cfg) t.
Proof.
  destruct 1;
    repeat (apply Forall_app; split);
    eauto using prologue_emitted, loop_emitted;
    each_event; cbn; auto.
Qed.

(* ----------------------------------------------------------------- *)
(** *** The level pool *)

Lemma generate_seeds_length (num_seeds base_seed : Z) :
  length (generate_seeds num_seeds base_seed) = Z.to_nat num_seeds.
Proof.
  unfold generate_seeds, range. now rewrite !length_map, length_seq.
Qed.

Lemma generate_seeds_nth (num_seeds base_seed : Z) (i : nat) :
  i < Z.to_nat num_seeds ->
  nth_error (generate_seeds num_seeds base_seed) i
  = Some (base_seed + Z.of_nat i)%Z.
Proof.
  intros Hi. unfold generate_seeds, range.
  rewrite !nth_error_map, nth_error_seq.
  destruct (Nat.ltb_spec i (Z.to_nat num_seeds)); [reflexivity | lia].
Qed.

Lemma generate_seeds_NoDup (num_seeds base_seed : Z) :
  NoDup (generate_seeds num_seeds base_seed).
Proof.
  unfold generate_seeds, range. rewrite map_map.
  apply Injective_map_NoDup; [|apply seq_NoDup].
  intros i j Hij. lia.
Qed.

Lemma default_pool :
  generate_seeds default_num_seeds default_base_seed = map Z.of_nat (seq 0 500).
Proof. vm_compute. reflexivity. Qed.

(** C6.  [generate_seeds(num_seeds, base_seed)] is the list of the
    [num_seeds] values [base_seed + i], [i = 0 .. num_seeds - 1], in that
    order; and whatever the configuration, the limits, the budget of
    passes and the collaborators, [serial_pipeline_plr] builds the
    [LevelSampler] as its third call, on the pool [0; 1; ..; 499] of
    [generate_seeds()], unless one of the two environment seedings before
    it raised and ended the run there; no sampler is ever built on another
    pool. *)
Theorem level_pool_generation :
  (forall num_seeds base_seed : Z,
      length (generate_seeds num_seeds base_seed) = Z.to_nat num_seeds /\
      forall i : nat, i < Z.to_nat num_seeds ->
        nth_error (generate_seeds num_seeds base_seed) i
        = Some (base_seed + Z.of_nat i)%Z) /\
  (forall (cfg : Config) (max_train_iter max_env_step : Z) (fuel : nat)
          (w : world),
      let r := serial_pipeline_plr cfg max_train_iter max_env_step fuel w in
      (forall seeds obs act n lr a,
          In (EvLevelSamplerInit seeds obs act n lr a) (trace_of r) ->
          seeds = map Z.of_nat (seq 0 500)) /\
      ((exists a,
           nth_error (trace_of r) 2
           = Some (EvLevelSamplerInit (map Z.of_nat (seq 0 500))
                     (obs_shape cfg) (action_shape cfg)
                     (collector_env_num cfg) (level_replay cfg) a)) \/
       (exists e,
           outcome_of r = Raised e /\
           (trace_of r = [EvCollectorEnvSeedCfg (seed cfg) (inl e)] \/
            trace_of r = [EvCollectorEnvSeedCfg (seed cfg) (inr tt);
                          EvEvaluatorEnvSeedCfg (seed cfg) (inl e)])))).
Proof.
  split.
  - intros n b. split; [apply generate_seeds_length|].
    intros i Hi. now apply generate_seeds_nth.
  - intros cfg mti mes fuel w r.
    pose proof (run_shape_ok cfg mti mes fuel w) as Hrun. fold r in Hrun.
    split.
    + intros seeds obs act n lr a Hin.
      pose proof (run_emitted Hrun) as Hem.
      rewrite Forall_forall in Hem. apply Hem in Hin. cbn in Hin.
      destruct Hin as [-> _]. apply default_pool.
    + rewrite <- default_pool.
      assert (Hpro : forall tp o, prologue_shape cfg tp o ->
                forall rest,
                (exists a, nth_error (tp ++ rest) 2
                   = Some (EvLevelSamplerInit
                             (generate_seeds default_num_seeds default_base_seed)
                             (obs_shape cfg) (action_shape cfg)
                             (collector_env_num cfg) (level_replay cfg) a)) \/
                (exists e, o = Raised e /\
                   (tp = [EvCollectorEnvSeedCfg (seed cfg) (inl e)] \/
                    tp = [EvCollectorEnvSeedCfg (seed cfg) (inr tt);
                          EvEvaluatorEnvSeedCfg (seed cfg) (inl e)]))).
      { intros tp o Hp rest.
        destruct Hp as [e tp H|pol e tp H|pol zs Hlen];
          [destruct H|..];
          try (left; eexists; unfold setup_events;
               cbn [nth_error app firstn]; reflexivity);
          right; exists e; auto. }
      destruct Hrun as [tp e Hp|pol ls tp tl e Hp _|pol ls tp tl Hp _
                       |pol ls tp tl e Hp _|pol ls tp tl Hp _].
      * destruct (Hpro _ _ Hp []) as [Hl|(e' & He & Ht)].
        -- left. now rewrite app_nil_r in Hl.
        -- injection He as <-. right. exists e. auto.
      * destruct (Hpro _ _ Hp tl) as [Hl|(e' & He & _)];
          [left; exact Hl|discriminate].
      * destruct (Hpro _ _ Hp tl) as [Hl|(e' & He & _)];
          [left; exact Hl|discriminate].
      * destruct (Hpro _ _ Hp (tl ++ [EvCallHook "after_run" (inl e)]))
          as [Hl|(e' & He & _)]; [left; exact Hl|discriminate].
      * destruct (Hpro _ _ Hp (tl ++ [EvCallHook "after_run" (inr tt)]))
          as [Hl|(e' & He & _)]; [left; exact Hl|discriminate].
Qed.

(* ----------------------------------------------------------------- *)
(** *** Locating an entry in a trace *)

(** The only entry that satisfies [p] is found at one place. *)
Lemma split_unique (p : event -> bool) a x b pre y post :
  a ++ x :: b = pre ++ y :: post ->
  Forall (fun ev => p ev = false) a ->
  Forall (fun ev => p ev = false) b ->
  p y = true ->
  pre = a /\ y = x /\ post = b.
Proof.
  revert pre. induction a as [|a0 a IH]; intros pre Heq Ha Hb Hy.
  - destruct pre as [|p0 pre]; cbn in Heq.
    + injection Heq as -> ->. auto.
    + injection Heq as -> ->.
      apply Forall_app in Hb. destruct Hb as [_ Hb].
      inversion Hb; subst. congruence.
  - inversion Ha; subst.
    destruct pre as [|p0 pre]; cbn in Heq.
    + injection Heq as -> _. congruence.
    + injection Heq as -> Heq.
      destruct (IH pre Heq) as (-> & -> & ->); auto.
Qed.

(** The first entry that satisfies [p] is found at one place. *)
Lemma split_first (p : event -> bool) a x b pre y post :
  a ++ x :: b = pre ++ y :: post ->
  Forall (fun ev => p ev = false) a -> p x = true ->
  Forall (fun ev => p ev = false) pre -> p y = true ->
  pre = a /\ y = x /\ post = b.
Proof.
  revert pre. induction a as [|a0 a IH]; intros pre Heq Ha Hx Hpre Hy.
  - destruct pre as [|p0 pre]; cbn in Heq.
    + injection Heq as -> ->. auto.
    + injection Heq as -> ->. inversion Hpre; subst. congruence.
  - inversion Ha; subst.
    destruct pre as [|p0 pre]; cbn in Heq.
    + injection Heq as -> _. congruence.
    + injection Heq as -> Heq. inversion Hpre; subst.
      destruct (IH pre Heq) as (-> & -> & ->); auto.
Qed.

Lemma Forall_no_split (p : event -> bool) t pre y post :
  Forall (fun ev => p ev = false) t ->
  t = pre ++ y :: post -> p y = true -> False.
Proof.
  intros Ht -> Hy. apply Forall_app in Ht. destruct Ht as [_ Ht].
  inversion Ht; subst. congruence.
Qed.

(* ----------------------------------------------------------------- *)
(** *** Exceptions end the run *)

Lemma fails_last_one e x : failure x = Some e -> fails_last e [x].
Proof. intros H. exists [], x. auto. Qed.

Lemma fails_last_cons e y t :
  raised_in y = false -> fails_last e t -> fails_last e (y :: t).
Proof.
  intros Hy (pre & x & -> & Hx & Hpre). exists (y :: pre), x. auto.
Qed.

Lemma fails_last_app e a t :
  Forall (fun ev => raised_in ev = false) a -> fails_last e t ->
  fails_last e (a ++ t).
Proof.
  intros Ha (pre & x & -> & Hx & Hpre). exists (a ++ pre), x.
  rewrite app_assoc. repeat split; auto. apply Forall_app; auto.
Qed.

(** Finds the raising call at the end of an explicit trace. *)
Ltac last_fails :=
  cbn [setup_events learn_events assignment firstn app];
  repeat first
    [ apply fails_last_one; reflexivity
    | apply fails_last_cons; [reflexivity|]
    | apply fails_last_app; [each_event; reflexivity|] ].

Lemma assignment_raises_last n s e t :
  assignment_raises n s e t -> fails_last e t.
Proof. destruct 1; last_fails. Qed.

Lemma cycle_head_returns k hd :
  cycle_head k hd -> Forall (fun ev => raised_in ev = false) hd.
Proof. destruct 1; each_event; reflexivity. Qed.

Lemma prologue_ends cfg t o : prologue_shape cfg t o -> ends_as t o.
Proof.
  destruct 1 as [e t H|pol e t H|pol zs Hlen]; cbn [ends_as].
  - destruct H; last_fails.
  - apply fails_last_app; [each_event; reflexivity|].
    now apply assignment_raises_last with (n := collector_env_num cfg) (s := sequential).
  - each_event; reflexivity.
Qed.

Lemma cycle_ends cfg ls t o : cycle_shape cfg ls t o -> ends_as t o.
Proof.
  destruct 1 as [ | | | |k hd e t Hhd Hl|k hd ti es d sd e t Hhd Ha
                 |k hd ti es d sd zs Hhd Hlen|k hd ti es d sd zs Hhd Hlen];
    cbn [ends_as]; try (now last_fails); try (each_event; reflexivity).
  - apply fails_last_app; [now apply cycle_head_returns with (k := k)|].
    destruct Hl; last_fails.
  - apply fails_last_app; [now apply cycle_head_returns with (k := k)|].
    apply fails_last_app; [each_event; reflexivity|].
    now apply assignment_raises_last with (n := collector_env_num cfg) (s := None).
  - apply Forall_app; split; [now apply cycle_head_returns with (k := k)|].
    each_event; reflexivity.
  - apply Forall_app; split; [now apply cycle_head_returns with (k := k)|].
    each_event; reflexivity.
Qed.

Lemma loop_ends cfg ls t o : loop_shape cfg ls t o -> ends_as t o.
Proof.
  induction 1 as [ls|ls t Hc|ls t e Hc|ls ls' t t' o Hc Hl IH].
  - constructor.
  - apply (cycle_ends Hc).
  - apply (cycle_ends Hc).
  - apply cycle_ends in Hc. cbn [ends_as] in Hc.
    destruct o; cbn [ends_as] in *;
      try (apply Forall_app; now split); now apply fails_last_app.
Qed.

Lemma run_ends cfg t o : run_shape cfg t o -> ends_as t o.
Proof.
  destruct 1 as [t e Hp|pol ls t t' e Hp Hl|pol ls t t' Hp Hl
                |pol ls t t' e Hp Hl|pol ls t t' Hp Hl];
    try apply prologue_ends in Hp; try apply loop_ends in Hl;
    cbn [ends_as] in *; auto.
  - now apply fails_last_app.
  - apply Forall_app; now split.
  - apply fails_last_app; [assumption|].
    apply fails_last_app; [assumption|]. now apply fails_last_one.
  - repeat (apply Forall_app; split); auto.
Qed.

(** C7.  When a collaborator call raises, the run ends there with that
    very exception: the raising call is the last entry of the trace (so it
    is not tried again and no later phase, [after_run] included, is
    entered), and the pipeline raises the same exception.  Conversely an
    exception leaving the pipeline is the one raised by its last call. *)
Theorem error_propagation_without_retry :
  forall (cfg : Config) (max_train_iter max_env_step : Z) (fuel : nat)
         (w : world),
    let r := serial_pipeline_plr cfg max_train_iter max_env_step fuel w in
    (forall pre x post e,
        trace_of r = pre ++ x :: post -> failure x = Some e ->
        post = [] /\ outcome_of r = Raised e) /\
    (forall e,
        outcome_of r = Raised e ->
        exists pre x, trace_of r = pre ++ [x] /\ failure x = Some e).
Proof.
  intros cfg mti mes fuel w r.
  pose proof (run_ends (run_shape_ok cfg mti mes fuel w)) as H. fold r in H.
  split.
  - intros pre x post e Heq Hx.
    assert (Hrx : raised_in x = true) by (unfold raised_in; now rewrite Hx).
    destruct (outcome_of r) as [pol|e0|]; cbn [ends_as] in H;
      try (exfalso; now apply (@Forall_no_split raised_in _ _ _ _ H Heq)).
    destruct H as (a & x0 & Ht & Hx0 & Ha). rewrite Ht in Heq.
    destruct (@split_unique raised_in _ _ _ _ _ _ Heq Ha (Forall_nil _) Hrx)
      as (-> & -> & ->).
    split; [reflexivity|congruence].
  - intros e He. rewrite He in H. cbn [ends_as] in H.
    destruct H as (a & x0 & Ht & Hx0 & _). eauto.
Qed.

(* ----------------------------------------------------------------- *)
(** *** The evaluator's stop signal *)

Lemma assignment_raises_no_stop n s e t :
  assignment_raises n s e t -> no_stop t.
Proof. destruct 1; unfold no_stop; each_event; reflexivity. Qed.

Lemma prologue_no_stop cfg t o : prologue_shape cfg t o -> no_stop t.
Proof.
  destruct 1 as [e t H|pol e t H|pol zs Hlen]; unfold no_stop.
  - destruct H; each_event; reflexivity.
  - apply Forall_app; split; [each_event; reflexivity|].
    now apply assignment_raises_no_stop with (n := collector_env_num cfg)
                                             (s := sequential) (e := e).
  - each_event; reflexivity.
Qed.

Lemma cycle_stop cfg ls t o :
  cycle_shape cfg ls t o ->
  (stopping_pass t /\ o = Done Break) \/ no_stop t.
Proof.
  destruct 1 as [ | | |k ti ti' es rw|k hd e t Hhd Hl|k hd ti es d sd e t Hhd Ha
                 |k hd ti es d sd zs Hhd Hlen|k hd ti es d sd zs Hhd Hlen];
    try (right; unfold no_stop; each_event; reflexivity).
  - left. split; [|reflexivity]. now exists k, ti, ti', es, rw.
  - right. destruct Hhd, Hl; unfold no_stop; each_event; reflexivity.
  - right. apply Forall_app; split.
    + destruct Hhd; each_event; reflexivity.
    + apply Forall_app; split; [each_event; reflexivity|].
      now apply assignment_raises_no_stop with (n := collector_env_num cfg)
                                               (s := None) (e := e).
  - right. destruct Hhd; unfold no_stop; each_event; reflexivity.
  - right. destruct Hhd; unfold no_stop; each_event; reflexivity.
Qed.

Lemma loop_stop cfg ls t o :
  loop_shape cfg ls t o ->
  (exists a c, t = a ++ c /\ no_stop a /\ stopping_pass c /\ o = Done tt) \/
  no_stop t.
Proof.
  induction 1 as [ls|ls t Hc|ls t e Hc|ls ls' t t' o Hc Hl IH].
  - right. constructor.
  - destruct (cycle_stop Hc) as [[Hs _]|Hn]; [left|now right].
    exists [], t. repeat split; auto. constructor.
  - destruct (cycle_stop Hc) as [[_ Ho]|Hn]; [discriminate|now right].
  - destruct (cycle_stop Hc) as [[_ Ho]|Hn]; [discriminate|].
    destruct IH as [(a & c & -> & Ha & Hs & ->)|Hn'].
    + left. exists (t ++ a), c. rewrite app_assoc.
      repeat split; auto. apply Forall_app; now split.
    + right. apply Forall_app; now split.
Qed.

Lemma run_stop cfg t o :
  run_shape cfg t o ->
  (exists a c r, t = a ++ c ++ [EvCallHook "after_run" r] /\
                 no_stop a /\ stopping_pass c) \/
  no_stop t.
Proof.
  destruct 1 as [t e Hp|pol ls t t' e Hp Hl|pol ls t t' Hp Hl
                |pol ls t t' e Hp Hl|pol ls t t' Hp Hl];
    try apply prologue_no_stop in Hp; try apply loop_stop in Hl.
  - now right.
  - right. destruct Hl as [(a & c & _ & _ & _ & Ho)|Hn]; [discriminate|].
    apply Forall_app; now split.
  - right. destruct Hl as [(a & c & _ & _ & _ & Ho)|Hn]; [discriminate|].
    apply Forall_app; now split.
  - destruct Hl as [(a & c & -> & Ha & Hs & _)|Hn].
    + left. exists (t ++ a), c, (inl e). rewrite <- !app_assoc.
      repeat split; auto. apply Forall_app; now split.
    + right. repeat (apply Forall_app; split); auto.
  - destruct Hl as [(a & c & -> & Ha & Hs & _)|Hn].
    + left. exists (t ++ a), c, (inr tt). rewrite <- !app_assoc.
      repeat split; auto. apply Forall_app; now split.
    + right. repeat (apply Forall_app; split); auto.
Qed.

(** C4.  Wherever [evaluator.eval] answers [stop = True], its pass holds
    nothing but [commander.step] and [should_eval] before it, and the only
    call of the run after it is the [after_run] hook: no [collect] and no
    [train] in that pass or later. *)
Theorem evaluator_stop_ends_the_run :
  forall (cfg : Config) (max_train_iter max_env_step : Z) (fuel : nat)
         (w : world) pre ti es rw post,
    trace_of (serial_pipeline_plr cfg max_train_iter max_env_step fuel w)
    = pre ++ EvEval ti es (inr (true, rw)) :: post ->
    (exists pre' k ti0,
        pre = pre' ++ [EvCommanderStep (inr k); EvShouldEval ti0 (inr true)]) /\
    (exists r, post = [EvCallHook "after_run" r]) /\
    Forall (fun ev => is_collect ev = false /\ is_train ev = false) post.
Proof.
  intros cfg mti mes fuel w pre ti es rw post Heq.
  destruct (run_stop (run_shape_ok cfg mti mes fuel w))
    as [(a & c & r & Ht & Ha & (k & ti0 & ti' & es' & rw' & ->))|Hn].
  - rewrite Ht in Heq. cbn [app] in Heq.
    replace (a ++ [EvCommanderStep (inr k); EvShouldEval ti0 (inr true);
                   EvEval ti' es' (inr (true, rw')); EvCallHook "after_run" r])
      with ((a ++ [EvCommanderStep (inr k); EvShouldEval ti0 (inr true)])
              ++ EvEval ti' es' (inr (true, rw')) :: [EvCallHook "after_run" r])
      in Heq by (now rewrite <- app_assoc).
    apply (@split_unique is_stop_eval) in Heq; try reflexivity.
    + destruct Heq as (-> & _ & ->).
      split; [now exists a, k, ti0|].
      split; [now exists r|]. each_event; split; reflexivity.
    + apply Forall_app; split; [exact Ha|each_event; reflexivity].
    + each_event; reflexivity.
  - exfalso. now apply (@Forall_no_split is_stop_eval _ _ _ _ Hn Heq).
Qed.

(* ----------------------------------------------------------------- *)
(** *** The surroundings of each call *)

Section Contexts.
Variable Q : list event -> event -> list event -> Prop.

Lemma ctx_app h t1 t2 b :
  ctx Q h (t1 ++ t2) b <-> ctx Q h t1 (t2 ++ b) /\ ctx Q (h ++ t1) t2 b.
Proof.
  revert h. induction t1 as [|x t1 IH]; intros h; cbn [ctx app].
  - rewrite app_nil_r. tauto.
  - rewrite IH, <- !app_assoc. cbn [app]. tauto.
Qed.

Lemma ctx_split t :
  ctx Q [] t [] ->
  forall pre x post, t = pre ++ x :: post -> Q pre x post.
Proof.
  intros H pre x post ->. apply ctx_app in H. destruct H as [_ H].
  cbn in H. rewrite app_nil_r in H. tauto.
Qed.

Lemma ctx_quiet h t b :
  Forall (fun x => forall h b, Q h x b) t -> ctx Q h t b.
Proof.
  revert h. induction t as [|x t IH]; intros h Ht; cbn [ctx]; [trivial|].
  inversion Ht; subst. auto.
Qed.

End Contexts.

Lemma samples_snoc s zs z :
  samples s zs ++ [EvSample s (inr z)] = samples s (zs ++ [z]).
Proof. unfold samples. now rewrite map_app. Qed.

Lemma ctx_samples cfg s h zs1 zs2 b :
  (s = None -> learned cfg h) ->
  ctx (context_ok cfg) (h ++ samples s zs1) (samples s zs2) b.
Proof.
  intros Hl. revert zs1. induction zs2 as [|z zs2 IH]; intros zs1;
    cbn [samples map ctx]; [trivial|]. split.
  - destruct s as [s|]; cbn [context_ok]; [trivial|].
    destruct (Hl eq_refl) as (h' & ls & k & ti & es & d & sd & ->).
    exists h', ls, k, ti, es, d, sd, zs1. now rewrite <- app_assoc.
  - rewrite <- app_assoc, samples_snoc. apply IH.
Qed.

Lemma ctx_assignment cfg s h zs b :
  length zs = collector_env_num cfg ->
  (s = None -> learned cfg h) ->
  ctx (context_ok cfg) h (assignment s zs) b.
Proof.
  intros Hlen Hl. unfold assignment. apply ctx_app. split.
  - rewrite <- (app_nil_r h). now apply ctx_samples with (zs1 := []).
  - cbn [ctx context_ok app]. repeat split; eauto.
Qed.

Lemma ctx_assignment_raises cfg s h e t b :
  assignment_raises (collector_env_num cfg) s e t ->
  (s = None -> learned cfg h) ->
  ctx (context_ok cfg) h t b.
Proof.
  intros Ha Hl.
  assert (Hs : forall zs b', ctx (context_ok cfg) h (samples s zs) b').
  { intros zs b'. rewrite <- (app_nil_r h). now apply ctx_samples with (zs1 := []). }
  destruct Ha as [zs Hlen|zs Hlen|zs Hlen]; apply ctx_app; (split; [apply Hs|]);
    cbn [ctx context_ok app]; repeat split; eauto; try discriminate.
  destruct s as [s|]; [trivial|].
  destruct (Hl eq_refl) as (h' & ls & k & ti & es & d & sd & ->).
  exists h', ls, k, ti, es, d, sd, zs. now rewrite <- app_assoc.
Qed.

Lemma ctx_head cfg k hd h b :
  cycle_head k hd -> ctx (context_ok cfg) h hd b.
Proof.
  destruct 1; cbn [ctx context_ok app]; repeat split.
  exists h, k, ti. now rewrite <- app_assoc.
Qed.

Lemma ctx_learn cfg ls k hd ti es d sd h b :
  assigned h ls -> cycle_head k hd ->
  ctx (context_ok cfg) (h ++ hd) (learn_events cfg ls k ti es d sd) b.
Proof.
  intros (h' & seeds & -> & ->) Hhd. cbn [ctx context_ok learn_events app].
  repeat split. exists h', seeds, hd. now rewrite <- app_assoc.
Qed.

Lemma ctx_learn_raises cfg ls k hd e t h b :
  assigned h ls -> cycle_head k hd -> learn_raises cfg ls k e t ->
  ctx (context_ok cfg) (h ++ hd) t b.
Proof.
  intros (h' & seeds & -> & ->) Hhd Hl.
  destruct Hl; cbn [ctx context_ok app]; repeat split;
    exists h', seeds, hd; now rewrite <- app_assoc.
Qed.

Lemma learned_here cfg h ls k ti es d sd :
  learned cfg (h ++ learn_events cfg ls k ti es d sd).
Proof. now exists h, ls, k, ti, es, d, sd. Qed.

Lemma cycle_context cfg ls t o h b :
  assigned h ls -> cycle_shape cfg ls t o -> ctx (context_ok cfg) h t b.
Proof.
  intros Hh Hc.
  destruct Hc as [ | | | |k hd e t Hhd Hl|k hd ti es d sd e t Hhd Ha
                 |k hd ti es d sd zs Hhd Hlen|k hd ti es d sd zs Hhd Hlen].
  - cbn; auto.
  - cbn; auto.
  - cbn [ctx context_ok app]. repeat split.
    exists h, k, ti. now rewrite <- app_assoc.
  - cbn [ctx context_ok app]. repeat split.
    exists h, k, ti. now rewrite <- app_assoc.
  - apply ctx_app. split; [now apply ctx_head with (k := k)|].
    now apply ctx_learn_raises with (ls := ls) (k := k) (e := e).
  - apply ctx_app. split; [now apply ctx_head with (k := k)|].
    apply ctx_app. split; [now apply ctx_learn|].
    apply ctx_assignment_raises with (s := None) (e := e); [assumption|].
    intros _. apply learned_here.
  - apply ctx_app. split; [now apply ctx_head with (k := k)|].
    apply ctx_app. split; [now apply ctx_learn|].
    apply ctx_assignment; [assumption|]. intros _. apply learned_here.
  - apply ctx_app. split; [now apply ctx_head with (k := k)|].
    apply ctx_app. split; [now apply ctx_learn|].
    apply ctx_assignment; [assumption|]. intros _. apply learned_here.
Qed.

Lemma cycle_assigned cfg ls ls' t h :
  cycle_shape cfg ls t (Done (Continue ls')) -> assigned (h ++ t) ls'.
Proof.
  intros Hc. inversion Hc as [ | | | | | | |k hd ti es d sd zs Hhd Hlen Ht Ho].
  exists (h ++ hd ++ learn_events cfg ls k ti es d sd ++ samples None zs), zs.
  split; [|reflexivity]. unfold assignment. now rewrite <- !app_assoc.
Qed.

Lemma loop_context cfg ls t o h b :
  assigned h ls -> loop_shape cfg ls t o -> ctx (context_ok cfg) h t b.
Proof.
  intros Hh Hl. revert h b Hh.
  induction Hl as [ls|ls t Hc|ls t e Hc|ls ls' t t' o Hc Hl IH]; intros h b Hh.
  - exact I.
  - now apply cycle_context with (ls := ls) (o := Done Break).
  - now apply cycle_context with (ls := ls) (o := Raised e).
  - apply ctx_app. split.
    + now apply cycle_context with (ls := ls) (o := Done (Continue ls')).
    + apply IH. now apply cycle_assigned with (cfg := cfg) (ls := ls).
Qed.

Lemma prologue_context cfg t o b :
  prologue_shape cfg t o -> ctx (context_ok cfg) [] t b.
Proof.
  destruct 1 as [e t H|pol e t H|pol zs Hlen].
  - destruct H; cbn; tauto.
  - apply ctx_app. split; [cbn; tauto|].
    apply ctx_assignment_raises with (s := sequential) (e := e);
      [assumption|discriminate].
  - apply ctx_app. split; [cbn; tauto|].
    apply ctx_assignment; [assumption|discriminate].
Qed.

Lemma prologue_assigned cfg t pol ls :
  prologue_shape cfg t (Done (pol, ls)) -> assigned t ls.
Proof.
  intros Hp. inversion Hp as [ | |pol' zs Hlen Ht Ho].
  exists (setup_events cfg pol ++ samples sequential zs), zs.
  split; [|reflexivity]. unfold assignment. now rewrite <- !app_assoc.
Qed.

(** Every call of a run stands where [context_ok] says. *)
Lemma run_context (cfg : Config) (mti mes : Z) (fuel : nat) (w : world)
    pre x post :
  trace_of (serial_pipeline_plr cfg mti mes fuel w) = pre ++ x :: post ->
  context_ok cfg pre x post.
Proof.
  apply ctx_split.
  destruct (run_shape_ok cfg mti mes fuel w)
    as [t e Hp|pol ls t t' e Hp Hl|pol ls t t' Hp Hl
       |pol ls t t' e Hp Hl|pol ls t t' Hp Hl].
  - now apply prologue_context with (o := Raised e).
  - apply ctx_app. split; [now apply prologue_context with (o := Done (pol, ls))|].
    apply loop_context with (ls := ls) (o := Raised e); [|assumption].
    now apply prologue_assigned with (cfg := cfg) (pol := pol).
  - apply ctx_app. split; [now apply prologue_context with (o := Done (pol, ls))|].
    apply loop_context with (ls := ls) (o := (@OutOfFuel _ unit)); [|assumption].
    now apply prologue_assigned with (cfg := cfg) (pol := pol).
  - apply ctx_app. split; [now apply prologue_context with (o := Done (pol, ls))|].
    apply ctx_app. split; [|cbn; tauto].
    apply loop_context with (ls := ls) (o := Done tt); [|assumption].
    now apply prologue_assigned with (cfg := cfg) (pol := pol).
  - apply ctx_app. split; [now apply prologue_context with (o := Done (pol, ls))|].
    apply ctx_app. split; [|cbn; tauto].
    apply loop_context with (ls := ls) (o := Done tt); [|assumption].
    now apply prologue_assigned with (cfg := cfg) (pol := pol).
Qed.

(** C2.  In every pass of the loop, evaluation comes before collection
    and reseeding comes after the score update.  For a call [x] of a run,
    with [pre] the calls before it:
    - if [x] is [evaluator.eval], it directly follows the
      [commander.step] that opened its pass and the [should_eval] that
      fired;
    - if [x] is [collector.collect], its pass so far is
      [commander.step], [should_eval] and, when that fired, the
      [eval] (which did not ask to stop);
    - if [x] is a weighted [level_sampler.sample()], it follows, with
      only earlier draws of its round between, the successful
      [update_with_rollouts] on the preprocessed batch that the [collect]
      of the same pass returned. *)
Theorem cycle_ordering :
  forall (cfg : Config) (max_train_iter max_env_step : Z) (fuel : nat)
         (w : world) pre x post,
    trace_of (serial_pipeline_plr cfg max_train_iter max_env_step fuel w)
    = pre ++ x :: post ->
    (forall ti es r, x = EvEval ti es r ->
        exists pre' k ti0,
          pre = pre' ++ [EvCommanderStep (inr k); EvShouldEval ti0 (inr true)]) /\
    (forall ti ls k r, x = EvCollect ti ls k r ->
        exists pre' ti0 fire evs,
          pre = pre' ++ EvCommanderStep (inr k)
                     :: EvShouldEval ti0 (inr fire) :: evs /\
          if fire : bool
          then exists ti' es rw, evs = [EvEval ti' es (inr (false, rw))]
          else evs = []) /\
    (forall r, x = EvSample None r ->
        exists pre' ti ls k d es sd zs,
          pre = pre'
                ++ [EvCollect ti ls k (inr d);
                    EvTrain d es (inr tt);
                    EvPreprocessLearn d (ignore_done cfg) (inr sd);
                    EvUpdateWithRollouts sd (collector_env_num cfg) (inr tt)]
                ++ samples None zs).
Proof.
  intros cfg mti mes fuel w pre x post Heq.
  pose proof (run_context cfg mti mes fuel w pre x post Heq) as H.
  repeat split.
  - intros ti es r ->. exact H.
  - intros ti ls k r ->. cbn [context_ok] in H.
    destruct H as (pre' & seeds & hd & -> & Hhd & _).
    destruct Hhd as [ti0|ti0 ti' es rw].
    + exists (pre' ++ [EvEnvSeed seeds (inr tt); EvEnvReset (inr tt)]),
        ti0, false, []. now rewrite <- app_assoc.
    + exists (pre' ++ [EvEnvSeed seeds (inr tt); EvEnvReset (inr tt)]),
        ti0, true, [EvEval ti' es (inr (false, rw))].
      split; [now rewrite <- app_assoc|eauto].
  - intros r ->. cbn [context_ok] in H.
    destruct H as (pre' & ls & k & ti & es & d & sd & zs & ->).
    now exists pre', ti, ls, k, d, es, sd, zs.
Qed.

(** C5.  After every assignment round the environments run the sampler's
    latest assignment.  For a call [x] of a run, with [pre] before it and
    [post] after it:
    - if [x] is [collector_env.seed(seeds)], then [seeds] holds one level
      per collector environment (the sampler is free to return a level
      twice), the calls just before [x] are the sampler calls of the round,
      which returned exactly [seeds] in that order, and when the seeding
      returns the next call is [collector_env.reset()];
    - if [x] is [collector.collect], its [level_seeds] is the tensor of the
      list of the last seeding, and no sampler call lies between that
      seeding and [x].
    The seeding with [cfg.seed] on line 63 comes before any round and is a
    separate entry. *)
Theorem active_set_invariant :
  forall (cfg : Config) (max_train_iter max_env_step : Z) (fuel : nat)
         (w : world) pre x post,
    trace_of (serial_pipeline_plr cfg max_train_iter max_env_step fuel w)
    = pre ++ x :: post ->
    (forall seeds r, x = EvEnvSeed seeds r ->
        length seeds = collector_env_num cfg /\
        (exists strategy pre', pre = pre' ++ samples strategy seeds) /\
        (r = inr tt -> exists r' post', post = EvEnvReset r' :: post')) /\
    (forall ti ls k r, x = EvCollect ti ls k r ->
        exists pre' seeds hd,
          pre = pre' ++ [EvEnvSeed seeds (inr tt); EvEnvReset (inr tt)] ++ hd /\
          ls = torch_Tensor seeds /\
          Forall (fun ev => match ev with
                            | EvSample _ _ | EvEnvSeed _ _ => False
                            | _ => True
                            end) hd).
Proof.
  intros cfg mti mes fuel w pre x post Heq.
  pose proof (run_context cfg mti mes fuel w pre x post Heq) as H.
  split.
  - intros seeds r ->. exact H.
  - intros ti ls k r ->. cbn [context_ok] in H.
    destruct H as (pre' & seeds & hd & -> & Hhd & ->).
    exists pre', seeds, hd. repeat split.
    destruct Hhd; each_event; exact I.
Qed.

(* ----------------------------------------------------------------- *)
(** *** The first and the last pass *)

(** A run that does not raise gets through the prologue and through a
    first pass of the loop whenever the budget allows one pass. *)
Lemma run_first_pass (cfg : Config) (mti mes : Z) (fuel : nat) (w : world) :
  let r := serial_pipeline_plr cfg mti mes (S fuel) w in
  is_raised (outcome_of r) = false ->
  exists pol zs w1 rest,
    length zs = collector_env_num cfg /\
    prologue cfg w
    = (setup_events cfg pol ++ assignment sequential zs,
       Done (pol, torch_Tensor zs), w1) /\
    let rc := cycle cfg mti mes (torch_Tensor zs) w1 in
    trace_of r
    = setup_events cfg pol ++ assignment sequential zs ++ trace_of rc ++ rest /\
    is_raised (outcome_of rc) = false /\
    (outcome_of rc = Done Break ->
     rest = [EvCallHook "after_run" (inr tt)] /\ outcome_of r = Done pol).
Proof.
  unfold serial_pipeline_plr, bind. cbn [main_loop]. unfold bind.
  pose proof (prologue_shape_ok cfg w) as Hp.
  destruct (prologue cfg w) as [[tp op] w1].
  unfold trace_of, outcome_of in *. cbn [fst snd] in Hp.
  destruct op as [[pol ls]|e|]; cbn [fst snd is_raised]; try discriminate;
    [|inversion Hp].
  inversion Hp as [ | |pol' zs Hlen Ht Ho]. subst.
  pose proof (cycle_shape_ok cfg mti mes (torch_Tensor zs) w1) as Hc.
  destruct (cycle cfg mti mes (torch_Tensor zs) w1) as [[tc oc] w2] eqn:Hceq.
  unfold trace_of, outcome_of in *. cbn [fst snd] in Hc.
  destruct oc as [[|ls']|e|]; cbn [fst snd is_raised]; try discriminate;
    [| |inversion Hc].
  - unfold ret at 1. cbn [fst snd]. unfold call, ret.
    destruct (handle (CallHook "after_run") w2) as [[e|[]] w3];
      cbn [fst snd is_raised]; try discriminate.
    intros _. exists pol, zs, w1, [EvCallHook "after_run" (inr tt)].
    rewrite Hceq, !app_nil_r, <- !app_assoc. cbn [fst snd log is_raised].
    repeat split; auto.
  - destruct (main_loop cfg mti mes fuel ls' w2) as [[t2 o2] w3].
    destruct o2 as [[]|e|]; cbn [fst snd is_raised]; try discriminate.
    + unfold call, ret.
      destruct (handle (CallHook "after_run") w3) as [[e|[]] w4];
        cbn [fst snd is_raised]; try discriminate.
      intros _. exists pol, zs, w1, (t2 ++ [EvCallHook "after_run" (inr tt)]).
      rewrite Hceq, !app_nil_r, <- !app_assoc. cbn [fst snd log is_raised].
      repeat split; auto; discriminate.
    + intros _. exists pol, zs, w1, t2. rewrite Hceq, <- !app_assoc.
      cbn [fst snd log is_raised]. repeat split; auto; discriminate.
Qed.

(** C9.  The limits are only looked at the end of a pass: with a budget of
    at least one pass, whatever [max_train_iter] and [max_env_step] are
    (zero included), a run that does not raise starts, right after the
    first assignment round, with a pass that is either cut by the evaluator
    or a complete Collect, Learn and Reseed. *)
Theorem limits_do_not_prevent_first_cycle :
  forall (cfg : Config) (max_train_iter max_env_step : Z) (fuel : nat)
         (w : world),
    let r := serial_pipeline_plr cfg max_train_iter max_env_step (S fuel) w in
    is_raised (outcome_of r) = false ->
    exists pol zs c rest,
      trace_of r = setup_events cfg pol ++ assignment sequential zs ++ c ++ rest /\
      (stopping_pass c \/
       exists k hd ti es d sd zs',
         cycle_head k hd /\
         length zs' = collector_env_num cfg /\
         c = hd
             ++ [EvCollect ti (torch_Tensor zs) k (inr d);
                 EvTrain d es (inr tt);
                 EvPreprocessLearn d (ignore_done cfg) (inr sd);
                 EvUpdateWithRollouts sd (collector_env_num cfg) (inr tt)]
             ++ assignment None zs').
Proof.
  intros cfg mti mes fuel w r Hr.
  destruct (run_first_pass cfg mti mes fuel w Hr)
    as (pol & zs & w1 & rest & Hlen & _ & Ht & Hrc & _).
  exists pol, zs, (trace_of (cycle cfg mti mes (torch_Tensor zs) w1)), rest.
  split; [exact Ht|].
  pose proof (cycle_shape_ok cfg mti mes (torch_Tensor zs) w1) as Hc.
  destruct Hc as [ | | |k ti ti' es rw| | |k hd ti es d sd zs' Hhd Hlen'
                 |k hd ti es d sd zs' Hhd Hlen']; try discriminate.
  - left. now exists k, ti, ti', es, rw.
  - right. now exists k, hd, ti, es, d, sd, zs'.
  - right. now exists k, hd, ti, es, d, sd, zs'.
Qed.

Lemma loop_last cfg ls t :
  loop_shape cfg ls t (Done tt) ->
  exists a ls' c, t = a ++ c /\ cycle_shape cfg ls' c (Done Break).
Proof.
  intros H. remember (Done tt) as o eqn:Ho.
  induction H as [ls|ls t Hc|ls t e Hc|ls ls' t t' o Hc Hl IH]; try discriminate.
  - now exists [], ls, t.
  - destruct (IH Ho) as (a & ls'' & c & -> & Hc').
    exists (t ++ a), ls'', c. now rewrite app_assoc.
Qed.

(** C10.  A run that returns without the evaluator having asked to stop
    ends with a whole Reseed that nothing uses: after the last
    [update_with_rollouts] come one weighted draw per environment, the
    seeding and the reset of the environments with those levels, and then
    only the [after_run] hook. *)
Theorem final_reseed_is_not_collected :
  forall (cfg : Config) (max_train_iter max_env_step : Z) (fuel : nat)
         (w : world) (pol : policy),
    let r := serial_pipeline_plr cfg max_train_iter max_env_step fuel w in
    outcome_of r = Done pol ->
    existsb is_stop_eval (trace_of r) = false ->
    exists pre sd zs,
      length zs = collector_env_num cfg /\
      trace_of r
      = pre
        ++ [EvUpdateWithRollouts sd (collector_env_num cfg) (inr tt)]
        ++ samples None zs
        ++ [EvEnvSeed zs (inr tt); EvEnvReset (inr tt);
            EvCallHook "after_run" (inr tt)].
Proof.
  intros cfg mti mes fuel w pol r Ho Hns. subst r.
  pose proof (run_shape_ok cfg mti mes fuel w) as Hrun.
  rewrite Ho in Hrun.
  inversion Hrun as [ | | | |pol' ls tp tl Hp Hl Ht Hpol]. subst pol'.
  destruct (loop_last Hl) as (a & ls' & c & -> & Hc).
  rewrite <- Ht in Hns.
  inversion Hc as [ | | |k ti ti' es rw Hct| | |k hd ti es d sd zs Hhd Hlen Hct| ].
  - exfalso. subst c. rewrite !existsb_app in Hns. cbn in Hns.
    rewrite !orb_true_r in Hns. discriminate.
  - exists (tp ++ a ++ hd ++ firstn 3 (learn_events cfg ls' k ti es d sd)), sd, zs.
    split; [exact Hlen|]. unfold assignment. cbn [learn_events firstn].
    rewrite <- !app_assoc. reflexivity.
Qed.

(* ----------------------------------------------------------------- *)
(** *** The train-iteration limit *)

Section Counters.
(** [learner.train_iter] is a counter: no call makes it go down. *)
Hypothesis train_iter_monotone :
  forall (A : Type) (c : plrE A) (w : world),
    (train_iter w <= train_iter (snd (handle c w)))%Z.

Lemma sample_round_grows s n w :
  (train_iter w <= train_iter (world_of (sample_round s n w)))%Z.
Proof.
  revert w. induction n as [|n IH]; intros w; cbn [sample_round].
  - unfold ret, world_of. cbn. lia.
  - unfold bind, call.
    pose proof (train_iter_monotone (Sample s) w) as Hm.
    destruct (handle (Sample s) w) as [[e|z] w1]; cbn [fst snd] in *.
    + unfold world_of. cbn. lia.
    + specialize (IH w1).
      destruct (sample_round s n w1) as [[t [zs|e|]] w2];
        unfold world_of, ret in *; cbn [fst snd] in *; lia.
Qed.

(** Symbolic execution that keeps what each call did to the counter. *)
Ltac next_call_counted :=
  match goal with
  | |- context [handle ?c ?w] =>
      let e := fresh "e" in
      let a := fresh "a" in
      let w' := fresh "w" in
      let Hm := fresh "Hm" in
      let Hh := fresh "Hh" in
      pose proof (train_iter_monotone c w) as Hm;
      destruct (handle c w) as [[e|a] w'] eqn:Hh; cbn [fst snd] in *
  end.

Ltac next_round_counted :=
  match goal with
  | |- context [sample_round ?s ?n ?w] =>
      let t := fresh "t" in
      let zs := fresh "zs" in
      let e := fresh "e" in
      let w' := fresh "w" in
      let Hs := fresh "Hs" in
      pose proof (sample_round_grows s n w) as Hs;
      destruct (sample_round s n w) as [[t [zs|e|]] w'];
      unfold world_of in Hs; cbn [fst snd] in *
  end.

Lemma prologue_grows cfg w :
  (train_iter w <= train_iter (world_of (prologue cfg w)))%Z.
Proof.
  unfold prologue, world_of, bind, call, ret.
  repeat (next_call_counted; [lia|]).
  next_round_counted; try lia.
  repeat (next_call_counted; [lia|]). lia.
Qed.

(** Once [train] has run with [max_train_iter = 1], the pass ends at the
    check of line 121. *)
Lemma cycle_reaches_limit cfg mes ls w :
  (forall d es w0 w1,
      handle (Train d es) w0 = (inr tt, w1) ->
      (train_iter w0 < train_iter w1)%Z) ->
  (0 <= train_iter w)%Z ->
  forall ls', outcome_of (cycle cfg 1 mes ls w) <> Done (Continue ls').
Proof.
  intros Htrain Hw ls'.
  unfold cycle, outcome_of, bind, call, ret, get.
  next_call_counted; [discriminate|].
  next_call_counted; [discriminate|].
  match goal with b : bool |- _ => destruct b end.
  - next_call_counted; [discriminate|].
    match goal with sr : (bool * reward)%type |- _ => destruct sr as [[|] rw] end;
      cbn [fst snd]; [discriminate|].
    next_call_counted; [discriminate|].
    next_call_counted; [discriminate|].
    match goal with H : handle (Train _ _) _ = (inr ?u, _) |- _ =>
      destruct u; apply Htrain in H end.
    next_call_counted; [discriminate|].
    next_call_counted; [discriminate|].
    next_round_counted; try discriminate.
    next_call_counted; [discriminate|].
    next_call_counted; [discriminate|].
    match goal with |- context [if ?b then _ else _] =>
      destruct b eqn:Hb end; cbn [fst snd]; [discriminate|].
    exfalso. apply orb_false_elim in Hb. destruct Hb as [_ Hb].
    apply Z.leb_gt in Hb. lia.
  - cbn [fst snd].
    next_call_counted; [discriminate|].
    next_call_counted; [discriminate|].
    match goal with H : handle (Train _ _) _ = (inr ?u, _) |- _ =>
      destruct u; apply Htrain in H end.
    next_call_counted; [discriminate|].
    next_call_counted; [discriminate|].
    next_round_counted; try discriminate.
    next_call_counted; [discriminate|].
    next_call_counted; [discriminate|].
    match goal with |- context [if ?b then _ else _] =>
      destruct b eqn:Hb end; cbn [fst snd]; [discriminate|].
    exfalso. apply orb_false_elim in Hb. destruct Hb as [_ Hb].
    apply Z.leb_gt in Hb. lia.
Qed.

End Counters.

Lemma filter_samples (p : event -> bool) s zs :
  (forall z, p (EvSample s (inr z)) = false) -> filter p (samples s zs) = [].
Proof.
  intros H. induction zs as [|z zs IH]; cbn; [reflexivity|]. now rewrite H.
Qed.

Lemma filter_one_pass (p : event -> bool) cfg pol zs k hd ls ti es d sd zs' :
  (forall s r, p (EvSample s r) = false) ->
  (forall ti r, p (EvShouldEval ti r) = false) ->
  (forall ti es r, p (EvEval ti es r) = false) ->
  (forall r, p (EvCommanderStep r) = false) ->
  (forall l r, p (EvEnvSeed l r) = false) ->
  (forall r, p (EvEnvReset r) = false) ->
  (forall h r, p (EvCallHook h r) = false) ->
  filter p (setup_events cfg pol) = [] ->
  cycle_head k hd ->
  filter p (setup_events cfg pol ++ assignment sequential zs ++ hd
            ++ learn_events cfg ls k ti es d sd ++ assignment None zs'
            ++ [EvCallHook "after_run" (inr tt)])
  = filter p (learn_events cfg ls k ti es d sd).
Proof.
  intros Hs Hse He Hc Hseed Hreset Hhook Hsetup Hhd.
  unfold assignment. rewrite !filter_app, Hsetup, !filter_samples by auto.
  cbn [filter app]. rewrite !Hseed, !Hreset, Hhook.
  destruct Hhd; cbn [filter app]; rewrite ?Hc, ?Hse, ?He;
    now rewrite app_nil_r.
Qed.

(** C3.  Take [max_train_iter = 1], any [max_env_step], a budget of at
    least one pass, and a learner that counts its train iterations
    ([counts_train_iterations]).  A run in which no call
    raises and the evaluator never asks to stop is: the prologue, one pass
    with one Collect and one Learn ([train], then
    [update_with_rollouts]), the reseeding of that pass, the [after_run]
    hook; and it returns the policy.  [train] and [update_with_rollouts]
    are each called once. *)
Theorem train_iter_limit_terminates :
  forall (cfg : Config) (max_env_step : Z) (fuel : nat) (w : world),
    counts_train_iterations w ->
    let r := serial_pipeline_plr cfg 1 max_env_step (S fuel) w in
    is_raised (outcome_of r) = false ->
    existsb is_stop_eval (trace_of r) = false ->
    exists pol zs k hd ti es d sd zs',
      outcome_of r = Done pol /\
      cycle_head k hd /\
      trace_of r
      = setup_events cfg pol ++ assignment sequential zs ++ hd
        ++ [EvCollect ti (torch_Tensor zs) k (inr d);
            EvTrain d es (inr tt);
            EvPreprocessLearn d (ignore_done cfg) (inr sd);
            EvUpdateWithRollouts sd (collector_env_num cfg) (inr tt)]
        ++ assignment None zs'
        ++ [EvCallHook "after_run" (inr tt)] /\
      length (filter is_train (trace_of r)) = 1 /\
      length (filter is_update (trace_of r)) = 1.
Proof.
  intros cfg mes fuel w (Hw & Hmono & Htrain) r Hr Hns.
  destruct (run_first_pass cfg 1 mes fuel w Hr)
    as (pol & zs & w1 & rest & Hlen & Hp & Ht & Hrc & Hbreak).
  fold r in Ht, Hbreak.
  assert (Hw1 : (0 <= train_iter w1)%Z).
  { pose proof (prologue_grows Hmono cfg w) as Hg.
    rewrite Hp in Hg. unfold world_of in Hg. cbn in Hg. lia. }
  pose proof (@cycle_reaches_limit Hmono cfg mes (torch_Tensor zs) w1 Htrain Hw1)
    as Hlimit.
  pose proof (cycle_shape_ok cfg 1 mes (torch_Tensor zs) w1) as Hc.
  cbv zeta in Ht, Hrc, Hbreak.
  inversion Hc as [e Htc Ho|k ti e Htc Ho|k ti ti' es e Htc Ho
                  |k ti ti' es rw Htc Ho|k hd e t Hhd Hl Htc Ho
                  |k hd ti es d sd e t Hhd Ha Htc Ho
                  |k hd ti es d sd zs' Hhd Hlen' Htc Ho
                  |k hd ti es d sd zs' Hhd Hlen' Htc Ho];
    rewrite <- Ho in Hrc; try discriminate.
  - exfalso. rewrite Ht, <- Htc, !existsb_app in Hns. cbn in Hns.
    rewrite !orb_true_r in Hns. discriminate.
  - destruct (Hbreak (eq_sym Ho)) as [-> Hout].
    exists pol, zs, k, hd, ti, es, d, sd, zs'.
    assert (Htr : trace_of r
      = setup_events cfg pol ++ assignment sequential zs ++ hd
        ++ learn_events cfg (torch_Tensor zs) k ti es d sd ++ assignment None zs'
        ++ [EvCallHook "after_run" (inr tt)]).
    { rewrite Ht, <- Htc, <- !app_assoc. reflexivity. }
    repeat split; auto.
    + rewrite Htr, (@filter_one_pass is_train); auto.
    + rewrite Htr, (@filter_one_pass is_update); auto.
  - exfalso. now apply (Hlimit (torch_Tensor zs')).
Qed.

(* ----------------------------------------------------------------- *)
(** *** The first weighted draw *)

Lemma existsb_false_Forall (p : event -> bool) t :
  existsb p t = false -> Forall (fun ev => p ev = false) t.
Proof.
  induction t as [|x t IH]; cbn; intros H; constructor;
    apply orb_false_elim in H; tauto.
Qed.

Lemma cycle_head_no_weighted k hd : cycle_head k hd -> no_weighted hd.
Proof. destruct 1; unfold no_weighted; each_event; reflexivity. Qed.

(** Without collector environments nothing is ever drawn. *)
Lemma cycle_no_weighted_0 cfg ls t o :
  collector_env_num cfg = 0 -> cycle_shape cfg ls t o -> no_weighted t.
Proof.
  intros Hn Hc.
  destruct Hc as [ | | | |k hd e t Hhd Hl|k hd ti es d sd e t Hhd Ha
                 |k hd ti es d sd zs Hhd Hlen|k hd ti es d sd zs Hhd Hlen];
    try (unfold no_weighted; each_event; reflexivity).
  - apply Forall_app; split; [now apply cycle_head_no_weighted with (k := k)|].
    destruct Hl; each_event; reflexivity.
  - apply Forall_app; split; [now apply cycle_head_no_weighted with (k := k)|].
    apply Forall_app; split; [each_event; reflexivity|].
    destruct Ha as [zs Hlen|zs Hlen|zs Hlen];
      destruct zs; cbn [length] in Hlen; try lia; each_event; reflexivity.
  - apply Forall_app; split; [now apply cycle_head_no_weighted with (k := k)|].
    destruct zs; [|cbn in Hlen; lia]. each_event; reflexivity.
  - apply Forall_app; split; [now apply cycle_head_no_weighted with (k := k)|].
    destruct zs; [|cbn in Hlen; lia]. each_event; reflexivity.
Qed.

Lemma loop_no_weighted_0 cfg ls t o :
  collector_env_num cfg = 0 -> loop_shape cfg ls t o -> no_weighted t.
Proof.
  intros Hn. induction 1 as [ls|ls t Hc|ls t e Hc|ls ls' t t' o Hc Hl IH].
  - constructor.
  - now apply cycle_no_weighted_0 with (cfg := cfg) (ls := ls) (o := Done Break).
  - now apply cycle_no_weighted_0 with (cfg := cfg) (ls := ls) (o := Raised e).
  - apply Forall_app; split; [|exact IH].
    now apply cycle_no_weighted_0
      with (cfg := cfg) (ls := ls) (o := Done (Continue ls')).
Qed.

Lemma draws_after_learn_here cfg ls k hd ti es d sd t :
  cycle_head k hd ->
  (exists x rest, is_weighted_sample x = true /\ t = x :: rest) ->
  draws_after_learn cfg ls (hd ++ learn_events cfg ls k ti es d sd ++ t).
Proof.
  intros Hhd (x & rest & Hx & ->).
  exists k, hd, ti, es, d, sd, x, rest. now rewrite <- app_assoc.
Qed.

Ltac weighted_here :=
  right; apply draws_after_learn_here; [assumption|];
  cbn [assignment samples map app]; do 2 eexists;
  (split; [|reflexivity]); reflexivity.

Lemma cycle_first_weighted cfg ls t o :
  cycle_shape cfg ls t o ->
  (no_weighted t /\
   (collector_env_num cfg = 0 \/ forall ls', o <> Done (Continue ls'))) \/
  draws_after_learn cfg ls t.
Proof.
  intros Hc.
  destruct Hc as [ | | | |k hd e t Hhd Hl|k hd ti es d sd e t Hhd Ha
                 |k hd ti es d sd zs Hhd Hlen|k hd ti es d sd zs Hhd Hlen];
    try (left; split; [unfold no_weighted; each_event; reflexivity
                      |right; discriminate]).
  - left. split; [|right; discriminate].
    apply Forall_app; split; [now apply cycle_head_no_weighted with (k := k)|].
    destruct Hl; each_event; reflexivity.
  - destruct Ha as [[|z zs] Hlen|[|z zs] Hlen|[|z zs] Hlen];
      try solve [weighted_here].
    + left. split; [|right; discriminate].
      apply Forall_app; split; [now apply cycle_head_no_weighted with (k := k)|].
      each_event; reflexivity.
    + left. split; [|right; discriminate].
      apply Forall_app; split; [now apply cycle_head_no_weighted with (k := k)|].
      each_event; reflexivity.
  - destruct zs as [|z zs].
    + left. split; [|right; discriminate].
      apply Forall_app; split; [now apply cycle_head_no_weighted with (k := k)|].
      each_event; reflexivity.
    + weighted_here.
  - destruct zs as [|z zs].
    + left. split; [|left; now rewrite <- Hlen].
      apply Forall_app; split; [now apply cycle_head_no_weighted with (k := k)|].
      each_event; reflexivity.
    + weighted_here.
Qed.

Lemma loop_first_weighted cfg ls t o :
  loop_shape cfg ls t o -> no_weighted t \/ draws_after_learn cfg ls t.
Proof.
  induction 1 as [ls|ls t Hc|ls t e Hc|ls ls' t t' o Hc Hl IH].
  - left. constructor.
  - destruct (cycle_first_weighted Hc) as [[Hn _]|Hd]; auto.
  - destruct (cycle_first_weighted Hc) as [[Hn _]|Hd]; auto.
  - destruct (cycle_first_weighted Hc) as [[Hn [H0|Hcont]]|Hd].
    + left. apply Forall_app; split; [assumption|].
      now apply loop_no_weighted_0 with (cfg := cfg) (ls := ls') (o := o).
    + now contradiction (Hcont ls').
    + right. destruct Hd as (k & hd & ti & es & d & sd & x & rest & Hhd & Hx & ->).
      exists k, hd, ti, es, d, sd, x, (rest ++ t').
      repeat split; auto. now rewrite <- !app_assoc.
Qed.

Lemma prologue_no_weighted cfg t o : prologue_shape cfg t o -> no_weighted t.
Proof.
  destruct 1 as [e t H|pol e t H|pol zs Hlen]; unfold no_weighted.
  - destruct H; each_event; reflexivity.
  - apply Forall_app; split; [each_event; reflexivity|].
    destruct H; each_event; reflexivity.
  - each_event; reflexivity.
Qed.

Lemma run_first_weighted cfg t o :
  run_shape cfg t o ->
  no_weighted t \/
  exists zs pre x rest,
    length zs = collector_env_num cfg /\ first_pass_learned cfg pre zs /\
    is_weighted_sample x = true /\ no_weighted pre /\ t = pre ++ x :: rest.
Proof.
  assert (Hloop : forall pol ls tp tl ol tail,
    prologue_shape cfg tp (Done (pol, ls)) -> loop_shape cfg ls tl ol ->
    no_weighted tail ->
    no_weighted (tp ++ tl ++ tail) \/
    exists zs pre x rest,
      length zs = collector_env_num cfg /\ first_pass_learned cfg pre zs /\
      is_weighted_sample x = true /\ no_weighted pre /\
      tp ++ tl ++ tail = pre ++ x :: rest).
  { intros pol ls tp tl ol tail Hp Hl Htail.
    pose proof (prologue_no_weighted Hp) as Hnp.
    inversion Hp as [ | |pol' zs Hlen Htp Ho]. subst.
    destruct (loop_first_weighted Hl) as [Hn|Hd].
    - left. apply Forall_app; split; [assumption|].
      apply Forall_app; split; assumption.
    - right. destruct Hd as (k & hd & ti & es & d & sd & x & rest & Hhd & Hx & ->).
      exists zs, (setup_events cfg pol ++ assignment sequential zs ++ hd
                  ++ learn_events cfg (torch_Tensor zs) k ti es d sd),
        x, (rest ++ tail).
      repeat split; auto.
      + now exists pol, k, hd, ti, es, d, sd.
      + rewrite app_assoc. apply Forall_app; split; [assumption|].
        apply Forall_app; split; [now apply cycle_head_no_weighted with (k := k)|].
        each_event; reflexivity.
      + now rewrite <- !app_assoc. }
  destruct 1 as [t e Hp|pol ls t t' e Hp Hl|pol ls t t' Hp Hl
                |pol ls t t' e Hp Hl|pol ls t t' Hp Hl].
  - left. now apply prologue_no_weighted with (cfg := cfg) (o := Raised e).
  - rewrite <- (app_nil_r t'). eapply Hloop; eauto. constructor.
  - rewrite <- (app_nil_r t'). eapply Hloop; eauto. constructor.
  - eapply Hloop; eauto. each_event; reflexivity.
  - eapply Hloop; eauto. each_event; reflexivity.
Qed.

Lemma sequential_levels_app t1 t2 :
  sequential_levels (t1 ++ t2) = sequential_levels t1 ++ sequential_levels t2.
Proof.
  induction t1 as [|x t1 IH]; cbn [sequential_levels app]; [reflexivity|].
  destruct (sequential_level x); cbn [app]; now rewrite IH.
Qed.

Lemma sequential_levels_samples zs :
  sequential_levels (samples sequential zs) = zs.
Proof.
  induction zs as [|z zs IH]; [reflexivity|].
  change (sequential_levels (samples sequential (z :: zs)))
    with (z :: sequential_levels (samples sequential zs)).
  now rewrite IH.
Qed.

Lemma sequential_levels_first_pass cfg pre zs :
  first_pass_learned cfg pre zs -> sequential_levels pre = zs.
Proof.
  intros (pol & k & hd & ti & es & d & sd & Hhd & ->).
  unfold assignment.
  rewrite !sequential_levels_app, sequential_levels_samples.
  destruct Hhd; cbn; now rewrite !app_nil_r.
Qed.

(** Fewer draws than levels leave a level of the pool out. *)
Lemma pool_not_covered (num_seeds base_seed : Z) (zs : list Z) :
  length zs < Z.to_nat num_seeds ->
  exists lvl, In lvl (generate_seeds num_seeds base_seed) /\ ~ In lvl zs.
Proof.
  intros Hlen.
  destruct (Forall_Exists_dec (fun lvl => In lvl zs)
              (fun lvl => In_dec Z.eq_dec lvl zs)
              (generate_seeds num_seeds base_seed)) as [Hall|Hex].
  - exfalso. rewrite Forall_forall in Hall.
    pose proof (NoDup_incl_length (generate_seeds_NoDup num_seeds base_seed) Hall)
      as Hle.
    rewrite generate_seeds_length in Hle. lia.
  - apply Exists_exists in Hex. exact Hex.
Qed.

(** C1, as the code has it.  When the first weighted
    [level_sampler.sample()] of a run is called, what came before is the
    setup, one sequential round and the head, Collect and Learn of the
    first pass.  So exactly [collector_env_num] levels have been drawn
    sequentially, and with fewer than 500 collector environments some level
    of the pool has not been drawn at all. *)
Theorem weighted_sampling_follows_one_sequential_round :
  forall (cfg : Config) (max_train_iter max_env_step : Z) (fuel : nat)
         (w : world) pre x post,
    trace_of (serial_pipeline_plr cfg max_train_iter max_env_step fuel w)
    = pre ++ x :: post ->
    is_weighted_sample x = true ->
    existsb is_weighted_sample pre = false ->
    first_pass_learned cfg pre (sequential_levels pre) /\
    length (sequential_levels pre) = collector_env_num cfg /\
    (collector_env_num cfg < 500 ->
     exists lvl,
       In lvl (generate_seeds default_num_seeds default_base_seed) /\
       ~ In lvl (sequential_levels pre)).
Proof.
  intros cfg mti mes fuel w pre x post Heq Hx Hpre.
  apply existsb_false_Forall in Hpre.
  destruct (run_first_weighted (run_shape_ok cfg mti mes fuel w))
    as [Hn|(zs & pre0 & x0 & rest & Hlen & Hfp & Hx0 & Hpre0 & Ht)].
  - exfalso. now apply (@Forall_no_split is_weighted_sample _ _ _ _ Hn Heq).
  - rewrite Ht in Heq.
    destruct (@split_first is_weighted_sample _ _ _ _ _ _ Heq Hpre0 Hx0 Hpre Hx)
      as (-> & _ & _).
    rewrite (sequential_levels_first_pass Hfp).
    repeat split; auto.
    intros Hlt. apply pool_not_covered. rewrite Hlen.
    unfold default_num_seeds. lia.
Qed.

End Facts.

(* ================================================================= *)
(** ** The statements on runs of the small world

    Three runs with two collector environments:
    - limits [max_train_iter = 1] (or 0) and [max_env_step = 0], an
      evaluator that never asks to stop: one pass, then the limit;
    - limits 10 and 1000, an evaluator that asks to stop once two
      iterations are done: two passes, then the stop in the third;
    - limits 10 and 1000, environments that crash from step 2 on: one
      pass, then [EnvCrash] in the [collect] of the second. *)

Section Examples.
#[local] Existing Instance Toy.types.
#[local] Existing Instance Toy.collaborators.

Lemma toy_train_iter_monotone (A : Type) (c : plrE A) (w0 : world) :
  (train_iter w0 <= train_iter (snd (handle c w0)))%Z.
Proof.
  destruct c; cbn; try lia.
  - unfold Toy.sample. destruct strategy as [name|].
    + destruct (String.eqb name "sequential"); [|cbn; lia].
      destruct (Toy.sample_sequential (Toy.pool w0)) as [[id p]|]; cbn; lia.
    + destruct (Toy.sample_at _ (Toy.pool w0)) as [[id p]|]; cbn; lia.
  - destruct (Z.leb (Toy.crash_at w0) (Toy.steps w0)); cbn; lia.
Qed.

Lemma toy_train_advances d es (w0 w1 : world) :
  handle (Train d es) w0 = (inr tt, w1) ->
  (train_iter w0 < train_iter w1)%Z.
Proof. cbn. intros H. injection H as <-. cbn. lia. Qed.

Lemma cold_start_coverage_fails :
  ~ cold_start_coverage (trace_of (serial_pipeline_plr Toy.cfg2 1 0 1 (Toy.start 100 100))) /\
  exists p l,
    Toy.at_first_draw (world_of (serial_pipeline_plr Toy.cfg2 1 0 1 (Toy.start 100 100))) = Some p /\
    In l p /\ Toy.visit_count l = 0 /\ Toy.score l = None.
Proof.
  split.
  - intros H.
    assert (Hin : In 2%Z (generate_seeds default_num_seeds default_base_seed)).
    { apply nth_error_In with (n := 2). now vm_compute. }
    specialize (H (firstn 18 (trace_of (serial_pipeline_plr Toy.cfg2 1 0 1 (Toy.start 100 100))))
                  (EvSample None (inr 0%Z))
                  (skipn 19 (trace_of (serial_pipeline_plr Toy.cfg2 1 0 1 (Toy.start 100 100))))).
    assert (Hs : sequential_levels (firstn 18 (trace_of (serial_pipeline_plr Toy.cfg2 1 0 1 (Toy.start 100 100))))
                 = [0%Z; 1%Z]) by (now vm_compute).
    rewrite Hs in H.
    assert (H2 : In 2%Z [0%Z; 1%Z]).
    { apply H; [now vm_compute|reflexivity|now vm_compute|exact Hin]. }
    destruct H2 as [H2|[H2|[]]]; discriminate.
  - eexists. exists (Toy.fresh_level 2).
    split; [now vm_compute|].
    split; [|split; reflexivity].
    apply nth_error_In with (n := 2). reflexivity.
Qed.

(** The first weighted draw of the one-pass run is its 19th call. *)
Lemma weighted_sampling_follows_one_sequential_round_witness :
  let t := trace_of (serial_pipeline_plr Toy.cfg2 1 0 1 (Toy.start 100 100)) in
  let pre := firstn 18 t in
  let x := EvSample None (inr 0%Z) in
  t = pre ++ x :: skipn 19 t /\
  is_weighted_sample x = true /\
  existsb is_weighted_sample pre = false /\
  first_pass_learned Toy.cfg2 pre (sequential_levels pre) /\
  length (sequential_levels pre) = 2 /\
  (2 < 500 ->
   exists lvl,
     In lvl (generate_seeds default_num_seeds default_base_seed) /\
     ~ In lvl (sequential_levels pre)).
Proof.
  intros t pre x.
  assert (E : t = pre ++ x :: skipn 19 t) by (vm_compute; reflexivity).
  assert (Hx : is_weighted_sample x = true) by reflexivity.
  assert (Hpre : existsb is_weighted_sample pre = false)
    by (vm_compute; reflexivity).
  split; [exact E|]. split; [exact Hx|]. split; [exact Hpre|].
  exact (weighted_sampling_follows_one_sequential_round
           Toy.cfg2 1 0 1 (Toy.start 100 100) pre x (skipn 19 t) E Hx Hpre).
Defined.

(** The second [collect] of the stopped run is its 25th call. *)
Lemma cycle_ordering_witness :
  let t := trace_of (serial_pipeline_plr Toy.cfg2 10 1000 5 (Toy.start 2 100)) in
  let pre := firstn 24 t in
  let x := EvCollect 1 [0%Z; 1%Z] tt (inr [(0%Z, 1%Z); (1%Z, 1%Z)]) in
  t = pre ++ x :: skipn 25 t /\
  exists pre' ti0 fire evs,
    pre = pre' ++ EvCommanderStep (inr tt)
               :: EvShouldEval ti0 (inr fire) :: evs /\
    if fire : bool
    then exists ti' es rw, evs = [EvEval ti' es (inr (false, rw))]
    else evs = [].
Proof.
  intros t pre x.
  assert (E : t = pre ++ x :: skipn 25 t) by (vm_compute; reflexivity).
  split; [exact E|].
  exact (proj1 (proj2 (cycle_ordering Toy.cfg2 10 1000 5 (Toy.start 2 100)
                         pre x (skipn 25 t) E))
           1%Z [0%Z; 1%Z] tt (inr [(0%Z, 1%Z); (1%Z, 1%Z)]) eq_refl).
Defined.

(** The one-pass run has [max_train_iter = 1]. *)
Lemma train_iter_limit_terminates_witness :
  let r := serial_pipeline_plr Toy.cfg2 1 0 1 (Toy.start 100 100) in
  counts_train_iterations (Toy.start 100 100) /\
  is_raised (outcome_of r) = false /\
  existsb is_stop_eval (trace_of r) = false /\
  exists pol zs k hd ti es d sd zs',
    outcome_of r = Done pol /\
    cycle_head k hd /\
    trace_of r
    = setup_events Toy.cfg2 pol ++ assignment sequential zs ++ hd
      ++ [EvCollect ti (torch_Tensor zs) k (inr d);
          EvTrain d es (inr tt);
          EvPreprocessLearn d (ignore_done Toy.cfg2) (inr sd);
          EvUpdateWithRollouts sd (collector_env_num Toy.cfg2) (inr tt)]
      ++ assignment None zs'
      ++ [EvCallHook "after_run" (inr tt)] /\
    length (filter is_train (trace_of r)) = 1 /\
    length (filter is_update (trace_of r)) = 1.
Proof.
  intros r.
  assert (Hc : counts_train_iterations (Toy.start 100 100)).
  { split; [cbn; lia|].
    split; [exact toy_train_iter_monotone|exact toy_train_advances]. }
  assert (Hr : is_raised (outcome_of r) = false) by (vm_compute; reflexivity).
  assert (Hns : existsb is_stop_eval (trace_of r) = false)
    by (vm_compute; reflexivity).
  split; [exact Hc|]. split; [exact Hr|]. split; [exact Hns|].
  exact (@train_iter_limit_terminates _ _ Toy.cfg2 0 0 (Toy.start 100 100)
           Hc Hr Hns).
Defined.

(** The stop signal of the stopped run is its 35th call. *)
Lemma evaluator_stop_ends_the_run_witness :
  let t := trace_of (serial_pipeline_plr Toy.cfg2 10 1000 5 (Toy.start 2 100)) in
  let pre := firstn 34 t in
  let post := skipn 35 t in
  t = pre ++ EvEval 2 4 (inr (true, 4%Z)) :: post /\
  (exists pre' k ti0,
      pre = pre' ++ [EvCommanderStep (inr k); EvShouldEval ti0 (inr true)]) /\
  (exists r, post = [EvCallHook "after_run" r]) /\
  Forall (fun ev => is_collect ev = false /\ is_train ev = false) post.
Proof.
  intros t pre post.
  assert (E : t = pre ++ EvEval 2 4 (inr (true, 4%Z)) :: post)
    by (vm_compute; reflexivity).
  split; [exact E|].
  exact (evaluator_stop_ends_the_run Toy.cfg2 10 1000 5 (Toy.start 2 100)
           pre 2%Z 4%Z 4%Z post E).
Defined.

(** The third seeding of the stopped run is its 31st call. *)
Lemma active_set_invariant_witness :
  let t := trace_of (serial_pipeline_plr Toy.cfg2 10 1000 5 (Toy.start 2 100)) in
  let pre := firstn 30 t in
  let post := skipn 31 t in
  t = pre ++ EvEnvSeed [2%Z; 3%Z] (inr tt) :: post /\
  length [2%Z; 3%Z] = collector_env_num Toy.cfg2 /\
  (exists strategy pre', pre = pre' ++ samples strategy [2%Z; 3%Z]) /\
  (@inr exn unit tt = inr tt -> exists r' post', post = EvEnvReset r' :: post').
Proof.
  intros t pre post.
  assert (E : t = pre ++ EvEnvSeed [2%Z; 3%Z] (inr tt) :: post)
    by (vm_compute; reflexivity).
  split; [exact E|].
  exact (proj1 (active_set_invariant Toy.cfg2 10 1000 5 (Toy.start 2 100)
                  pre (EvEnvSeed [2%Z; 3%Z] (inr tt)) post E)
           [2%Z; 3%Z] (inr tt) eq_refl).
Defined.

(** A run with both limits at zero. *)
Lemma limits_do_not_prevent_first_cycle_witness :
  let r := serial_pipeline_plr Toy.cfg2 0 0 1 (Toy.start 100 100) in
  is_raised (outcome_of r) = false /\
  exists pol zs c rest,
    trace_of r
    = setup_events Toy.cfg2 pol ++ assignment sequential zs ++ c ++ rest /\
    (stopping_pass c \/
     exists k hd ti es d sd zs',
       cycle_head k hd /\
       length zs' = collector_env_num Toy.cfg2 /\
       c = hd
           ++ [EvCollect ti (torch_Tensor zs) k (inr d);
               EvTrain d es (inr tt);
               EvPreprocessLearn d (ignore_done Toy.cfg2) (inr sd);
               EvUpdateWithRollouts sd (collector_env_num Toy.cfg2) (inr tt)]
           ++ assignment None zs').
Proof.
  intros r.
  assert (Hr : is_raised (outcome_of r) = false) by (vm_compute; reflexivity).
  split; [exact Hr|].
  exact (limits_do_not_prevent_first_cycle Toy.cfg2 0 0 0 (Toy.start 100 100) Hr).
Defined.

(** The one-pass run ends at the limit, not at the evaluator. *)
Lemma final_reseed_is_not_collected_witness :
  let r := serial_pipeline_plr Toy.cfg2 1 0 1 (Toy.start 100 100) in
  outcome_of r = Done tt /\
  existsb is_stop_eval (trace_of r) = false /\
  exists pre sd zs,
    length zs = collector_env_num Toy.cfg2 /\
    trace_of r
    = pre
      ++ [EvUpdateWithRollouts sd (collector_env_num Toy.cfg2) (inr tt)]
      ++ samples None zs
      ++ [EvEnvSeed zs (inr tt); EvEnvReset (inr tt);
          EvCallHook "after_run" (inr tt)].
Proof.
  intros r.
  assert (Ho : outcome_of r = Done tt) by (vm_compute; reflexivity).
  assert (Hns : existsb is_stop_eval (trace_of r) = false)
    by (vm_compute; reflexivity).
  split; [exact Ho|]. split; [exact Hns|].
  exact (final_reseed_is_not_collected Toy.cfg2 1 0 1 (Toy.start 100 100) Ho Hns).
Defined.

(** The third call of the one-pass run builds the sampler. *)
Lemma level_pool_generation_witness :
  length (generate_seeds 500 0) = 500 /\
  nth_error (generate_seeds 3 10) 2 = Some 12%Z /\
  exists a,
    nth_error (trace_of (serial_pipeline_plr Toy.cfg2 1 0 1 (Toy.start 100 100))) 2
    = Some (EvLevelSamplerInit (map Z.of_nat (seq 0 500)) tt tt 2 tt a).
Proof.
  split; [exact (proj1 (proj1 level_pool_generation 500%Z 0%Z))|].
  split.
  - apply (proj2 (proj1 level_pool_generation 3%Z 10%Z) 2). cbn. lia.
  - destruct (proj2 (proj2 (@level_pool_generation _ Toy.collaborators)
                       Toy.cfg2 1%Z 0%Z 1 (Toy.start 100 100)))
      as [H|(e & Ho & _)].
    + exact H.
    + vm_compute in Ho. discriminate Ho.
Defined.

(** The crash of the crashed run is its 25th and last call. *)
Lemma error_propagation_without_retry_witness :
  let r := serial_pipeline_plr Toy.cfg2 10 1000 5 (Toy.start 100 2) in
  let pre := firstn 24 (trace_of r) in
  let x := EvCollect 1 [0%Z; 1%Z] tt (inl "EnvCrash"%string) in
  trace_of r = pre ++ x :: [] /\
  failure x = Some "EnvCrash"%string /\
  @nil event = [] /\
  outcome_of r = Raised "EnvCrash"%string.
Proof.
  intros r pre x.
  assert (E : trace_of r = pre ++ x :: []) by (vm_compute; reflexivity).
  assert (Hx : failure x = Some "EnvCrash"%string) by reflexivity.
  split; [exact E|]. split; [exact Hx|].
  exact (proj1 (error_propagation_without_retry Toy.cfg2 10 1000 5
                  (Toy.start 100 2))
           pre x [] "EnvCrash"%string E Hx).
Defined.

End Examples.

(* ================================================================= *)
(** ** More on the level pool *)

(** X1.  The pool holds exactly the integers from [base_seed] up to, but
    not including, [base_seed + num_seeds]; with [num_seeds <= 0] it holds
    nothing. *)
Theorem generate_seeds_members :
  forall num_seeds base_seed z : Z,
    In z (generate_seeds num_seeds base_seed)
    <-> (base_seed <= z < base_seed + num_seeds)%Z.
Proof.
  intros n b z. unfold generate_seeds, range. rewrite map_map, in_map_iff.
  split.
  - intros (i & <- & Hi). apply in_seq in Hi. lia.
  - intros Hz. exists (Z.to_nat (z - b)). split; [lia|].
    apply in_seq. lia.
Qed.

(** X2.  The pool is strictly increasing: a level further in the list is
    a greater integer, so no level occurs twice. *)
Theorem generate_seeds_increasing :
  forall (num_seeds base_seed : Z) (i j : nat) (x y : Z),
    i < j ->
    nth_error (generate_seeds num_seeds base_seed) i = Some x ->
    nth_error (generate_seeds num_seeds base_seed) j = Some y ->
    (x < y)%Z.
Proof.
  intros n b i j x y Hij Hx Hy.
  assert (Hj : j < Z.to_nat n).
  { rewrite <- (generate_seeds_length n b). apply nth_error_Some. congruence. }
  rewrite generate_seeds_nth in Hx, Hy by lia.
  injection Hx as <-. injection Hy as <-. lia.
Qed.

Lemma generate_seeds_increasing_witness :
  1 < 3 /\
  nth_error (generate_seeds 5 10) 1 = Some 11%Z /\
  nth_error (generate_seeds 5 10) 3 = Some 13%Z /\
  (11 < 13)%Z.
Proof.
  assert (H1 : 1 < 3) by lia.
  assert (Hx : nth_error (generate_seeds 5 10) 1 = Some 11%Z) by reflexivity.
  assert (Hy : nth_error (generate_seeds 5 10) 3 = Some 13%Z) by reflexivity.
  split; [exact H1|]. split; [exact Hx|]. split; [exact Hy|].
  exact (generate_seeds_increasing 5 10 H1 Hx Hy).
Defined.

(** X3.  A pool of [n + m] levels is the pool of the first [n] followed by
    a pool of [m] levels that starts where the first ends. *)
Theorem generate_seeds_app :
  forall n m base_seed : Z,
    (0 <= n)%Z -> (0 <= m)%Z ->
    generate_seeds (n + m) base_seed
    = generate_seeds n base_seed ++ generate_seeds m (base_seed + n).
Proof.
  intros n m b Hn Hm. unfold generate_seeds, range.
  rewrite !map_map, Z2Nat.inj_add, seq_app, map_app by lia.
  f_equal. cbn [Nat.add].
  rewrite <- (Nat.add_0_r (Z.to_nat n)) at 1.
  generalize 0 as s. induction (Z.to_nat m) as [|k IH]; intros s; cbn [seq map].
  - reflexivity.
  - f_equal; [lia|]. rewrite <- IH. f_equal. f_equal. lia.
Qed.

Lemma generate_seeds_app_witness :
  (0 <= 2)%Z /\ (0 <= 3)%Z /\
  generate_seeds (2 + 3) 7 = generate_seeds 2 7 ++ generate_seeds 3 (7 + 2).
Proof.
  assert (Hn : (0 <= 2)%Z) by lia.
  assert (Hm : (0 <= 3)%Z) by lia.
  split; [exact Hn|]. split; [exact Hm|].
  exact (generate_seeds_app 7 Hn Hm).
Defined.

(* ================================================================= *)
(** ** What flows through a run *)

Section FlowFacts.
Context {DT : DataTypes} {C : Collaborators DT}.

Lemma pick_app {A : Type} (f : event -> option A) t1 t2 :
  pick f (t1 ++ t2) = pick f t1 ++ pick f t2.
Proof.
  induction t1 as [|x t1 IH]; cbn [pick app]; [reflexivity|].
  destruct (f x); cbn [app]; now rewrite IH.
Qed.

Lemma pick_samples_none {A : Type} (f : event -> option A) s zs :
  (forall z, f (EvSample s (inr z)) = None) -> pick f (samples s zs) = [].
Proof.
  intros H. induction zs as [|z zs IH]; cbn [samples map pick]; [reflexivity|].
  now rewrite H.
Qed.

Lemma pick_samples_drawn s zs : pick drawn_level (samples s zs) = zs.
Proof.
  induction zs as [|z zs IH]; cbn [samples map pick drawn_level]; [reflexivity|].
  f_equal. exact IH.
Qed.

(** Evaluates [pick] on the pieces of a shape. *)
Ltac picks :=
  unfold assignment, learn_events, setup_events;
  cbn [firstn];
  rewrite ?pick_app;
  rewrite ?pick_samples_none by reflexivity;
  cbn [pick app collected_batch trained_batch learnt_batch preprocessed_batch
       stacked_batch scored_batch seeded_levels hook_name].

(** Two readings that agree on every part of a run agree on the run. *)
Lemma run_picks_agree {A : Type} (f g : event -> option A) cfg :
  (forall t o, prologue_shape cfg t o -> pick f t = pick g t) ->
  (forall ls t o, cycle_shape cfg ls t o -> pick f t = pick g t) ->
  (forall r, pick f [EvCallHook "after_run" r] = pick g [EvCallHook "after_run" r]) ->
  forall t o, run_shape cfg t o -> pick f t = pick g t.
Proof.
  intros Hp Hc Ha.
  assert (Hl : forall ls t o, loop_shape cfg ls t o -> pick f t = pick g t).
  { induction 1 as [ls|ls t Hcy|ls t e Hcy|ls ls' t t' o Hcy Hlo IH].
    - reflexivity.
    - exact (Hc _ _ _ Hcy).
    - exact (Hc _ _ _ Hcy).
    - rewrite !pick_app, IH. f_equal. exact (Hc _ _ _ Hcy). }
  intros t o Hrun.
  destruct Hrun as [t e Hpr|pol ls t t' e Hpr Hlo|pol ls t t' Hpr Hlo
                   |pol ls t t' e Hpr Hlo|pol ls t t' Hpr Hlo];
    rewrite ?pick_app; rewrite ?Ha;
    try rewrite (Hp _ _ Hpr); try rewrite (Hl _ _ _ Hlo); reflexivity.
Qed.

Lemma prologue_picks_nothing {A : Type} (f : event -> option A) cfg t o :
  (forall s r, f (EvCollectorEnvSeedCfg s r) = None) ->
  (forall s r, f (EvEvaluatorEnvSeedCfg s r) = None) ->
  (forall l a b n c r, f (EvLevelSamplerInit l a b n c r) = None) ->
  (forall s c r, f (EvSetPkgSeed s c r) = None) ->
  (forall r, f (EvCreatePolicy r) = None) ->
  (forall r, f (EvCreateWorkers r) = None) ->
  (forall h r, f (EvCallHook h r) = None) ->
  (forall s r, f (EvSample s r) = None) ->
  (forall l r, f (EvEnvSeed l r) = None) ->
  (forall r, f (EvEnvReset r) = None) ->
  prologue_shape cfg t o -> pick f t = [].
Proof.
  intros H1 H2 H3 H4 H5 H6 H7 H8 H9 H10 Hp.
  assert (Hs : forall pol k, pick f (firstn k (setup_events cfg pol)) = []).
  { intros pol k. unfold setup_events.
    do 8 (destruct k as [|k]; cbn [firstn pick];
          rewrite ?H1, ?H2, ?H3, ?H4, ?H5, ?H6, ?H7; try reflexivity). }
  assert (Hs' : forall pol, pick f (setup_events cfg pol) = []).
  { intros pol. exact (Hs pol 7). }
  destruct Hp as [e t H|pol e t H|pol zs Hlen].
  - destruct H; rewrite ?pick_app, ?Hs; cbn [pick];
      rewrite ?H1, ?H2, ?H3, ?H4, ?H5, ?H6, ?H7; reflexivity.
  - rewrite pick_app, Hs'.
    destruct H; rewrite pick_app, pick_samples_none by auto; cbn [pick app];
      rewrite ?H8, ?H9, ?H10; reflexivity.
  - unfold assignment. rewrite !pick_app, Hs', pick_samples_none by auto.
    cbn [pick app]. now rewrite H9, H10.
Qed.

(** X4.  Nothing collected is dropped or used twice: in every run the
    batches given to [learner.train] are, in order, the batches that
    [collector.collect] returned; the batches preprocessed for the sampler
    are those whose [train] returned; and [update_with_rollouts] gets, in
    order, what [default_preprocess_learn] returned. *)
Theorem batches_flow_to_learner_and_sampler :
  forall (cfg : Config) (max_train_iter max_env_step : Z) (fuel : nat)
         (w : world),
    let t := trace_of (serial_pipeline_plr cfg max_train_iter max_env_step fuel w) in
    pick trained_batch t = pick collected_batch t /\
    pick preprocessed_batch t = pick learnt_batch t /\
    pick scored_batch t = pick stacked_batch t.
Proof.
  intros cfg mti mes fuel w t.
  pose proof (run_shape_ok cfg mti mes fuel w) as Hrun. fold t in Hrun.
  assert (Hcy : forall ls c o, cycle_shape cfg ls c o ->
            pick trained_batch c = pick collected_batch c /\
            pick preprocessed_batch c = pick learnt_batch c /\
            pick scored_batch c = pick stacked_batch c).
  { intros ls c o Hc.
    destruct Hc as [ | | | |k hd e c [|] Hl|k hd ti es d sd e c [|] Ha
                   |k hd ti es d sd zs [|] Hlen|k hd ti es d sd zs [|] Hlen];
      try destruct Hl; try destruct Ha; picks; repeat split; reflexivity. }
  repeat split.
  - apply (run_picks_agree trained_batch collected_batch (cfg := cfg))
      with (o := outcome_of (serial_pipeline_plr cfg mti mes fuel w));
      [| |reflexivity|exact Hrun].
    + intros tp o Hp.
      rewrite (prologue_picks_nothing trained_batch) with (cfg := cfg) (o := o),
              (prologue_picks_nothing collected_batch) with (cfg := cfg) (o := o);
        auto.
    + intros ls c o Hc. exact (proj1 (Hcy ls c o Hc)).
  - apply (run_picks_agree preprocessed_batch learnt_batch (cfg := cfg))
      with (o := outcome_of (serial_pipeline_plr cfg mti mes fuel w));
      [| |reflexivity|exact Hrun].
    + intros tp o Hp.
      rewrite (prologue_picks_nothing preprocessed_batch) with (cfg := cfg) (o := o),
              (prologue_picks_nothing learnt_batch) with (cfg := cfg) (o := o);
        auto.
    + intros ls c o Hc. exact (proj1 (proj2 (Hcy ls c o Hc))).
  - apply (run_picks_agree scored_batch stacked_batch (cfg := cfg))
      with (o := outcome_of (serial_pipeline_plr cfg mti mes fuel w));
      [| |reflexivity|exact Hrun].
    + intros tp o Hp.
      rewrite (prologue_picks_nothing scored_batch) with (cfg := cfg) (o := o),
              (prologue_picks_nothing stacked_batch) with (cfg := cfg) (o := o);
        auto.
    + intros ls c o Hc. exact (proj2 (proj2 (Hcy ls c o Hc))).
Qed.

Lemma levels_assigned_app {A B : Type} cfg a t (x : A) (o : outcome B) :
  levels_assigned cfg a (Done x) -> levels_assigned cfg t o ->
  levels_assigned cfg (a ++ t) o.
Proof.
  intros (ra & Ha & [->|[_ Hra]]) (rt & Ht & Hrt); [|discriminate].
  exists rt. rewrite !pick_app, concat_app, Ha, Ht, app_nil_r, app_assoc. auto.
Qed.

Lemma levels_assigned_quiet {A : Type} cfg t (o : outcome A) :
  pick drawn_level t = [] -> pick seeded_levels t = [] ->
  levels_assigned cfg t o.
Proof. intros Hd Hs. exists []. rewrite Hd, Hs. auto. Qed.

Lemma levels_assigned_round {A : Type} cfg s zs (o : outcome A) :
  levels_assigned cfg (assignment s zs) o.
Proof.
  exists []. unfold assignment.
  rewrite !pick_app, pick_samples_drawn, pick_samples_none by reflexivity.
  cbn. rewrite !app_nil_r. auto.
Qed.

Lemma levels_assigned_round_raises {A : Type} cfg s e t :
  assignment_raises (collector_env_num cfg) s e t ->
  levels_assigned cfg t (@Raised _ A e).
Proof.
  destruct 1 as [zs Hlen|zs Hlen|zs Hlen].
  - exists zs.
    rewrite !pick_app, pick_samples_drawn, pick_samples_none by reflexivity.
    cbn. rewrite app_nil_r. auto.
  - exists [].
    rewrite !pick_app, pick_samples_drawn, pick_samples_none by reflexivity.
    cbn. rewrite !app_nil_r. auto.
  - exists [].
    rewrite !pick_app, pick_samples_drawn, pick_samples_none by reflexivity.
    cbn. rewrite !app_nil_r. auto.
Qed.

Lemma prologue_levels_assigned cfg t o :
  prologue_shape cfg t o -> levels_assigned cfg t o.
Proof.
  intros Hp.
  assert (Hq : forall pol k (o' : outcome unit),
            levels_assigned cfg (firstn k (setup_events cfg pol)) o').
  { intros pol k o'. apply levels_assigned_quiet; unfold setup_events;
      do 8 (destruct k as [|k]; try reflexivity). }
  destruct Hp as [e t H|pol e t H|pol zs Hlen].
  - apply levels_assigned_quiet; destruct H; reflexivity.
  - apply levels_assigned_app with (x := tt); [exact (Hq pol 7 _)|].
    now apply levels_assigned_round_raises with (s := sequential).
  - apply levels_assigned_app with (x := tt); [exact (Hq pol 7 _)|].
    apply levels_assigned_round.
Qed.

Lemma cycle_levels_assigned cfg ls t o :
  cycle_shape cfg ls t o -> levels_assigned cfg t o.
Proof.
  intros Hc.
  assert (Hhd : forall k hd, cycle_head k hd ->
            levels_assigned cfg hd (Done tt)).
  { intros k hd []; now apply levels_assigned_quiet. }
  assert (Hle : forall k ti es d sd,
            levels_assigned cfg (learn_events cfg ls k ti es d sd) (Done tt)).
  { intros. now apply levels_assigned_quiet. }
  destruct Hc as [ | | | |k hd e t H Hl|k hd ti es d sd e t H Ha
                 |k hd ti es d sd zs H Hlen|k hd ti es d sd zs H Hlen];
    try (now apply levels_assigned_quiet).
  - apply levels_assigned_app with (x := tt); [exact (Hhd _ _ H)|].
    destruct Hl; now apply levels_assigned_quiet.
  - apply levels_assigned_app with (x := tt); [exact (Hhd _ _ H)|].
    apply levels_assigned_app with (x := tt); [apply Hle|].
    now apply levels_assigned_round_raises with (s := None).
  - apply levels_assigned_app with (x := tt); [exact (Hhd _ _ H)|].
    apply levels_assigned_app with (x := tt); [apply Hle|].
    apply levels_assigned_round.
  - apply levels_assigned_app with (x := tt); [exact (Hhd _ _ H)|].
    apply levels_assigned_app with (x := tt); [apply Hle|].
    apply levels_assigned_round.
Qed.

Lemma loop_levels_assigned cfg ls t o :
  loop_shape cfg ls t o -> levels_assigned cfg t o.
Proof.
  induction 1 as [ls|ls t Hc|ls t e Hc|ls ls' t t' o Hc Hl IH].
  - now apply levels_assigned_quiet.
  - apply cycle_levels_assigned in Hc.
    destruct Hc as (rest & Hd & [->|[_ Hr]]); [|discriminate].
    exists []. auto.
  - now apply cycle_levels_assigned in Hc.
  - apply levels_assigned_app with (x := Continue ls'); [|exact IH].
    exact (cycle_levels_assigned Hc).
Qed.

(** X5.  Every level the sampler returns is handed to the environments:
    in every run the levels drawn, in the order of the draws, are the
    concatenation of the lists given to [collector_env.seed], followed only
    by the draws of a round that a raising sampler call cut short (fewer
    than one per environment).  In a run that does not raise the two
    coincide. *)
Theorem drawn_levels_are_assigned :
  forall (cfg : Config) (max_train_iter max_env_step : Z) (fuel : nat)
         (w : world),
    let r := serial_pipeline_plr cfg max_train_iter max_env_step fuel w in
    exists rest,
      pick drawn_level (trace_of r)
      = concat (pick seeded_levels (trace_of r)) ++ rest /\
      (rest = [] \/
       (length rest < collector_env_num cfg /\ is_raised (outcome_of r) = true)).
Proof.
  intros cfg mti mes fuel w r. subst r.
  change (levels_assigned cfg
            (trace_of (serial_pipeline_plr cfg mti mes fuel w))
            (outcome_of (serial_pipeline_plr cfg mti mes fuel w))).
  destruct (run_shape_ok cfg mti mes fuel w)
    as [t e Hp|pol ls t t' e Hp Hl|pol ls t t' Hp Hl
       |pol ls t t' e Hp Hl|pol ls t t' Hp Hl];
    try apply prologue_levels_assigned in Hp;
    try apply loop_levels_assigned in Hl.
  - exact Hp.
  - destruct Hp as (rest & Hd & [->|[_ Hr]]); [|discriminate].
    apply levels_assigned_app with (x := tt); [exists []; auto|exact Hl].
  - destruct Hp as (rest & Hd & [->|[_ Hr]]); [|discriminate].
    apply levels_assigned_app with (x := tt); [exists []; auto|].
    destruct Hl as (rest & Hd' & [->|[_ Hr]]); [|discriminate].
    exists []. auto.
  - destruct Hp as (rest & Hd & [->|[_ Hr]]); [|discriminate].
    apply levels_assigned_app with (x := tt); [exists []; auto|].
    apply levels_assigned_app with (x := tt); [exact Hl|].
    now apply levels_assigned_quiet.
  - destruct Hp as (rest & Hd & [->|[_ Hr]]); [|discriminate].
    apply levels_assigned_app with (x := tt); [exists []; auto|].
    destruct Hl as (rest & Hd' & [->|[_ Hr]]); [|discriminate].
    apply levels_assigned_app with (x := tt); [exists []; auto|].
    now apply levels_assigned_quiet.
Qed.

Lemma cycle_picks_nothing {A : Type} (f : event -> option A) cfg ls t o :
  (forall r, f (EvCommanderStep r) = None) ->
  (forall ti r, f (EvShouldEval ti r) = None) ->
  (forall ti es r, f (EvEval ti es r) = None) ->
  (forall ti l k r, f (EvCollect ti l k r) = None) ->
  (forall d es r, f (EvTrain d es r) = None) ->
  (forall d b r, f (EvPreprocessLearn d b r) = None) ->
  (forall sd n r, f (EvUpdateWithRollouts sd n r) = None) ->
  (forall s r, f (EvSample s r) = None) ->
  (forall l r, f (EvEnvSeed l r) = None) ->
  (forall r, f (EvEnvReset r) = None) ->
  cycle_shape cfg ls t o -> pick f t = [].
Proof.
  intros H1 H2 H3 H4 H5 H6 H7 H8 H9 H10 Hc.
  assert (Hs : forall s zs, pick f (samples s zs) = []).
  { intros. apply pick_samples_none. auto. }
  destruct Hc as [ | | | |k hd e t [|] Hl|k hd ti es d sd e t [|] Ha
                 |k hd ti es d sd zs [|] Hlen|k hd ti es d sd zs [|] Hlen];
    try destruct Hl; try destruct Ha;
    unfold assignment, learn_events; rewrite ?pick_app, ?Hs; cbn [pick app];
    rewrite ?H1, ?H2, ?H3, ?H4, ?H5, ?H6, ?H7, ?H8, ?H9, ?H10; reflexivity.
Qed.

Lemma loop_picks_nothing {A : Type} (f : event -> option A) cfg ls t o :
  (forall ls c o, cycle_shape cfg ls c o -> pick f c = []) ->
  loop_shape cfg ls t o -> pick f t = [].
Proof.
  intros Hc. induction 1 as [ls|ls t Hcy|ls t e Hcy|ls ls' t t' o Hcy Hl IH];
    rewrite ?pick_app, ?IH; try rewrite (Hc _ _ _ Hcy); reflexivity.
Qed.

Lemma loop_no_hooks cfg ls t o :
  loop_shape cfg ls t o -> pick hook_name t = [].
Proof.
  apply loop_picks_nothing. intros ls' c o' Hc.
  now apply cycle_picks_nothing with (cfg := cfg) (ls := ls') (o := o').
Qed.

Lemma loop_no_policy cfg ls t o :
  loop_shape cfg ls t o -> pick created_policy t = [].
Proof.
  apply loop_picks_nothing. intros ls' c o' Hc.
  now apply cycle_picks_nothing with (cfg := cfg) (ls := ls') (o := o').
Qed.

Lemma prologue_hooks cfg t o :
  prologue_shape cfg t o ->
  pick hook_name t = [] \/ pick hook_name t = ["before_run"%string].
Proof.
  destruct 1 as [e t H|pol e t H|pol zs Hlen].
  - destruct H; cbn; auto.
  - right. rewrite pick_app.
    destruct H; rewrite pick_app, pick_samples_none by reflexivity; reflexivity.
  - right. unfold assignment.
    rewrite !pick_app, pick_samples_none by reflexivity. reflexivity.
Qed.

Lemma prologue_done_picks cfg t pol ls :
  prologue_shape cfg t (Done (pol, ls)) ->
  pick hook_name t = ["before_run"%string] /\ pick created_policy t = [pol].
Proof.
  intros Hp. inversion Hp as [ | |pol' zs Hlen Ht Ho]. unfold assignment.
  rewrite !pick_app, !pick_samples_none by reflexivity. split; reflexivity.
Qed.

(** X6.  The learner's hooks are run in order and at most once each: the
    hooks called in a run are none, or [before_run] alone, or [before_run]
    and then [after_run]. *)
Theorem hooks_run_in_order :
  forall (cfg : Config) (max_train_iter max_env_step : Z) (fuel : nat)
         (w : world),
    let names :=
      pick hook_name
        (trace_of (serial_pipeline_plr cfg max_train_iter max_env_step fuel w)) in
    names = [] \/ names = ["before_run"%string] \/
    names = ["before_run"%string; "after_run"%string].
Proof.
  intros cfg mti mes fuel w names. subst names.
  destruct (run_shape_ok cfg mti mes fuel w)
    as [t e Hp|pol ls t t' e Hp Hl|pol ls t t' Hp Hl
       |pol ls t t' e Hp Hl|pol ls t t' Hp Hl];
    rewrite ?pick_app;
    try rewrite (loop_no_hooks Hl);
    try rewrite (proj1 (prologue_done_picks Hp)); cbn; auto.
  destruct (prologue_hooks Hp); auto.
Qed.

(** X7.  A run that returns gives back the policy that [create_policy]
    returned, the only one created, and does so right after the
    [after_run] hook returned. *)
Theorem returns_the_created_policy :
  forall (cfg : Config) (max_train_iter max_env_step : Z) (fuel : nat)
         (w : world) (pol : policy),
    let r := serial_pipeline_plr cfg max_train_iter max_env_step fuel w in
    outcome_of r = Done pol ->
    pick created_policy (trace_of r) = [pol] /\
    pick hook_name (trace_of r) = ["before_run"%string; "after_run"%string] /\
    exists pre, trace_of r = pre ++ [EvCallHook "after_run" (inr tt)].
Proof.
  intros cfg mti mes fuel w pol r Ho. subst r.
  pose proof (run_shape_ok cfg mti mes fuel w) as Hrun.
  rewrite Ho in Hrun.
  inversion Hrun as [ | | | |pol' ls tp tl Hp Hl Ht Hpol]. subst pol'.
  destruct (prologue_done_picks Hp) as [Hh Hc].
  rewrite !pick_app, Hh, Hc, (loop_no_hooks Hl), (loop_no_policy Hl).
  repeat split. exists (tp ++ tl). now rewrite app_assoc.
Qed.

(** Breaks [Forall P t] into one goal per entry of [t]. *)
Ltac every_event :=
  cbn [setup_events learn_events assignment firstn app];
  repeat first
    [ apply Forall_nil
    | apply Forall_cons
    | apply Forall_app; split
    | apply Forall_samples; intros ].

Lemma split_in_prefix (p : event -> bool) tp rest pre x post :
  tp ++ rest = pre ++ x :: post ->
  Forall (fun ev => p ev = false) rest -> p x = true ->
  exists post', tp = pre ++ x :: post'.
Proof.
  intros Heq Hrest Hx. apply app_eq_app in Heq.
  destruct Heq as (l & [[-> Hl]|[-> Hl]]).
  - destruct l as [|y l]; cbn in Hl.
    + exfalso. rewrite <- Hl in Hrest. inversion Hrest; subst. congruence.
    + injection Hl as <- _. now exists l.
  - exfalso. rewrite Hl in Hrest. apply Forall_app in Hrest.
    destruct Hrest as [_ Hrest]. inversion Hrest; subst. congruence.
Qed.

Lemma cycle_no_sequential cfg ls t o :
  cycle_shape cfg ls t o ->
  Forall (fun ev => is_sequential_sample ev = false) t.
Proof.
  intros Hc.
  destruct Hc as [ | | | |k hd e t [|] Hl|k hd ti es d sd e t [|] Ha
                 |k hd ti es d sd zs [|] Hlen|k hd ti es d sd zs [|] Hlen];
    try destruct Hl; try destruct Ha; every_event; reflexivity.
Qed.

Lemma loop_no_sequential cfg ls t o :
  loop_shape cfg ls t o ->
  Forall (fun ev => is_sequential_sample ev = false) t.
Proof.
  induction 1 as [ls|ls t Hc|ls t e Hc|ls ls' t t' o Hc Hl IH].
  - constructor.
  - exact (cycle_no_sequential Hc).
  - exact (cycle_no_sequential Hc).
  - apply Forall_app; split; [exact (cycle_no_sequential Hc)|exact IH].
Qed.

Lemma prologue_before_loop cfg t o :
  prologue_shape cfg t o ->
  Forall (fun ev => is_commander_step ev = false) t /\
  length (filter is_sequential_sample t) <= collector_env_num cfg.
Proof.
  assert (Hf : forall zs, filter is_sequential_sample (samples sequential zs)
                          = samples sequential zs).
  { induction zs as [|z zs IH]; cbn; [reflexivity|]. f_equal. exact IH. }
  assert (Hlen : forall zs, length (samples sequential zs) = length zs).
  { intros. unfold samples. apply length_map. }
  destruct 1 as [e t H|pol e t H|pol zs Hl].
  - destruct H; (split; [every_event; reflexivity|cbn; lia]).
  - split.
    + apply Forall_app; split; [every_event; reflexivity|].
      destruct H; every_event; reflexivity.
    + rewrite filter_app. cbn [setup_events filter is_sequential_sample app].
      destruct H as [zs Hl|zs Hl|zs Hl]; rewrite filter_app, Hf, length_app, Hlen;
        cbn; lia.
  - split; [every_event; reflexivity|].
    unfold assignment. rewrite !filter_app, Hf, !length_app, Hlen. cbn. lia.
Qed.

(** X8.  Sequential draws belong to the first round only: a sampler call
    with a strategy argument is never made once [commander.step] has been
    called, and a run makes at most one such call per collector
    environment. *)
Theorem sequential_draws_precede_the_loop :
  forall (cfg : Config) (max_train_iter max_env_step : Z) (fuel : nat)
         (w : world),
    let t := trace_of (serial_pipeline_plr cfg max_train_iter max_env_step fuel w) in
    (forall pre x post,
        t = pre ++ x :: post -> is_sequential_sample x = true ->
        existsb is_commander_step pre = false) /\
    length (filter is_sequential_sample t) <= collector_env_num cfg.
Proof.
  intros cfg mti mes fuel w t.
  assert (H : exists tp rest,
             t = tp ++ rest /\
             Forall (fun ev => is_commander_step ev = false) tp /\
             length (filter is_sequential_sample tp) <= collector_env_num cfg /\
             Forall (fun ev => is_sequential_sample ev = false) rest).
  { subst t.
    destruct (run_shape_ok cfg mti mes fuel w)
      as [t e Hp|pol ls t t' e Hp Hl|pol ls t t' Hp Hl
         |pol ls t t' e Hp Hl|pol ls t t' Hp Hl];
      destruct (prologue_before_loop Hp) as [Hc Hn];
      try pose proof (loop_no_sequential Hl) as Hs.
    - exists t, []. rewrite app_nil_r. repeat split; auto.
    - exists t, t'. auto.
    - exists t, t'. auto.
    - exists t, (t' ++ [EvCallHook "after_run" (inl e)]). repeat split; auto.
      apply Forall_app; split; [exact Hs|every_event; reflexivity].
    - exists t, (t' ++ [EvCallHook "after_run" (inr tt)]). repeat split; auto.
      apply Forall_app; split; [exact Hs|every_event; reflexivity]. }
  destruct H as (tp & rest & Ht & Hc & Hn & Hs). split.
  - intros pre x post Heq Hx. rewrite Ht in Heq.
    destruct (@split_in_prefix is_sequential_sample _ _ _ _ _ Heq Hs Hx) as (post' & ->).
    apply Forall_app in Hc. destruct Hc as [Hc _].
    clear - Hc. induction Hc as [|y l Hy _ IH]; cbn; [reflexivity|].
    now rewrite Hy, IH.
  - rewrite Ht, filter_app, length_app.
    assert (Hr : filter is_sequential_sample rest = []).
    { clear - Hs. induction Hs as [|y l Hy _ IH]; cbn; [reflexivity|].
      now rewrite Hy. }
    rewrite Hr. cbn. lia.
Qed.

End FlowFacts.

(* ================================================================= *)
(** ** The loop ends *)

Section Termination.
Context {DT : DataTypes} {C : Collaborators DT}.

Hypothesis train_iter_monotone :
  forall (A : Type) (c : plrE A) (w : world),
    (train_iter w <= train_iter (snd (handle c w)))%Z.

Hypothesis train_advances :
  forall d es (w0 w1 : world),
    handle (Train d es) w0 = (inr tt, w1) ->
    (train_iter w0 < train_iter w1)%Z.

Ltac counted_call :=
  match goal with
  | |- context [handle ?c ?w] =>
      let e := fresh "e" in
      let a := fresh "a" in
      let w' := fresh "w" in
      let Hm := fresh "Hm" in
      let Hh := fresh "Hh" in
      pose proof (train_iter_monotone c w) as Hm;
      destruct (handle c w) as [[e|a] w'] eqn:Hh; cbn [fst snd] in *
  end.

Ltac counted_round :=
  match goal with
  | |- context [sample_round ?s ?n ?w] =>
      let t := fresh "t" in
      let zs := fresh "zs" in
      let e := fresh "e" in
      let w' := fresh "w" in
      let Hs := fresh "Hs" in
      pose proof (sample_round_grows train_iter_monotone s n w) as Hs;
      destruct (sample_round s n w) as [[t [zs|e|]] w'];
      unfold world_of in Hs; cbn [fst snd] in *
  end.

(** A pass that goes on to the next one has trained, and has found the
    counter below the limit. *)
Lemma cycle_continue_advances cfg mti mes ls w :
  match outcome_of (cycle cfg mti mes ls w) with
  | Done (Continue _) =>
      (train_iter w < train_iter (world_of (cycle cfg mti mes ls w)) < mti)%Z
  | _ => True
  end.
Proof.
  unfold cycle, outcome_of, world_of, bind, call, ret, get.
  counted_call; [exact I|].
  counted_call; [exact I|].
  match goal with b : bool |- _ => destruct b end.
  - counted_call; [exact I|].
    match goal with sr : (bool * reward)%type |- _ => destruct sr as [[|] rw] end;
      cbn [fst snd]; [exact I|].
    counted_call; [exact I|].
    counted_call; [exact I|].
    match goal with H : handle (Train _ _) _ = (inr ?u, _) |- _ =>
      destruct u; apply train_advances in H end.
    counted_call; [exact I|].
    counted_call; [exact I|].
    counted_round; try exact I.
    counted_call; [exact I|].
    counted_call; [exact I|].
    match goal with |- context [if ?b then _ else _] =>
      destruct b eqn:Hb end; cbn [fst snd]; [exact I|].
    apply orb_false_elim in Hb. destruct Hb as [_ Hb].
    apply Z.leb_gt in Hb. lia.
  - cbn [fst snd].
    counted_call; [exact I|].
    counted_call; [exact I|].
    match goal with H : handle (Train _ _) _ = (inr ?u, _) |- _ =>
      destruct u; apply train_advances in H end.
    counted_call; [exact I|].
    counted_call; [exact I|].
    counted_round; try exact I.
    counted_call; [exact I|].
    counted_call; [exact I|].
    match goal with |- context [if ?b then _ else _] =>
      destruct b eqn:Hb end; cbn [fst snd]; [exact I|].
    apply orb_false_elim in Hb. destruct Hb as [_ Hb].
    apply Z.leb_gt in Hb. lia.
Qed.

Lemma trains_are_picked t :
  length (filter is_train t) = length (pick trained_batch t).
Proof.
  induction t as [|x t IH]; [reflexivity|].
  destruct x; cbn [filter is_train pick trained_batch length]; now rewrite ?IH.
Qed.

Lemma cycle_trains_once cfg ls t o :
  cycle_shape cfg ls t o -> length (filter is_train t) <= 1.
Proof.
  intros Hc. rewrite trains_are_picked.
  destruct Hc as [ | | | |k hd e t [|] Hl|k hd ti es d sd e t [|] Ha
                 |k hd ti es d sd zs [|] Hlen|k hd ti es d sd zs [|] Hlen];
    try destruct Hl; try destruct Ha;
    unfold assignment, learn_events;
    rewrite ?pick_app, ?pick_samples_none by reflexivity; cbn; lia.
Qed.

Lemma loop_within_train_budget cfg mti mes fuel ls w :
  let r := main_loop cfg mti mes fuel ls w in
  length (filter is_train (trace_of r))
  <= Z.to_nat (Z.max 1 (mti - train_iter w)) /\
  ((mti - train_iter w <= Z.of_nat fuel)%Z -> 1 <= fuel ->
   outcome_of r <> OutOfFuel).
Proof.
  revert ls w. induction fuel as [|fuel IH]; intros ls w r; subst r.
  - cbn. split; [lia|intros _ H; lia].
  - cbn [main_loop]. unfold bind.
    pose proof (cycle_shape_ok cfg mti mes ls w) as Hc.
    pose proof (cycle_continue_advances cfg mti mes ls w) as Ha.
    destruct (cycle cfg mti mes ls w) as [[tc oc] w1].
    unfold trace_of, outcome_of, world_of in *. cbn [fst snd] in Hc, Ha.
    pose proof (cycle_trains_once Hc) as H1.
    destruct oc as [[|ls']|e|]; cbn [fst snd].
    + unfold ret. cbn [fst snd]. rewrite app_nil_r.
      split; [lia|discriminate].
    + specialize (IH ls' w1). cbv zeta in IH.
      destruct (main_loop cfg mti mes fuel ls' w1) as [[t2 o2] w2].
      cbn [fst snd] in *. destruct IH as [IHn IHo].
      rewrite filter_app, length_app. split; [lia|].
      intros Hb _. apply IHo; lia.
    + split; [lia|discriminate].
    + inversion Hc.
Qed.

End Termination.

Section TerminationFacts.
Context {DT : DataTypes} {C : Collaborators DT}.

(** X9.  With a learner that counts its train iterations, a run calls
    [learner.train] at most [max(1, max_train_iter - train_iter)] times,
    [train_iter] being read before the run; and a budget of that many
    passes is never used up: the loop ends, by one of its [break]s or by
    an exception. *)
Theorem loop_ends_within_train_budget :
  forall (cfg : Config) (max_train_iter max_env_step : Z) (fuel : nat)
         (w : world),
    counts_train_iterations w ->
    let r := serial_pipeline_plr cfg max_train_iter max_env_step fuel w in
    length (filter is_train (trace_of r))
    <= Z.to_nat (Z.max 1 (max_train_iter - train_iter w)) /\
    ((max_train_iter - train_iter w <= Z.of_nat fuel)%Z -> 1 <= fuel ->
     outcome_of r <> OutOfFuel).
Proof.
  intros cfg mti mes fuel w (_ & Hmono & Htrain) r. subst r.
  unfold serial_pipeline_plr, bind.
  pose proof (prologue_shape_ok cfg w) as Hp.
  pose proof (prologue_grows Hmono cfg w) as Hg.
  destruct (prologue cfg w) as [[tp op] w1].
  unfold trace_of, outcome_of, world_of in *. cbn [fst snd] in Hp, Hg.
  assert (Htp : length (filter is_train tp) = 0).
  { rewrite trains_are_picked.
    rewrite (prologue_picks_nothing trained_batch) with (cfg := cfg) (o := op);
      auto. }
  destruct op as [[pol ls]|e|]; cbn [fst snd].
  - pose proof (loop_within_train_budget Hmono Htrain cfg mti mes fuel ls w1)
      as Hl. cbv zeta in Hl.
    destruct (main_loop cfg mti mes fuel ls w1) as [[tl ol] w2].
    unfold trace_of, outcome_of in Hl. cbn [fst snd] in Hl.
    destruct Hl as [Hn Ho].
    destruct ol as [[]|e|]; cbn [fst snd].
    + unfold call, ret.
      destruct (handle (CallHook "after_run") w2) as [[e|[]] w3];
        cbn [fst snd log];
        rewrite ?app_nil_r, !filter_app, !length_app;
        cbn [filter is_train length];
        (split; [lia|discriminate]).
    + rewrite filter_app, length_app. split; [lia|discriminate].
    + rewrite filter_app, length_app. split; [lia|].
      intros Hb Hf. exfalso. apply Ho; [lia|exact Hf|reflexivity].
  - split; [lia|discriminate].
  - inversion Hp.
Qed.

End TerminationFacts.

(* ================================================================= *)
(** ** Flows and termination on runs of the small world *)

Section MoreExamples.
#[local] Existing Instance Toy.types.
#[local] Existing Instance Toy.collaborators.

(** The one-pass run returns the policy of its [create_policy]. *)
Lemma returns_the_created_policy_witness :
  outcome_of (serial_pipeline_plr Toy.cfg2 1 0 1 (Toy.start 100 100)) = Done tt /\
  pick created_policy
    (trace_of (serial_pipeline_plr Toy.cfg2 1 0 1 (Toy.start 100 100))) = [tt] /\
  pick hook_name
    (trace_of (serial_pipeline_plr Toy.cfg2 1 0 1 (Toy.start 100 100)))
  = ["before_run"; "after_run"]%string /\
  exists pre,
    trace_of (serial_pipeline_plr Toy.cfg2 1 0 1 (Toy.start 100 100))
    = pre ++ [EvCallHook "after_run" (inr tt)].
Proof.
  assert (Ho : outcome_of (serial_pipeline_plr Toy.cfg2 1 0 1 (Toy.start 100 100))
               = Done tt) by (vm_compute; reflexivity).
  split; [exact Ho|].
  exact (@returns_the_created_policy _ _ Toy.cfg2 1 0 1 (Toy.start 100 100) tt Ho).
Defined.

(** With [max_train_iter = 3] the small world's learner is trained three
    times, and three passes are enough. *)
Lemma loop_ends_within_train_budget_witness :
  counts_train_iterations (Toy.start 100 100) /\
  length (filter is_train
            (trace_of (serial_pipeline_plr Toy.cfg2 3 1000 3 (Toy.start 100 100))))
  <= Z.to_nat (Z.max 1 (3 - train_iter (Toy.start 100 100))) /\
  ((3 - train_iter (Toy.start 100 100) <= Z.of_nat 3)%Z -> 1 <= 3 ->
   outcome_of (serial_pipeline_plr Toy.cfg2 3 1000 3 (Toy.start 100 100))
   <> OutOfFuel).
Proof.
  assert (Hc : counts_train_iterations (Toy.start 100 100)).
  { split; [cbn; lia|].
    split; [exact toy_train_iter_monotone|exact toy_train_advances]. }
  split; [exact Hc|].
  exact (@loop_ends_within_train_budget _ _ Toy.cfg2 3 1000 3 (Toy.start 100 100) Hc).
Defined.

End MoreExamples.

(* ================================================================= *)
(** ** The time axis of a training sequence *)

Section R2D2Facts.
Import R2D2.

Lemma slice_front (A : Type) (l : list A) (n : Z) :
  (0 < n)%Z ->
  slice l None (Some (- n)%Z) = firstn (length l - Z.to_nat n) l.
Proof.
  intros Hn. unfold slice, adjust_index.
  destruct (Z.ltb_spec (- n) 0); [|lia].
  change (Z.to_nat 0) with 0. cbn [skipn]. f_equal. lia.
Qed.

Lemma slice_back (A : Type) (l : list A) (n : Z) :
  (0 <= n)%Z ->
  slice l (Some n) None = skipn (Z.to_nat n) l.
Proof.
  intros Hn. unfold slice, adjust_index.
  destruct (Z.ltb_spec n 0); [lia|].
  rewrite firstn_all2 by (rewrite length_skipn; lia).
  destruct (Z.le_gt_cases n (Z.of_nat (length l))) as [Hl|Hl].
  - f_equal. lia.
  - rewrite !skipn_all2 by lia. reflexivity.
Qed.

Lemma index_nat (A : Type) (l : list A) (t : Z) :
  (0 <= t)%Z -> index l t = nth_error l (Z.to_nat t).
Proof.
  intros Ht. unfold index. destruct (Z.ltb_spec t 0); [lia|reflexivity].
Qed.

Lemma range2_In (a b t : Z) : In t (range2 a b) <-> (a <= t < b)%Z.
Proof.
  unfold range2, range. rewrite in_map_iff. split.
  - intros (i & <- & Hi). apply in_map_iff in Hi.
    destruct Hi as (k & <- & Hk). apply in_seq in Hk. lia.
  - intros Ht. exists (t - a)%Z. split; [lia|].
    apply in_map_iff. exists (Z.to_nat (t - a)). split; [lia|].
    apply in_seq. lia.
Qed.

(** X10.  For a positive [nstep], [main_obs] and [target_obs] have the
    same number of steps, the length of ['obs'] less [nstep] (none when
    the sequence is no longer than [nstep]); step [t] of [main_obs] is
    step [t] of ['obs'] and step [t] of [target_obs] is step [t + nstep]
    of ['obs']; ['action'] and ['reward'] keep their first steps, as
    many as their length less [nstep]. *)
Theorem nstep_slices_are_aligned :
  forall (A R O : Type) (nstep : Z) (action : list A) (reward : list R)
         (obs : list O),
    (0 < nstep)%Z ->
    let d := _data_preprocess_learn nstep action reward obs in
    length (main_obs d) = length obs - Z.to_nat nstep /\
    length (target_obs d) = length obs - Z.to_nat nstep /\
    (forall t : Z,
        (0 <= t < Z.of_nat (length obs) - nstep)%Z ->
        index (main_obs d) t = index obs t /\
        index (target_obs d) t = index obs (t + nstep)) /\
    R2D2.action d = firstn (length action - Z.to_nat nstep) action /\
    R2D2.reward d = firstn (length reward - Z.to_nat nstep) reward.
Proof.
  intros A R O nstep action reward obs Hn d. subst d. cbn.
  rewrite !slice_front, slice_back by lia.
  rewrite length_firstn, length_skipn.
  split; [lia|]. split; [reflexivity|]. split; [|split; reflexivity].
  intros t Ht. rewrite !index_nat by lia. split.
  - rewrite nth_error_firstn.
    destruct (Nat.ltb_spec (Z.to_nat t) (length obs - Z.to_nat nstep));
      [reflexivity|lia].
  - rewrite nth_error_skipn. f_equal. lia.
Qed.

(** X11.  With [nstep = 0] the slice [[:-0]] is [[:0]]: ['action'],
    ['reward'] and [main_obs] lose every step while [target_obs] keeps
    the whole of ['obs']. *)
Theorem zero_nstep_drops_every_step :
  forall (A R O : Type) (action : list A) (reward : list R) (obs : list O),
    _data_preprocess_learn 0 action reward obs
    = {| R2D2.action := []; R2D2.reward := []; main_obs := [];
         target_obs := obs |}.
Proof.
  intros A R O action reward obs. unfold _data_preprocess_learn.
  rewrite slice_back by lia.
  unfold slice, adjust_index. cbn.
  rewrite !Z.min_l by lia. reflexivity.
Qed.

(** X12.  The loop of [_forward_learn] makes
    [unroll_len - nstep - burnin_step] steps.  When it makes any, with a
    burn-in of 0 or more and a positive [nstep], every step indexes
    inside the sliced ['action'] exactly when the collated sequence has
    at least [unroll_len] steps; a shorter one makes the last step raise
    [IndexError]. *)
Theorem td_steps_index_inside :
  forall (A R O : Type) (burnin_step unroll_len nstep : Z)
         (action : list A) (reward : list R) (obs : list O),
    (0 <= burnin_step)%Z -> (0 < nstep)%Z ->
    (burnin_step < unroll_len - nstep)%Z ->
    let d := _data_preprocess_learn nstep action reward obs in
    length (td_steps burnin_step unroll_len nstep)
    = Z.to_nat (unroll_len - nstep - burnin_step) /\
    ((forall t, In t (td_steps burnin_step unroll_len nstep) ->
                exists a, index (R2D2.action d) t = Some a)
     <-> (unroll_len <= Z.of_nat (length action))%Z) /\
    ((Z.of_nat (length action) < unroll_len)%Z ->
     In (unroll_len - nstep - 1)%Z (td_steps burnin_step unroll_len nstep) /\
     index (R2D2.action d) (unroll_len - nstep - 1) = None).
Proof.
  intros A R O b u n action reward obs Hb Hn Hlt d. subst d. cbn.
  rewrite slice_front by lia.
  split; [|split].
  - unfold td_steps, range2, range. rewrite !length_map, length_seq. lia.
  - split.
    + intros H. destruct (H (u - n - 1)%Z) as [a Ha].
      { apply range2_In. lia. }
      rewrite index_nat in Ha by lia.
      assert (Hl : Z.to_nat (u - n - 1)
                   < length (firstn (length action - Z.to_nat n) action)).
      { apply nth_error_Some. congruence. }
      rewrite length_firstn in Hl. lia.
    + intros Hu t Ht. apply range2_In in Ht.
      rewrite index_nat by lia.
      destruct (nth_error (firstn (length action - Z.to_nat n) action)
                  (Z.to_nat t)) as [a|] eqn:E; [now exists a|].
      apply nth_error_None in E. rewrite length_firstn in E. lia.
  - intros Hs. split; [apply range2_In; lia|].
    rewrite index_nat by lia. apply nth_error_None.
    rewrite length_firstn. lia.
Qed.

Lemma nstep_slices_are_aligned_witness :
  (0 < 2)%Z /\
  let d := _data_preprocess_learn 2 [10; 11; 12; 13; 14] [0; 1; 0; 1; 0]
             ["a"; "b"; "c"; "d"; "e"]%string in
  length (main_obs d) = 5 - Z.to_nat 2 /\
  length (target_obs d) = 5 - Z.to_nat 2 /\
  (forall t : Z,
      (0 <= t < Z.of_nat 5 - 2)%Z ->
      index (main_obs d) t = index ["a"; "b"; "c"; "d"; "e"]%string t /\
      index (target_obs d) t = index ["a"; "b"; "c"; "d"; "e"]%string (t + 2)) /\
  R2D2.action d = firstn (5 - Z.to_nat 2) [10; 11; 12; 13; 14] /\
  R2D2.reward d = firstn (5 - Z.to_nat 2) [0; 1; 0; 1; 0].
Proof.
  split; [lia|].
  apply (@nstep_slices_are_aligned nat nat string 2 [10; 11; 12; 13; 14]
           [0; 1; 0; 1; 0] ["a"; "b"; "c"; "d"; "e"]%string).
  lia.
Defined.

Lemma td_steps_index_inside_witness :
  (0 <= 1)%Z /\ (0 < 2)%Z /\ (1 < 5 - 2)%Z /\
  let d := _data_preprocess_learn 2 [10; 11; 12; 13; 14] [0; 1; 0; 1; 0]
             ["a"; "b"; "c"; "d"; "e"]%string in
  length (td_steps 1 5 2) = Z.to_nat (5 - 2 - 1) /\
  ((forall t, In t (td_steps 1 5 2) ->
              exists a, index (R2D2.action d) t = Some a)
   <-> (5 <= Z.of_nat 5)%Z) /\
  ((Z.of_nat 5 < 5)%Z ->
   In (5 - 2 - 1)%Z (td_steps 1 5 2) /\
   index (R2D2.action d) (5 - 2 - 1) = None).
Proof.
  split; [lia|]. split; [lia|]. split; [lia|].
  apply (@td_steps_index_inside nat nat string 1 5 2 [10; 11; 12; 13; 14]
           [0; 1; 0; 1; 0] ["a"; "b"; "c"; "d"; "e"]%string); lia.
Defined.

End R2D2Facts.

(* ================================================================= *)
(** ** The rocket environment *)

Section RocketEnvFacts.
Import RocketEnv.
Context {T : Types} {W : Outside T}.
Local Open Scope rocket_scope.

(** Runs a method on a symbolic object, one branch per answer of the
    world and per attribute read. *)
Ltac is_attribute x :=
  match x with
  | _init_flag ?s => is_var s
  | _save_replay ?s => is_var s
  | _env ?s => is_var s
  | _seed ?s => is_var s
  | _dynamic_seed ?s => is_var s
  | _final_eval_reward ?s => is_var s
  | _frames ?s => is_var s
  | _replay_path ?s => is_var s
  | _save_replay_count ?s => is_var s
  | task (_cfg ?s) => is_var s
  | max_steps (_cfg ?s) => is_var s
  end.

Ltac known_or_cases x :=
  first [match goal with H : x = _ |- _ => rewrite H end
        |destruct x eqn:?].

Ltac reduce := cbn -[Z.add Z.mul path_join episode_gif].

Ltac run_method :=
  unfold bind, outside, attr, get, assign, ret,
         trace_of, answer_of, self_of, world_of;
  reduce;
  repeat (match goal with
          | |- context [respond ?c ?w] =>
              is_var w; destruct (respond c w) as [[?e|?v] ?w] eqn:?
          | |- context [match ?x with _ => _ end] =>
              first [is_var x; destruct x
                    |is_attribute x; known_or_cases x
                    |match x with
                     | negb ?y =>
                         first [is_var y; destruct y
                               |is_attribute y; known_or_cases y]
                     end]
          end; reduce).

(** X13.  [__init__] leaves no simulator, and [step] on an object whose
    simulator was never built raises [AttributeError] for [_env] at
    once: it makes no call and leaves the object as it was. *)
Theorem step_needs_reset :
  forall (cfg : Cfg) (a : Action) (s : self) (w w0 : world),
    _env (self_of (__init__ cfg w0)) = None /\
    (_env s = None ->
     step a s w = ([], Threw (AttributeError "_env"), s, w)).
Proof.
  intros cfg a s w w0. split.
  - unfold __init__. run_method; reflexivity.
  - intros H. unfold step. unfold bind at 1. unfold attr at 1.
    rewrite H. reflexivity.
Qed.

(** X14.  Once [close] has returned, a second [close] does nothing: it
    makes no call, returns, and leaves the object as it is. *)
Theorem close_twice_is_close_once :
  forall (s : self) (w w' : world),
    answer_of (close s w) = Returned tt ->
    _init_flag (self_of (close s w)) = false /\
    close (self_of (close s w)) w'
    = ([], Returned tt, self_of (close s w), w').
Proof.
  intros s w w'. unfold close. run_method; intros H; try discriminate;
    split; reflexivity.
Qed.

Ltac keep_consistent :=
  unfold consistent in *; cbn in *;
  intuition (try congruence; try discriminate).

Lemma reset_consistent (s : self) (w : world) :
  consistent s -> consistent (self_of (reset s w)).
Proof. intros H. unfold reset. run_method; keep_consistent. Qed.

Lemma close_consistent (s : self) (w : world) :
  consistent s -> consistent (self_of (close s w)).
Proof. intros H. unfold close. run_method; keep_consistent. Qed.

Lemma seed_consistent (z : Z) (d : bool) (s : self) (w : world) :
  consistent s -> consistent (self_of (seed z d s w)).
Proof. intros H. unfold seed. run_method; keep_consistent. Qed.

Lemma step_consistent (a : Action) (s : self) (w : world) :
  consistent s -> consistent (self_of (step a s w)).
Proof. intros H. unfold step. run_method; keep_consistent. Qed.

Lemma enable_save_replay_consistent (p : option string) (s : self)
    (w : world) :
  consistent s -> consistent (self_of (enable_save_replay p s w)).
Proof. intros H. unfold enable_save_replay. run_method; keep_consistent. Qed.

Lemma random_action_consistent (s : self) (w : world) :
  consistent s -> consistent (self_of (random_action s w)).
Proof. intros H. unfold random_action. run_method; keep_consistent. Qed.

Lemma reachable_consistent (s : self) : reachable s -> consistent s.
Proof.
  induction 1 as [cfg w H|m s w Hr IH].
  - unfold __init__ in *. run_method; keep_consistent.
  - destruct m; cbn [after fst].
    + now apply reset_consistent.
    + now apply close_consistent.
    + now apply seed_consistent.
    + now apply step_consistent.
    + now apply enable_save_replay_consistent.
    + now apply random_action_consistent.
Qed.

(** X15.  An object built by [__init__] and used through its methods
    only, whatever they answered, keeps its attributes consistent: the
    simulator exists while [_init_flag] is set, [_seed] and
    [_dynamic_seed] exist together, as do [_replay_path] and
    [_save_replay_count], and frames or a replay path exist only with
    [_save_replay] set.  On such an object [close] never raises
    [AttributeError], and [reset] raises it only for an attribute the
    [cfg] lacks, [task] first, while no simulator is open; it does so
    before any call, as with the default [cfg]. *)
Theorem methods_keep_the_object_consistent :
  forall s : self,
    reachable s ->
    consistent s /\
    forall (w : world) (name : string),
      answer_of (close s w) <> Threw (AttributeError name) /\
      (answer_of (reset s w) = Threw (AttributeError name) ->
       _init_flag s = false /\
       ((task (_cfg s) = None /\ name = "task"%string) \/
        (task (_cfg s) <> None /\ max_steps (_cfg s) = None /\
         name = "max_steps"%string))) /\
      (_init_flag s = false -> task (_cfg s) = None ->
       reset s w = ([], Threw (AttributeError "task"), s, w)).
Proof.
  intros s Hr. pose proof (reachable_consistent Hr) as Hc.
  split; [exact Hc|]. intros w name.
  destruct Hc as (Henv & _). split; [|split].
  - unfold close. run_method; try discriminate.
    exfalso. now apply Henv.
  - unfold reset. run_method; intros H; try discriminate;
      try (exfalso; now apply Henv);
      injection H as <-; (split; [reflexivity|]);
      [right; repeat split; discriminate|left; split; reflexivity].
  - intros Hf Ht. unfold reset, bind, get, attr. cbn.
    rewrite Hf. cbn. rewrite Ht. reflexivity.
Qed.

(** X16.  A [reset] that returns gives the simulator and the action
    space the same seeds.  Without [seed] it seeds neither; with a
    static seed it gives both [_seed] and does not touch numpy's
    generator; with a dynamic seed it draws [k] with
    [np.random.randint(1, 1000)] once and gives both
    [_seed + 100 * k]. *)
Theorem reset_seeds_simulator_and_space_alike :
  forall (s : self) (w : world) (o : Observation),
    answer_of (reset s w) = Returned o ->
    pick rocket_seed (trace_of (reset s w))
    = pick space_seed (trace_of (reset s w)) /\
    match _seed s, _dynamic_seed s with
    | Some z, Some true =>
        exists k : Z,
          pick randint (trace_of (reset s w)) = [(1, 1000, k)%Z] /\
          pick rocket_seed (trace_of (reset s w)) = [(z + 100 * k)%Z]
    | Some z, _ =>
        pick randint (trace_of (reset s w)) = [] /\
        pick rocket_seed (trace_of (reset s w)) = [z]
    | None, _ =>
        pick randint (trace_of (reset s w)) = [] /\
        pick rocket_seed (trace_of (reset s w)) = []
    end.
Proof.
  intros s w o. unfold reset.
  run_method; intros H; try discriminate; repeat split; eauto.
Qed.

(** *** What a method that returned has done *)

Lemma rocket_pick_app (B : Type) (f : entry -> option B) (t1 t2 : list entry) :
  pick f (t1 ++ t2) = pick f t1 ++ pick f t2.
Proof.
  induction t1 as [|e t1 IH]; [reflexivity|].
  cbn. destruct (f e); cbn; now rewrite IH.
Qed.

Lemma bind_returned (A B : Type) (m : M A) (k : A -> M B) (s : self)
    (w : world) (b : B) :
  answer_of (bind m k s w) = Returned b ->
  exists a : A,
    answer_of (m s w) = Returned a /\
    answer_of (k a (self_of (m s w)) (world_of (m s w))) = Returned b /\
    trace_of (bind m k s w)
    = trace_of (m s w)
      ++ trace_of (k a (self_of (m s w)) (world_of (m s w))) /\
    self_of (bind m k s w)
    = self_of (k a (self_of (m s w)) (world_of (m s w))).
Proof.
  unfold bind, answer_of, trace_of, self_of, world_of.
  destruct (m s w) as [[[t [a|e]] s1] w1]; cbn; [|discriminate].
  destruct (k a s1 w1) as [[[t' r] s2] w2] eqn:E; cbn.
  intros ->. exists a. rewrite E. auto.
Qed.

Lemma close_returned (s : self) (w : world) :
  answer_of (close s w) = Returned tt ->
  _init_flag (self_of (close s w)) = false /\
  pick built_rocket (trace_of (close s w)) = [] /\
  pick reset_rocket (trace_of (close s w)) = [].
Proof.
  unfold close. run_method; intros H; try discriminate; repeat split.
Qed.

Lemma reset_returned (s : self) (w : world) (o : Observation) :
  answer_of (reset s w) = Returned o ->
  exists env : Rocket,
    _env (self_of (reset s w)) = Some env /\
    _init_flag (self_of (reset s w)) = true /\
    pick reset_rocket (trace_of (reset s w)) = [env] /\
    (if _init_flag s
     then pick built_rocket (trace_of (reset s w)) = [] /\ _env s = Some env
     else pick built_rocket (trace_of (reset s w)) = [env]) /\
    _final_eval_reward (self_of (reset s w)) = Some zero /\
    pick step_reward (trace_of (reset s w)) = [] /\
    pick saved_gif (trace_of (reset s w)) = [] /\
    _save_replay (self_of (reset s w)) = _save_replay s /\
    _replay_path (self_of (reset s w)) = _replay_path s /\
    _save_replay_count (self_of (reset s w)) = _save_replay_count s /\
    (_save_replay s = true -> _frames (self_of (reset s w)) <> None).
Proof.
  unfold reset.
  run_method; intros H; try discriminate; eexists;
    repeat split; try reflexivity; try assumption; try discriminate;
    try congruence.
Qed.

(** X17.  [close], then [reset] twice: when all three return, one
    simulator was built; both [reset]s reset that one, and it is the one
    the object holds in the end. *)
Theorem reopening_builds_one_rocket :
  forall (s : self) (w : world) (os : Observation * Observation),
    let r := (close;; o1 <- reset;; o2 <- reset;; ret (o1, o2)) s w in
    answer_of r = Returned os ->
    exists env : Rocket,
      pick built_rocket (trace_of r) = [env] /\
      pick reset_rocket (trace_of r) = [env; env] /\
      _env (self_of r) = Some env /\
      _init_flag (self_of r) = true.
Proof.
  intros s w os r H. subst r.
  apply bind_returned in H as ([] & Hc & H & -> & ->).
  apply bind_returned in H as (o1 & H1 & H & -> & ->).
  apply bind_returned in H as (o2 & H2 & _ & -> & ->).
  apply close_returned in Hc as (Hf & Hcb & Hcr).
  apply reset_returned in H1 as (env & He1 & Hf1 & Hr1 & Hb1 & _).
  apply reset_returned in H2 as (env2 & He2 & Hf2 & Hr2 & Hb2 & _).
  rewrite Hf in Hb1. rewrite Hf1 in Hb2. destruct Hb2 as [Hb2 He].
  assert (env2 = env) by congruence. subst env2.
  exists env. rewrite !rocket_pick_app.
  rewrite Hcb, Hcr, Hb1, Hr1, Hb2, Hr2. cbn.
  repeat split; assumption.
Qed.

Lemma step_returned (a : Action) (s : self) (w : world) (ts : timestep) :
  answer_of (step a s w) = Returned ts ->
  exists (total rew : Reward),
    _final_eval_reward s = Some total /\
    pick step_reward (trace_of (step a s w)) = [rew] /\
    _final_eval_reward (self_of (step a s w)) = Some (add total rew) /\
    final_eval_reward ts
    = (if done ts then Some (add total rew) else None) /\
    _save_replay (self_of (step a s w)) = _save_replay s /\
    _replay_path (self_of (step a s w)) = _replay_path s /\
    (if _save_replay s && done ts
     then exists (dir : string) (n : Z),
         _replay_path s = Some dir /\
         _save_replay_count s = Some n /\
         _save_replay_count (self_of (step a s w)) = Some (n + 1)%Z /\
         pick saved_gif (trace_of (step a s w))
         = [path_join dir (episode_gif n)]
     else _save_replay_count (self_of (step a s w)) = _save_replay_count s /\
          pick saved_gif (trace_of (step a s w)) = []).
Proof.
  unfold step.
  run_method; intros H; try discriminate;
    injection H as <-; cbn [done final_eval_reward andb];
    do 2 eexists; repeat split; try reflexivity; try assumption;
    do 2 eexists; repeat split; try reflexivity; try assumption.
Qed.

Lemma range_succ (n : nat) :
  range (Z.of_nat (S n)) = 0%Z :: map Z.succ (range (Z.of_nat n)).
Proof.
  unfold range. rewrite !Nat2Z.id. cbn [seq map].
  f_equal. rewrite <- seq_shift, !map_map.
  apply map_ext. intros k. lia.
Qed.

(** The rewards add up from the total the steps start with. *)
Lemma steps_add_up (acts : list Action) :
  forall (s : self) (w : world) (tss : list timestep) (total : Reward),
    answer_of (steps acts s w) = Returned tss ->
    _final_eval_reward s = Some total ->
    let rews := pick step_reward (trace_of (steps acts s w)) in
    _final_eval_reward (self_of (steps acts s w))
    = Some (fold_left add rews total) /\
    length tss = length acts /\
    length rews = length acts /\
    forall (i : nat) (ts : timestep),
      nth_error tss i = Some ts ->
      final_eval_reward ts
      = if done ts
        then Some (fold_left add (firstn (S i) rews) total)
        else None.
Proof.
  induction acts as [|a acts IH]; intros s w tss total H Hs rews; subst rews.
  - cbn in *. injection H as <-. repeat split; auto.
    intros [|i] ts; discriminate.
  - cbn [steps] in *.
    apply bind_returned in H as (ts0 & H0 & H & -> & ->).
    apply bind_returned in H as (tss' & H1 & H & -> & ->).
    cbn in H. injection H as <-.
    apply step_returned in H0
      as (total0 & rew & Ht0 & Hr0 & Hf0 & Hts0 & _).
    assert (total0 = total) by congruence. subst total0.
    destruct (IH _ _ _ _ H1 Hf0) as (Hf & Hl & Hlr & Hi).
    cbn [ret trace_of self_of fst snd].
    rewrite app_nil_r, rocket_pick_app, Hr0.
    cbn [app fold_left length]. unfold trace_of, self_of in *.
    split; [exact Hf|]. split; [now rewrite Hl|].
    split; [now rewrite Hlr|].
    intros [|i] ts Hn; cbn in Hn.
    + injection Hn as <-. rewrite Hts0. cbn. reflexivity.
    + rewrite (Hi _ _ Hn). cbn [firstn fold_left]. reflexivity.
Qed.

(** The episodes that end are saved under successive numbers. *)
Lemma steps_save_in_order (acts : list Action) :
  forall (s : self) (w : world) (tss : list timestep) (dir : string) (n : Z),
    answer_of (steps acts s w) = Returned tss ->
    _save_replay s = true ->
    _replay_path s = Some dir ->
    _save_replay_count s = Some n ->
    pick saved_gif (trace_of (steps acts s w))
    = map (fun k => path_join dir (episode_gif (n + k)))
        (range (Z.of_nat (length (filter done tss)))) /\
    _save_replay_count (self_of (steps acts s w))
    = Some (n + Z.of_nat (length (filter done tss)))%Z.
Proof.
  induction acts as [|a acts IH]; intros s w tss dir n H Hsr Hp Hn.
  - cbn in *. injection H as <-. cbn. rewrite Z.add_0_r. auto.
  - cbn [steps] in *.
    apply bind_returned in H as (ts0 & H0 & H & -> & ->).
    apply bind_returned in H as (tss' & H1 & H & -> & ->).
    cbn in H. injection H as <-.
    apply step_returned in H0
      as (total0 & rew & _ & _ & _ & _ & Hsr0 & Hp0 & Hg).
    rewrite Hsr in Hg, Hsr0. rewrite Hp in Hp0. cbn [andb] in Hg.
    cbn [ret trace_of self_of fst snd].
    rewrite app_nil_r, rocket_pick_app. unfold trace_of, self_of in *.
    cbn [filter]. destruct (done ts0).
    + destruct Hg as (dir0 & n0 & Hd0 & Hn0 & Hc0 & Hg).
      assert (dir0 = dir) by congruence.
      assert (n0 = n) by congruence. subst dir0 n0.
      destruct (IH _ _ _ _ _ H1 Hsr0 Hp0 Hc0) as [IHg IHc].
      rewrite Hg, IHg, IHc. cbn [length].
      rewrite range_succ. cbn [map app]. rewrite Z.add_0_r, map_map.
      split.
      * f_equal. apply map_ext. intros k. do 2 f_equal. lia.
      * f_equal. lia.
    + destruct Hg as [Hc0 Hg]. rewrite Hn in Hc0.
      destruct (IH _ _ _ _ _ H1 Hsr0 Hp0 Hc0) as [IHg IHc].
      rewrite Hg, IHg, IHc. split; reflexivity.
Qed.

(** X18.  In an episode that returns, [reset] followed by one [step]
    per action, the simulator is stepped once per action;
    [_final_eval_reward] ends as the rewards of all the steps added to
    [0] from left to right; and a timestep carries [final_eval_reward]
    exactly when it is done, the sum of the rewards up to it. *)
Theorem final_eval_reward_sums_the_episode :
  forall (acts : list Action) (s : self) (w : world)
         (o : Observation) (tss : list timestep),
    answer_of (episode acts s w) = Returned (o, tss) ->
    let rews := pick step_reward (trace_of (episode acts s w)) in
    _final_eval_reward (self_of (episode acts s w))
    = Some (fold_left add rews zero) /\
    length tss = length acts /\
    length rews = length acts /\
    forall (i : nat) (ts : timestep),
      nth_error tss i = Some ts ->
      final_eval_reward ts
      = if done ts
        then Some (fold_left add (firstn (S i) rews) zero)
        else None.
Proof.
  intros acts s w o tss H rews. subst rews. unfold episode in *.
  apply bind_returned in H as (o' & H0 & H & -> & ->).
  apply bind_returned in H as (tss' & H1 & H & -> & ->).
  cbn in H. injection H as <- <-.
  apply reset_returned in H0 as (env & _ & _ & _ & _ & Hf & Hr & _).
  cbn [ret trace_of self_of fst snd].
  rewrite app_nil_r, rocket_pick_app. unfold trace_of, self_of in *.
  rewrite Hr. cbn [app].
  exact (steps_add_up acts _ _ H1 Hf).
Qed.

(** X19.  Enabling the replay on an object that holds no frames, as
    after a [reset] without replay, and stepping before the next
    [reset] never returns a timestep; when the object had been reset,
    the only attribute it can miss is [_frames]. *)
Theorem replay_enabled_after_reset_breaks_step :
  forall (p : option string) (a : Action) (s : self) (w : world),
    _frames s = None ->
    let r := (enable_save_replay p;; step a) s w in
    (forall ts : timestep, answer_of r <> Returned ts) /\
    (_env s <> None -> _final_eval_reward s <> None ->
     forall name : string,
       answer_of r = Threw (AttributeError name) -> name = "_frames"%string).
Proof.
  intros p a s w Hf r. subst r. unfold enable_save_replay, step.
  run_method; (split; [intros ts; discriminate|]);
    intros He Ht name H; try discriminate; try congruence.
Qed.

(** X20.  With the replay enabled before an episode, the episode saves
    one gif for each of its timesteps that is done, in order, under the
    replay path (['./video'] by default) as [0_episode.gif],
    [1_episode.gif] and so on; [_save_replay_count] ends as their
    number. *)
Theorem finished_episodes_are_saved_in_order :
  forall (p : option string) (acts : list Action) (s : self) (w : world)
         (o : Observation) (tss : list timestep),
    let r := (enable_save_replay p;; episode acts) s w in
    let dir := match p with None => "./video"%string | Some d => d end in
    answer_of r = Returned (o, tss) ->
    pick saved_gif (trace_of r)
    = map (fun k => path_join dir (episode_gif k))
        (range (Z.of_nat (length (filter done tss)))) /\
    _save_replay_count (self_of r)
    = Some (Z.of_nat (length (filter done tss))).
Proof.
  intros p acts s w o tss r dir H. subst r. unfold episode in *.
  apply bind_returned in H as ([] & He & H & -> & ->).
  apply bind_returned in H as (o' & H0 & H & -> & ->).
  apply bind_returned in H as (tss' & H1 & H & -> & ->).
  cbn in H. injection H as <- <-.
  assert (Hen : _save_replay (self_of (enable_save_replay p s w)) = true /\
                _replay_path (self_of (enable_save_replay p s w)) = Some dir /\
                _save_replay_count (self_of (enable_save_replay p s w))
                = Some 0%Z /\
                pick saved_gif (trace_of (enable_save_replay p s w)) = []).
  { clear H0 H1. revert He. subst dir. unfold enable_save_replay.
    run_method; intros H; try discriminate; repeat split. }
  destruct Hen as (Hsr & Hp & Hc & Hg).
  apply reset_returned in H0
    as (env & _ & _ & _ & _ & _ & _ & Hg0 & Hsr0 & Hp0 & Hc0 & _).
  rewrite Hsr in Hsr0. rewrite Hp in Hp0. rewrite Hc in Hc0.
  destruct (steps_save_in_order acts _ _ H1 Hsr0 Hp0 Hc0) as [Hs Hn].
  cbn [ret trace_of self_of fst snd].
  rewrite app_nil_r, !rocket_pick_app. unfold trace_of, self_of in *.
  rewrite Hg, Hg0, Hs, Hn. cbn [app]. split; reflexivity.
Qed.

End RocketEnvFacts.

(* ================================================================= *)
(** ** The rocket environment in its small world *)

Section RocketEnvExamples.
Import RocketEnv.
#[local] Existing Instance ToyRocket.types.
#[local] Existing Instance ToyRocket.outside.
Local Open Scope rocket_scope.

(** An object that was reset is closed twice. *)
Lemma close_twice_is_close_once_witness :
  answer_of (close (self_of (reset ToyRocket.fresh ToyRocket.start))
               ToyRocket.start) = Returned tt /\
  _init_flag (self_of (close (self_of (reset ToyRocket.fresh ToyRocket.start))
                         ToyRocket.start)) = false /\
  close (self_of (close (self_of (reset ToyRocket.fresh ToyRocket.start))
                    ToyRocket.start)) ToyRocket.start
  = ([], Returned tt,
     self_of (close (self_of (reset ToyRocket.fresh ToyRocket.start))
                ToyRocket.start),
     ToyRocket.start).
Proof.
  assert (H : answer_of (close (self_of (reset ToyRocket.fresh ToyRocket.start))
                           ToyRocket.start) = Returned tt)
    by (vm_compute; reflexivity).
  split; [exact H|].
  exact (@close_twice_is_close_once _ _
           (self_of (reset ToyRocket.fresh ToyRocket.start))
           ToyRocket.start ToyRocket.start H).
Defined.

(** The object after [RocketEnv()], [seed] and a [reset] that raised. *)
Lemma methods_keep_the_object_consistent_witness :
  let s := fst (after Reset
                  (fst (after (Seed 314 false)
                          (self_of (__init__ ToyRocket.bare ToyRocket.start))
                          ToyRocket.start)) ToyRocket.start) in
  reachable s /\
  consistent s /\
  forall (w : world) (name : string),
    answer_of (close s w) <> Threw (AttributeError name) /\
    (answer_of (reset s w) = Threw (AttributeError name) ->
     _init_flag s = false /\
     ((task (_cfg s) = None /\ name = "task"%string) \/
      (task (_cfg s) <> None /\ max_steps (_cfg s) = None /\
       name = "max_steps"%string))) /\
    (_init_flag s = false -> task (_cfg s) = None ->
     reset s w = ([], Threw (AttributeError "task"), s, w)).
Proof.
  intros s.
  assert (H : reachable s).
  { apply reach_call. apply reach_call.
    apply (@reach_init _ ToyRocket.outside ToyRocket.bare ToyRocket.start).
    reflexivity. }
  split; [exact H|].
  exact (@methods_keep_the_object_consistent _ _ s H).
Defined.

(** A [reset] after [seed(314)]: the small world's generator draws 7. *)
Lemma reset_seeds_simulator_and_space_alike_witness :
  answer_of (reset (self_of (seed 314 true ToyRocket.fresh ToyRocket.start))
               ToyRocket.start) = Returned 0%Z /\
  pick rocket_seed
    (trace_of (reset (self_of (seed 314 true ToyRocket.fresh ToyRocket.start))
                 ToyRocket.start))
  = pick space_seed
      (trace_of (reset (self_of (seed 314 true ToyRocket.fresh ToyRocket.start))
                   ToyRocket.start)) /\
  match _seed (self_of (seed 314 true ToyRocket.fresh ToyRocket.start)),
        _dynamic_seed (self_of (seed 314 true ToyRocket.fresh ToyRocket.start))
  with
  | Some z, Some true =>
      exists k : Z,
        pick randint
          (trace_of (reset (self_of (seed 314 true ToyRocket.fresh
                                       ToyRocket.start)) ToyRocket.start))
        = [(1, 1000, k)%Z] /\
        pick rocket_seed
          (trace_of (reset (self_of (seed 314 true ToyRocket.fresh
                                       ToyRocket.start)) ToyRocket.start))
        = [(z + 100 * k)%Z]
  | Some z, _ =>
      pick randint
        (trace_of (reset (self_of (seed 314 true ToyRocket.fresh
                                     ToyRocket.start)) ToyRocket.start))
      = [] /\
      pick rocket_seed
        (trace_of (reset (self_of (seed 314 true ToyRocket.fresh
                                     ToyRocket.start)) ToyRocket.start))
      = [z]
  | None, _ =>
      pick randint
        (trace_of (reset (self_of (seed 314 true ToyRocket.fresh
                                     ToyRocket.start)) ToyRocket.start))
      = [] /\
      pick rocket_seed
        (trace_of (reset (self_of (seed 314 true ToyRocket.fresh
                                     ToyRocket.start)) ToyRocket.start))
      = []
  end.
Proof.
  assert (H : answer_of (reset (self_of (seed 314 true ToyRocket.fresh
                                           ToyRocket.start)) ToyRocket.start)
              = Returned 0%Z) by (vm_compute; reflexivity).
  split; [exact H|].
  exact (@reset_seeds_simulator_and_space_alike _ _
           (self_of (seed 314 true ToyRocket.fresh ToyRocket.start))
           ToyRocket.start 0%Z H).
Defined.

(** An object that was reset is closed and reset twice. *)
Lemma reopening_builds_one_rocket_witness :
  let r := (close;; o1 <- reset;; o2 <- reset;; ret (o1, o2))
             (self_of (reset ToyRocket.fresh ToyRocket.start))
             (world_of (reset ToyRocket.fresh ToyRocket.start)) in
  answer_of r = Returned (0%Z, 0%Z) /\
  exists env : Rocket,
    pick built_rocket (trace_of r) = [env] /\
    pick reset_rocket (trace_of r) = [env; env] /\
    _env (self_of r) = Some env /\
    _init_flag (self_of r) = true.
Proof.
  intros r.
  assert (H : answer_of r = Returned (0%Z, 0%Z)) by (vm_compute; reflexivity).
  split; [exact H|].
  exact (@reopening_builds_one_rocket _ _
           (self_of (reset ToyRocket.fresh ToyRocket.start))
           (world_of (reset ToyRocket.fresh ToyRocket.start))
           (0%Z, 0%Z) H).
Defined.

(** Three steps; the simulator is done at the third. *)
Lemma final_eval_reward_sums_the_episode_witness :
  answer_of (episode [1; 2; 3]%Z ToyRocket.fresh ToyRocket.start)
  = Returned
      (0%Z,
       [{| obs := 1%Z; reward := 1%Z; done := false; info := tt;
           final_eval_reward := None |};
        {| obs := 3%Z; reward := 2%Z; done := false; info := tt;
           final_eval_reward := None |};
        {| obs := 6%Z; reward := 3%Z; done := true; info := tt;
           final_eval_reward := Some 6%Z |}]) /\
  let rews := pick step_reward
                (trace_of (episode [1; 2; 3]%Z ToyRocket.fresh ToyRocket.start)) in
  _final_eval_reward (self_of (episode [1; 2; 3]%Z ToyRocket.fresh ToyRocket.start))
  = Some (fold_left add rews zero) /\
  length
    [{| obs := 1%Z; reward := 1%Z; done := false; info := tt;
        final_eval_reward := None |};
     {| obs := 3%Z; reward := 2%Z; done := false; info := tt;
        final_eval_reward := None |};
     {| obs := 6%Z; reward := 3%Z; done := true; info := tt;
        final_eval_reward := Some 6%Z |}]
  = length [1; 2; 3]%Z /\
  length rews = length [1; 2; 3]%Z /\
  forall (i : nat) (ts : timestep),
    nth_error
      [{| obs := 1%Z; reward := 1%Z; done := false; info := tt;
          final_eval_reward := None |};
       {| obs := 3%Z; reward := 2%Z; done := false; info := tt;
          final_eval_reward := None |};
       {| obs := 6%Z; reward := 3%Z; done := true; info := tt;
          final_eval_reward := Some 6%Z |}] i = Some ts ->
    final_eval_reward ts
    = if done ts
      then Some (fold_left add (firstn (S i) rews) zero)
      else None.
Proof.
  assert (H : answer_of (episode [1; 2; 3]%Z ToyRocket.fresh ToyRocket.start)
              = Returned
                  (0%Z,
                   [{| obs := 1%Z; reward := 1%Z; done := false; info := tt;
                       final_eval_reward := None |};
                    {| obs := 3%Z; reward := 2%Z; done := false; info := tt;
                       final_eval_reward := None |};
                    {| obs := 6%Z; reward := 3%Z; done := true; info := tt;
                       final_eval_reward := Some 6%Z |}]))
    by (vm_compute; reflexivity).
  split; [exact H|].
  exact (@final_eval_reward_sums_the_episode _ _ [1; 2; 3]%Z ToyRocket.fresh
           ToyRocket.start _ _ H).
Defined.

(** The replay is enabled on an object that was reset without it. *)
Lemma replay_enabled_after_reset_breaks_step_witness :
  let r := (enable_save_replay None;; step 1%Z)
             (self_of (reset ToyRocket.fresh ToyRocket.start))
             (world_of (reset ToyRocket.fresh ToyRocket.start)) in
  _frames (self_of (reset ToyRocket.fresh ToyRocket.start)) = None /\
  (forall ts : timestep, answer_of r <> Returned ts) /\
  (_env (self_of (reset ToyRocket.fresh ToyRocket.start)) <> None ->
   _final_eval_reward (self_of (reset ToyRocket.fresh ToyRocket.start))
   <> None ->
   forall name : string,
     answer_of r = Threw (AttributeError name) -> name = "_frames"%string).
Proof.
  intros r.
  assert (H : _frames (self_of (reset ToyRocket.fresh ToyRocket.start)) = None)
    by (vm_compute; reflexivity).
  split; [exact H|].
  exact (@replay_enabled_after_reset_breaks_step _ _ None 1%Z
           (self_of (reset ToyRocket.fresh ToyRocket.start))
           (world_of (reset ToyRocket.fresh ToyRocket.start)) H).
Defined.

(** Four steps with the replay on: the simulator is done at the third
    and at the fourth. *)
Lemma finished_episodes_are_saved_in_order_witness :
  let r := (enable_save_replay None;; episode [1; 2; 3; 4]%Z)
             ToyRocket.fresh ToyRocket.start in
  let dir := "./video"%string in
  answer_of r
  = Returned
      (0%Z,
       [{| obs := 1%Z; reward := 1%Z; done := false; info := tt;
           final_eval_reward := None |};
        {| obs := 3%Z; reward := 2%Z; done := false; info := tt;
           final_eval_reward := None |};
        {| obs := 6%Z; reward := 3%Z; done := true; info := tt;
           final_eval_reward := Some 6%Z |};
        {| obs := 10%Z; reward := 4%Z; done := true; info := tt;
           final_eval_reward := Some 10%Z |}]) /\
  pick saved_gif (trace_of r)
  = map (fun k => path_join dir (episode_gif k))
      (range
         (Z.of_nat
            (length
               (filter done
                  [{| obs := 1%Z; reward := 1%Z; done := false; info := tt;
                      final_eval_reward := None |};
                   {| obs := 3%Z; reward := 2%Z; done := false; info := tt;
                      final_eval_reward := None |};
                   {| obs := 6%Z; reward := 3%Z; done := true; info := tt;
                      final_eval_reward := Some 6%Z |};
                   {| obs := 10%Z; reward := 4%Z; done := true; info := tt;
                      final_eval_reward := Some 10%Z |}])))) /\
  _save_replay_count (self_of r)
  = Some
      (Z.of_nat
         (length
            (filter done
               [{| obs := 1%Z; reward := 1%Z; done := false; info := tt;
                   final_eval_reward := None |};
                {| obs := 3%Z; reward := 2%Z; done := false; info := tt;
                   final_eval_reward := None |};
                {| obs := 6%Z; reward := 3%Z; done := true; info := tt;
                   final_eval_reward := Some 6%Z |};
                {| obs := 10%Z; reward := 4%Z; done := true; info := tt;
                   final_eval_reward := Some 10%Z |}]))).
Proof.
  intros r dir.
  assert (H : answer_of r
              = Returned
                  (0%Z,
                   [{| obs := 1%Z; reward := 1%Z; done := false; info := tt;
                       final_eval_reward := None |};
                    {| obs := 3%Z; reward := 2%Z; done := false; info := tt;
                       final_eval_reward := None |};
                    {| obs := 6%Z; reward := 3%Z; done := true; info := tt;
                       final_eval_reward := Some 6%Z |};
                    {| obs := 10%Z; reward := 4%Z; done := true; info := tt;
                       final_eval_reward := Some 10%Z |}]))
    by (vm_compute; reflexivity).
  split; [exact H|].
  exact (@finished_episodes_are_saved_in_order _ _ None [1; 2; 3; 4]%Z
           ToyRocket.fresh ToyRocket.start _ _ H).
Defined.

End RocketEnvExamples.
